(** * SyncDir: one-way directory mirroring ([sync_folders.py])

    A shallow embedding of the synchronisation engine of [sync_folders.py]
    ([calculate_md5], [copy_file_with_retries], [perform_sync], [sync_loop])
    over an explicit model of the POSIX file system, and the properties of
    the engine that the specification states.

    Conventions.
    - Paths are Python [str] values and are kept as strings: the engine
      computes with them as strings ([str.replace], [os.path.join], set
      membership), so the model does too.  Only the file-system primitives
      resolve a string to a list of components.
    - The file system is one tree; source and replica are two places in it.
    - Every effect of the program (system calls, log records, console
      output, sleeps) is an event; a computation returns the events it
      produced, in the order they happened.
    - A primitive fails when the state of the file system makes it fail, or
      when the environment schedules a fault for it ([faults]). *)

From Stdlib Require Import ZArith Lia Bool Ascii String List.
From stdpp Require Import base decidable option list strings gmap.
Import ListNotations.
Local Open Scope Z_scope.
Local Open Scope nat_scope.
#[local] Set Warnings "-clear-no-such-hyp".

(* ===================================================================== *)
(** * Path strings                                                        *)
(* ===================================================================== *)

Module Path.

Definition sep : ascii := "/"%char.

(** [s.startswith(p)] *)
Fixpoint startswith (p s : string) : bool :=
  match p, s with
  | EmptyString, _ => true
  | String a p', String b s' => if Ascii.eqb a b then startswith p' s' else false
  | String _ _, EmptyString => false
  end.

(** [s.endswith("/")] *)
Fixpoint ends_with_sep (s : string) : bool :=
  match s with
  | EmptyString => false
  | String c EmptyString => Ascii.eqb c sep
  | String _ s' => ends_with_sep s'
  end.

(** [s[n:]] *)
Fixpoint skip (n : nat) (s : string) : string :=
  match n, s with
  | O, _ => s
  | S n', String _ s' => skip n' s'
  | S _, EmptyString => EmptyString
  end.

(** [s.replace(old, new, 1)]: the leftmost occurrence of [old] in [s] is
    replaced by [new]; [s] is returned unchanged when there is none. *)
Fixpoint replace_first (old new s : string) : string :=
  if startswith old s then new +:+ skip (String.length old) s
  else match s with
       | EmptyString => EmptyString
       | String c s' => String c (replace_first old new s')
       end.

(** [os.path.join(a, b)] of [posixpath], for two arguments. *)
Definition join (a b : string) : string :=
  if startswith "/" b then b
  else match a with
       | EmptyString => b
       | _ => if ends_with_sep a then a +:+ b else a +:+ "/" +:+ b
       end.

(** Splitting at the separators: ["a//b/"] gives [["a"; ""; "b"; ""]]. *)
Fixpoint split (s : string) : list string :=
  match s with
  | EmptyString => [EmptyString]
  | String c s' =>
      if Ascii.eqb c sep then EmptyString :: split s'
      else match split s' with
           | [] => [String c EmptyString]
           | w :: ws => String c w :: ws
           end
  end.

Definition significant (c : string) : bool :=
  negb (String.eqb c "" || String.eqb c ".").

(** The components the kernel walks through when it resolves a path: empty
    components (doubled or trailing separators) and ["."] are skipped.
    Every path is resolved from the root of the modelled tree. [".."] is
    not interpreted: it is kept as a component like any other, so the
    model speaks for paths without it only, and the theorems about roots
    that could hold one ask for [plain] roots. *)
Definition components (s : string) : list string :=
  filter (fun c => significant c = true) (split s).

(** A name that a component of a path can be: not empty, not ["."],
    without a separator. The names that [os.scandir] can return are among
    them; [real_name] leaves out the others. *)
Fixpoint no_sep (s : string) : bool :=
  match s with
  | EmptyString => true
  | String c s' => negb (Ascii.eqb c sep) && no_sep s'
  end.

Definition valid_name (n : string) : bool := significant n && no_sep n.

End Path.

(* ===================================================================== *)
(** * [hashlib.md5]                                                       *)
(* ===================================================================== *)

(** The digest of RFC 1321 on byte strings, with 32-bit words as [Z] and the
    wrap-around written out.  The engine only compares digests; the
    definition is concrete so that the model runs. *)
Module MD5.
Local Open Scope Z_scope.

Definition wrap (x : Z) : Z := x mod 2 ^ 32.
Definition rotl (x : Z) (c : Z) : Z :=
  Z.lor (wrap (Z.shiftl x c)) (Z.shiftr x (32 - c)).
Definition lnot32 (x : Z) : Z := Z.lxor x 0xffffffff.

Definition shifts : list Z :=
  [7; 12; 17; 22; 7; 12; 17; 22; 7; 12; 17; 22; 7; 12; 17; 22;
   5; 9; 14; 20; 5; 9; 14; 20; 5; 9; 14; 20; 5; 9; 14; 20;
   4; 11; 16; 23; 4; 11; 16; 23; 4; 11; 16; 23; 4; 11; 16; 23;
   6; 10; 15; 21; 6; 10; 15; 21; 6; 10; 15; 21; 6; 10; 15; 21].

Definition sines : list Z :=
  [0xd76aa478; 0xe8c7b756; 0x242070db; 0xc1bdceee;
   0xf57c0faf; 0x4787c62a; 0xa8304613; 0xfd469501;
   0x698098d8; 0x8b44f7af; 0xffff5bb1; 0x895cd7be;
   0x6b901122; 0xfd987193; 0xa679438e; 0x49b40821;
   0xf61e2562; 0xc040b340; 0x265e5a51; 0xe9b6c7aa;
   0xd62f105d; 0x02441453; 0xd8a1e681; 0xe7d3fbc8;
   0x21e1cde6; 0xc33707d6; 0xf4d50d87; 0x455a14ed;
   0xa9e3e905; 0xfcefa3f8; 0x676f02d9; 0x8d2a4c8a;
   0xfffa3942; 0x8771f681; 0x6d9d6122; 0xfde5380c;
   0xa4beea44; 0x4bdecfa9; 0xf6bb4b60; 0xbebfbc70;
   0x289b7ec6; 0xeaa127fa; 0xd4ef3085; 0x04881d05;
   0xd9d4d039; 0xe6db99e5; 0x1fa27cf8; 0xc4ac5665;
   0xf4292244; 0x432aff97; 0xab9423a7; 0xfc93a039;
   0x655b59c3; 0x8f0ccc92; 0xffeff47d; 0x85845dd1;
   0x6fa87e4f; 0xfe2ce6e0; 0xa3014314; 0x4e0811a1;
   0xf7537e82; 0xbd3af235; 0x2ad7d2bb; 0xeb86d391].

Definition bytes_of (s : string) : list Z :=
  map (fun c => Z.of_nat (nat_of_ascii c)) (list_ascii_of_string s).

(** [n] bytes of [x], least significant first. *)
Fixpoint le_bytes (n : nat) (x : Z) : list Z :=
  match n with
  | O => []
  | S n' => x mod 256 :: le_bytes n' (x / 256)
  end.

Definition pad (msg : list Z) : list Z :=
  let len := Z.of_nat (length msg) in
  let zeros := Z.to_nat ((55 - len) mod 64) in
  msg ++ [0x80] ++ repeat 0 zeros ++ le_bytes 8 ((8 * len) mod 2 ^ 64).

Fixpoint words (n : nat) (bs : list Z) : list Z :=
  match n with
  | O => []
  | S n' =>
      match bs with
      | b0 :: b1 :: b2 :: b3 :: rest =>
          (b0 + 256 * b1 + 65536 * b2 + 16777216 * b3) :: words n' rest
      | _ => []
      end
  end.

Definition round (m : list Z) (st : Z * Z * Z * Z) (i : nat) : Z * Z * Z * Z :=
  let '(a, b, c, d) := st in
  let f :=
    if (i <? 16)%nat then Z.lor (Z.land b c) (Z.land (lnot32 b) d)
    else if (i <? 32)%nat then Z.lor (Z.land d b) (Z.land (lnot32 d) c)
    else if (i <? 48)%nat then Z.lxor b (Z.lxor c d)
    else Z.lxor c (Z.lor b (lnot32 d)) in
  let g :=
    if (i <? 16)%nat then i
    else if (i <? 32)%nat then ((5 * i + 1) mod 16)%nat
    else if (i <? 48)%nat then ((3 * i + 5) mod 16)%nat
    else ((7 * i) mod 16)%nat in
  let x := wrap (f + a + nth i sines 0 + nth g m 0) in
  (d, wrap (b + rotl x (nth i shifts 0)), b, c).

Definition block (st : Z * Z * Z * Z) (m : list Z) : Z * Z * Z * Z :=
  let '(a0, b0, c0, d0) := st in
  let '(a, b, c, d) := fold_left (round m) (seq 0 64) st in
  (wrap (a0 + a), wrap (b0 + b), wrap (c0 + c), wrap (d0 + d)).

Fixpoint blocks (n : nat) (bs : list Z) (st : Z * Z * Z * Z) : Z * Z * Z * Z :=
  match n with
  | O => st
  | S n' => blocks n' (skipn 64 bs) (block st (words 16 bs))
  end.

Definition hex_digit (x : Z) : ascii :=
  nth (Z.to_nat x) (list_ascii_of_string "0123456789abcdef") "0"%char.

Definition hex_byte (x : Z) : list ascii := [hex_digit (x / 16); hex_digit (x mod 16)].

(** [hashlib.md5(data).hexdigest()] *)
Definition hexdigest (data : string) : string :=
  let bs := pad (bytes_of data) in
  let '(a, b, c, d) :=
    blocks (length bs / 64) bs (0x67452301, 0xefcdab89, 0x98badcfe, 0x10325476) in
  string_of_list_ascii
    (concat (map hex_byte (le_bytes 4 a ++ le_bytes 4 b ++ le_bytes 4 c ++ le_bytes 4 d))).

End MD5.

(* ===================================================================== *)
(** * The file system                                                     *)
(* ===================================================================== *)

(** [errno] values of the [OSError]s that the modelled primitives raise. *)
Inductive errno :=
| ENOENT | ENOTDIR | EISDIR | EEXIST | ENOTEMPTY | EBUSY | ESAMEFILE | EACCES | EIO.

(** A regular file has its bytes and a modification time; a directory has
    its entries in the order [os.scandir] lists them. There are no links. *)
#[local] Unset Elimination Schemes.
Inductive node :=
| File (data : string) (mtime : Z)
| Dir (entries : list (string * node)).
#[local] Set Elimination Schemes.

Module FS.

Definition is_dir (n : node) : bool :=
  match n with Dir _ => true | File _ _ => false end.

Fixpoint assoc (name : string) (es : list (string * node)) : option node :=
  match es with
  | [] => None
  | (k, v) :: es' => if String.eqb name k then Some v else assoc name es'
  end.

(** The entry [name] replaced in place, added at the end, or removed. *)
Fixpoint set_entry (name : string) (v : option node) (es : list (string * node))
  : list (string * node) :=
  match es with
  | [] => match v with Some n => [(name, n)] | None => [] end
  | (k, old) :: es' =>
      if String.eqb name k
      then match v with Some n => (k, n) :: es' | None => es' end
      else (k, old) :: set_entry name v es'
  end.

Fixpoint lookup (p : list string) (n : node) : option node :=
  match p with
  | [] => Some n
  | c :: p' =>
      match n with
      | Dir es => match assoc c es with Some m => lookup p' m | None => None end
      | File _ _ => None
      end
  end.

(** The entry at [p] set to [v] or removed; [None] when the parent of [p]
    is not an existing directory, or [p] is the root. *)
Fixpoint put (p : list string) (v : option node) (n : node) : option node :=
  match p, n with
  | [c], Dir es => Some (Dir (set_entry c v es))
  | c :: p', Dir es =>
      match assoc c es with
      | Some m =>
          match put p' v m with
          | Some m' => Some (Dir (set_entry c (Some m') es))
          | None => None
          end
      | None => None
      end
  | _, _ => None
  end.

(** What [os.stat] finds at a path string: a path with a trailing
    separator names a directory only, and the empty path names nothing.
    The path is resolved by its components, so a ["."] after the name of a
    regular file is skipped like any other, where the kernel answers
    [ENOTDIR]; a [plain] path has no such component. *)
Definition stat (path : string) (fs : node) : option node :=
  match path with
  | EmptyString => None
  | _ =>
      match lookup (Path.components path) fs with
      | Some (File d t) => if Path.ends_with_sep path then None else Some (File d t)
      | r => r
      end
  end.

(** [os.path.exists] *)
Definition exists_ (path : string) (fs : node) : bool :=
  match stat path fs with Some _ => true | None => false end.

(** [os.scandir], as [os.walk] uses it: the names of the sub-directories
    and the names of the other entries; [None] when listing fails. *)
Definition scandir (path : string) (fs : node) : option (list string * list string) :=
  match stat path fs with
  | Some (Dir es) =>
      Some (map fst (filter (fun e => is_dir (snd e) = true) es),
            map fst (filter (fun e => is_dir (snd e) = false) es))
  | _ => None
  end.

(** Why the parent of [p] does not take an entry. *)
Definition parent_error (p : list string) (fs : node) : errno :=
  match lookup (removelast p) fs with
  | Some (File _ _) => ENOTDIR
  | _ => match p with [] => EBUSY | _ => ENOENT end
  end.

Definition put_or_error (p : list string) (v : option node) (fs : node) : errno + node :=
  match put p v fs with
  | Some fs' => inr fs'
  | None => inl (parent_error p fs)
  end.

(** [os.mkdir] *)
Definition mkdir (p : list string) (fs : node) : errno + node :=
  match lookup p fs with
  | Some _ => inl EEXIST
  | None => put_or_error p (Some (Dir [])) fs
  end.

(** [os.makedirs(name)] with [exist_ok=False], on the components of [name]
    in reverse: the missing ancestors are made first (a [FileExistsError]
    from that recursive call is passed over), then [mkdir(name)]. *)
Fixpoint makedirs_rev (rp : list string) (fs : node) : errno + node :=
  match rp with
  | [] => mkdir [] fs
  | c :: rhead =>
      let made :=
        match rhead, lookup (rev rhead) fs with
        | _ :: _, None =>
            match makedirs_rev rhead fs with
            | inl EEXIST => inr fs
            | r => r
            end
        | _, _ => inr fs
        end in
      match made with
      | inl e => inl e
      | inr fs1 => mkdir (rev (c :: rhead)) fs1
      end
  end.

Definition makedirs (path : string) (fs : node) : errno + node :=
  makedirs_rev (rev (Path.components path)) fs.

(** Where [shutil.copy2(src, dst)] writes: into [dst] under the base name
    of [src] when [dst] is a directory, else at [dst] itself. *)
Definition copy_target (src dst : string) (fs : node) : errno + list string :=
  match stat dst fs with
  | Some (Dir _) => inr (Path.components dst ++ [List.last (Path.components src) ""%string])
  | _ => if Path.ends_with_sep dst then inl ENOTDIR else inr (Path.components dst)
  end.

(** [shutil.copy2(src, dst)]: the bytes and the modification time of the
    regular file [src] are written at the target, over a regular file
    that is there already. *)
Definition copy2 (src dst : string) (fs : node) : errno + node :=
  match stat src fs with
  | Some (File data mtime) =>
      match copy_target src dst fs with
      | inl e => inl e
      | inr target =>
          if decide (target = Path.components src) then inl ESAMEFILE
          else match lookup target fs with
               | Some (Dir _) => inl EISDIR
               | _ => put_or_error target (Some (File data mtime)) fs
               end
      end
  | Some (Dir _) => inl EISDIR
  | None => inl ENOENT
  end.

(** [os.remove] *)
Definition remove (path : string) (fs : node) : errno + node :=
  match stat path fs with
  | Some (File _ _) => put_or_error (Path.components path) None fs
  | Some (Dir _) => inl EISDIR
  | None => inl ENOENT
  end.

(** [os.rmdir] *)
Definition rmdir (path : string) (fs : node) : errno + node :=
  match stat path fs with
  | Some (Dir []) => put_or_error (Path.components path) None fs
  | Some (Dir (_ :: _)) => inl ENOTEMPTY
  | Some (File _ _) => inl ENOTDIR
  | None => inl ENOENT
  end.

(** [open(path, "rb")] followed by reading: the bytes of a regular file. *)
Definition read_bytes (path : string) (fs : node) : errno + string :=
  match stat path fs with
  | Some (File data _) => inr data
  | Some (Dir _) => inl EISDIR
  | None => inl ENOENT
  end.

End FS.

(* ===================================================================== *)
(** * Effects: the world, exceptions, events                              *)
(* ===================================================================== *)

(** The exceptions the program meets: [IOError] is [OSError] in Python 3;
    [KeyboardInterrupt] is not an [OSError]. *)
Inductive exn :=
| OSError (e : errno)
| KeyboardInterrupt.

Inductive syscall :=
| Copy2 (src dst : string)
| Makedirs (path : string)
| Remove (path : string)
| Rmdir (path : string)
| Open (path : string).

Inductive level := INFO | WARNING | ERROR.

(** The records the program logs, with the values its f-strings print. *)
Inductive message :=
| Md5Unreadable (file_path : string) (e : errno)
| AttemptFailed (attempt : nat) (src dst : string) (e : errno)
| CopyFailed (src dst : string) (max_retries : nat)
| DirectoryCreated (dst_dir : string)
| FileCreated (dst_file : string)
| FileUpdated (dst_file : string)
| FileDeleted (dst_file : string)
| DeleteFailed (dst_file : string) (e : errno)
| DirectoryDeleted (dst_dir : string).

(** What [sync_loop] prints. *)
Inductive console :=
| Syncing | CompletedWithChanges | NoUpdates | ExitedByUser | Stopped.

(** [Sys c failure]: the call [c] was made and raised [failure], or
    succeeded. *)
Inductive event :=
| Sys (c : syscall) (failure : option exn)
| Log (lv : level) (m : message)
| Print (c : console)
| Sleep (seconds : nat)
| Wait (seconds : nat).

(** [faults] is what the environment has scheduled for the next fallible
    calls, one entry per call: [Some e] makes the call raise [e] whatever
    the file system holds (permissions, a full disk, an interrupt), [None]
    lets it run; past the end of the list nothing is scheduled. *)
Record world := World {
  fs : node;
  faults : list (option exn)
}.

Inductive outcome (A : Type) :=
| Ok (a : A)
| Raised (e : exn)
| OutOfFuel.
Arguments Ok {A} a.
Arguments Raised {A} e.
Arguments OutOfFuel {A}.

(** A computation: from a world to an outcome, the world it leaves and the
    events it produced. *)
Definition M (A : Type) : Type := world -> outcome A * world * list event.

Definition ret {A} (a : A) : M A := fun w => (Ok a, w, []).

Definition bind {A B} (m : M A) (k : A -> M B) : M B :=
  fun w =>
    match m w with
    | (Ok a, w1, t1) => let '(r, w2, t2) := k a w1 in (r, w2, t1 ++ t2)
    | (Raised e, w1, t1) => (Raised e, w1, t1)
    | (OutOfFuel, w1, t1) => (OutOfFuel, w1, t1)
    end.

Declare Scope sync_scope.
Delimit Scope sync_scope with sync.
Notation "x <- m ;; k" := (bind m (fun x => k))
  (at level 100, m at next level, right associativity) : sync_scope.
Notation "m ;; k" := (bind m (fun _ => k))
  (at level 100, right associativity) : sync_scope.
Local Open Scope sync_scope.

Definition emit (e : event) : M unit := fun w => (Ok tt, w, [e]).

Definition log (lv : level) (m : message) : M unit := emit (Log lv m).
Definition print (c : console) : M unit := emit (Print c).
Definition sleep (seconds : nat) : M unit := emit (Sleep seconds).

Definition out_of_fuel {A} : M A := fun w => (OutOfFuel, w, []).

(** A fallible call [c] whose effect on the file system is [step]: it takes
    the next scheduled fault, if any. A call that fails has no effect on
    the modelled file system. For [shutil.copy2], which can fail after it
    has created, truncated or rewritten the destination, this is an
    idealisation: the numbered theorems state of a copy that failed its
    trace and its result, not the file system it leaves. *)
Definition sys {A} (c : syscall) (step : node -> errno + (A * node)) : M A :=
  fun w =>
    let failed e := (Raised e, {| fs := fs w; faults := tail (faults w) |}, [Sys c (Some e)]) in
    match head (faults w) with
    | Some (Some e) => failed e
    | _ =>
        match step (fs w) with
        | inl e => failed (OSError e)
        | inr (a, fs') => (Ok a, {| fs := fs'; faults := tail (faults w) |}, [Sys c None])
        end
    end.

Definition mutate (f : node -> errno + node) (fs : node) : errno + (unit * node) :=
  match f fs with inl e => inl e | inr fs' => inr (tt, fs') end.

Definition shutil_copy2 (src dst : string) : M unit := sys (Copy2 src dst) (mutate (FS.copy2 src dst)).
Definition os_makedirs (path : string) : M unit := sys (Makedirs path) (mutate (FS.makedirs path)).
Definition os_remove (path : string) : M unit := sys (Remove path) (mutate (FS.remove path)).
Definition os_rmdir (path : string) : M unit := sys (Rmdir path) (mutate (FS.rmdir path)).

(** [open(path, "rb")] and the reads that follow. The [ValueError] that
    [open] raises for a path with a null byte is not modelled: the theorems
    about [calculate_md5] and the copier on arbitrary path strings ask for
    paths without one. *)
Definition open_read (path : string) : M string :=
  sys (Open path)
      (fun fs => match FS.read_bytes path fs with inl e => inl e | inr d => inr (d, fs) end).

(** [os.path.exists] and the listing of [os.walk] never raise. *)
Definition os_path_exists (path : string) : M bool :=
  fun w => (Ok (FS.exists_ path (fs w)), w, []).
Definition os_scandir (path : string) : M (option (list string * list string)) :=
  fun w => (Ok (FS.scandir path (fs w)), w, []).

(** [try: body  except IOError as e: handler(e)] *)
Definition try_except_IOError {A} (body : M A) (handler : errno -> M A) : M A :=
  fun w =>
    match body w with
    | (Raised (OSError e), w1, t1) => let '(r, w2, t2) := handler e w1 in (r, w2, t1 ++ t2)
    | r => r
    end.

(** [for x in xs: acc = body(x, acc)] *)
Fixpoint for_each {A B} (body : A -> B -> M B) (xs : list A) (acc : B) : M B :=
  match xs with
  | [] => ret acc
  | x :: xs' => acc' <- body x acc ;; for_each body xs' acc'
  end.

(* ===================================================================== *)
(** * The program                                                         *)
(* ===================================================================== *)

(** ** [calculate_md5] *)

(** [s[:n]] *)
Fixpoint take_bytes (n : nat) (s : string) : string :=
  match n, s with
  | S n', String c s' => String c (take_bytes n' s')
  | _, _ => EmptyString
  end.

(** The chunks that [iter(lambda: f.read(4096), b"")] yields from a file
    holding [rest]: reads of at most [size] bytes, up to the first empty one.
    Each chunk takes at least one byte, so [String.length rest] rounds are
    enough. *)
Fixpoint read_chunks (rounds size : nat) (rest : string) : list string :=
  match rounds with
  | O => []
  | S r =>
      match take_bytes size rest with
      | EmptyString => []
      | chunk => chunk :: read_chunks r size (Path.skip size rest)
      end
  end.

(** The state of a [hashlib.md5()] object is the bytes it was fed. *)
Definition md5_new : string := "".
Definition md5_update (h chunk : string) : string := h +:+ chunk.
Definition md5_hexdigest (h : string) : string := MD5.hexdigest h.

Definition calculate_md5 (file_path : string) : M (option string) :=
  try_except_IOError
    (data <- open_read file_path ;;
     let hash_md5 := fold_left md5_update (read_chunks (String.length data) 4096 data) md5_new in
     ret (Some (md5_hexdigest hash_md5)))
    (fun e => log ERROR (Md5Unreadable file_path e) ;; ret None).

(** ** [copy_file_with_retries] *)

(** The [for attempt in range(1, max_retries + 1)] loop: [Some true] is the
    [return True] of the [try] block, [None] the end of an iteration. *)
Fixpoint copy_attempts (src dst : string) (delay : nat) (attempts : list nat) : M bool :=
  match attempts with
  | [] => ret false
  | attempt :: rest =>
      r <- try_except_IOError
             (shutil_copy2 src dst ;; ret (Some true))
             (fun e => log WARNING (AttemptFailed attempt src dst e) ;;
                       sleep delay ;;
                       ret None) ;;
      match r with
      | Some b => ret b
      | None => copy_attempts src dst delay rest
      end
  end.

Definition copy_file_with_retries (src dst : string) (max_retries delay : nat) : M bool :=
  copied <- copy_attempts src dst delay (seq 1 max_retries) ;;
  if copied then ret true
  else log ERROR (CopyFailed src dst max_retries) ;; ret false.

(** ** [perform_sync] *)

(** The local variables of [perform_sync]. *)
Record locals := Locals {
  changes : bool;
  source_files : gset string;
  replica_files : gset string
}.

Definition set_changes (l : locals) : locals :=
  {| changes := true; source_files := source_files l; replica_files := replica_files l |}.

Definition add_files (src_file dst_file : string) (l : locals) : locals :=
  {| changes := changes l;
     source_files := {[src_file]} ∪ source_files l;
     replica_files := {[dst_file]} ∪ replica_files l |}.

(** [os.walk(top, topdown)] driving a [for] loop whose body is [body]: the
    body runs where the generator yields. A directory is listed when the
    walk reaches it; a directory that cannot be listed yields nothing.
    [fuel] bounds the depth of the recursion of [os.walk]. *)
Fixpoint os_walk {A} (fuel : nat) (topdown : bool)
    (body : string * list string * list string -> A -> M A) (top : string) (acc : A) : M A :=
  match fuel with
  | O => out_of_fuel
  | S fuel' =>
      listing <- os_scandir top ;;
      match listing with
      | None => ret acc
      | Some (dirs, nondirs) =>
          if topdown then
            acc1 <- body (top, dirs, nondirs) acc ;;
            for_each (fun dirname a => os_walk fuel' topdown body (Path.join top dirname) a)
                     dirs acc1
          else
            acc1 <- for_each (fun dirname a => os_walk fuel' topdown body (Path.join top dirname) a)
                             dirs acc ;;
            body (top, dirs, nondirs) acc1
      end
  end.

(** Lines 115-128: one file of a source directory. *)
Definition sync_file (src_dir dst_dir file_ : string) (l : locals) : M locals :=
  let src_file := Path.join src_dir file_ in
  let dst_file := Path.join dst_dir file_ in
  let l := add_files src_file dst_file l in
  present <- os_path_exists dst_file ;;
  if negb present then
    copied <- copy_file_with_retries src_file dst_file 3 2 ;;
    if copied then log INFO (FileCreated dst_file) ;; ret (set_changes l)
    else ret l
  else
    src_md5 <- calculate_md5 src_file ;;
    dst_md5 <- calculate_md5 dst_file ;;
    if decide (src_md5 = dst_md5) then ret l
    else
      copied <- copy_file_with_retries src_file dst_file 3 2 ;;
      if copied then log INFO (FileUpdated dst_file) ;; ret (set_changes l)
      else ret l.

(** Lines 109-128: the body of the loop over [os.walk(source)]. *)
Definition sync_source_dir (source replica : string)
    (entry : string * list string * list string) (l : locals) : M locals :=
  let '(src_dir, _, files) := entry in
  let dst_dir := Path.replace_first source replica src_dir in
  present <- os_path_exists dst_dir ;;
  (if negb present then os_makedirs dst_dir ;; log INFO (DirectoryCreated dst_dir)
   else ret tt) ;;
  for_each (sync_file src_dir dst_dir) files l.

(** Lines 134-142: one file of a replica directory. *)
Definition delete_extra_file (src_dir dst_dir file_ : string) (l : locals) : M locals :=
  let dst_file := Path.join dst_dir file_ in
  let src_file := Path.join src_dir file_ in
  if decide (src_file ∈ source_files l) then ret l
  else
    try_except_IOError
      (os_remove dst_file ;; log INFO (FileDeleted dst_file) ;; ret (set_changes l))
      (fun e => log ERROR (DeleteFailed dst_file e) ;; ret l).

(** Lines 132-147: the body of the loop over [os.walk(replica, topdown=False)]. *)
Definition clean_replica_dir (source replica : string)
    (entry : string * list string * list string) (l : locals) : M locals :=
  let '(dst_dir, _, files) := entry in
  let src_dir := Path.replace_first replica source dst_dir in
  l <- for_each (delete_extra_file src_dir dst_dir) files l ;;
  present <- os_path_exists src_dir ;;
  if negb present then
    os_rmdir dst_dir ;; log INFO (DirectoryDeleted dst_dir) ;; ret (set_changes l)
  else ret l.

(** [perform_sync(source, replica, logger)]; the [logger] and the root
    logger of [logging] write to the one trace. *)
Definition perform_sync (fuel : nat) (source replica : string) : M bool :=
  let l := {| changes := false; source_files := ∅; replica_files := ∅ |} in
  l <- os_walk fuel true (sync_source_dir source replica) source l ;;
  l <- os_walk fuel false (clean_replica_dir source replica) replica l ;;
  ret (changes l).

(** ** [sync_loop] *)

(** [try: body  except KeyboardInterrupt: handler] *)
Definition try_except_KeyboardInterrupt {A} (body : M A) (handler : M A) : M A :=
  fun w =>
    match body w with
    | (Raised KeyboardInterrupt, w1, t1) => let '(r, w2, t2) := handler w1 in (r, w2, t1 ++ t2)
    | r => r
    end.

(** [try: body  finally: cleanup] *)
Definition try_finally {A} (body : M A) (cleanup : M unit) : M A :=
  fun w =>
    let '(r, w1, t1) := body w in
    match cleanup w1 with
    | (Ok _, w2, t2) => (r, w2, t1 ++ t2)
    | (Raised e, w2, t2) => (Raised e, w2, t1 ++ t2)
    | (OutOfFuel, w2, t2) => (OutOfFuel, w2, t1 ++ t2)
    end.

(** The [while not stop_event.is_set()] loop; [ticks] is the number of
    times the loop finds the event unset, that is how many passes the
    controller lets it start. [stop_event.wait(interval)] returns at the
    timeout or when the event is set. *)
Fixpoint sync_passes (ticks fuel : nat) (source replica : string) (interval : nat) : M unit :=
  match ticks with
  | O => ret tt
  | S ticks' =>
      print Syncing ;;
      changed <- perform_sync fuel source replica ;;
      print (if changed then CompletedWithChanges else NoUpdates) ;;
      emit (Wait interval) ;;
      sync_passes ticks' fuel source replica interval
  end.

Definition sync_loop (ticks fuel : nat) (source replica : string) (interval : nat) : M unit :=
  try_finally
    (try_except_KeyboardInterrupt
       (sync_passes ticks fuel source replica interval)
       (print ExitedByUser))
    (print Stopped).

(* ===================================================================== *)
(** * Reading a run                                                       *)
(* ===================================================================== *)

#[global] Instance errno_eq_dec : EqDecision errno.
Proof. solve_decision. Defined.
#[global] Instance exn_eq_dec : EqDecision exn.
Proof. solve_decision. Defined.
#[global] Instance level_eq_dec : EqDecision level.
Proof. solve_decision. Defined.
#[global] Instance syscall_eq_dec : EqDecision syscall.
Proof. solve_decision. Defined.
#[global] Instance message_eq_dec : EqDecision message.
Proof. solve_decision. Defined.
#[global] Instance console_eq_dec : EqDecision console.
Proof. solve_decision. Defined.
#[global] Instance event_eq_dec : EqDecision event.
Proof. solve_decision. Defined.

(** How many events of a run satisfy [f]. *)
Fixpoint count (f : event -> bool) (t : list event) : nat :=
  match t with
  | [] => 0
  | e :: t' => (if f e then 1 else 0) + count f t'
  end.

Definition is_log (lv : level) (e : event) : bool :=
  match e with Log lv' _ => bool_decide (lv' = lv) | _ => false end.

(** An attempt of [shutil.copy2], whatever came of it. *)
Definition is_copy_call (e : event) : bool :=
  match e with Sys (Copy2 _ _) _ => true | _ => false end.

Definition is_remove_call (e : event) : bool :=
  match e with Sys (Remove _) _ => true | _ => false end.

(** A call that failed. *)
Definition is_failure (e : event) : bool :=
  match e with Sys _ (Some _) => true | _ => false end.

(** The records for which [perform_sync] sets [changes = True]. *)
Definition is_change (e : event) : bool :=
  match e with
  | Log INFO (FileCreated _) | Log INFO (FileUpdated _)
  | Log INFO (FileDeleted _) | Log INFO (DirectoryDeleted _) => true
  | _ => false
  end.

(** The record of a copy given up after the retries. *)
Definition is_copy_failed (e : event) : bool :=
  match e with Log ERROR (CopyFailed _ _ _) => true | _ => false end.

Definition starts_pass (e : event) : bool :=
  match e with Print Syncing => true | _ => false end.

(** What the environment has scheduled for the next fallible call. *)
Definition next_fault (fl : list (option exn)) : option exn :=
  match fl with Some e :: _ => Some e | _ => None end.

(** An attempt [shutil.copy2(src, dst)] on [fs] under the scheduled fault
    [f] fails with an [IOError]. *)
Definition attempt_fails (src dst : string) (fs : node) (f : option exn) : bool :=
  match f with
  | Some (OSError _) => true
  | Some KeyboardInterrupt => false
  | None => match FS.copy2 src dst fs with inl _ => true | inr _ => false end
  end.

(** Each of the next [n] attempts to copy [src] to [dst] fails: a failed
    attempt leaves the file system as it was and uses up one fault. *)
Fixpoint attempts_fail (src dst : string) (fs : node) (fl : list (option exn)) (n : nat) : bool :=
  match n with
  | O => true
  | S n' => attempt_fails src dst fs (next_fault fl) && attempts_fail src dst fs (tail fl) n'
  end.

Definition every_attempt_fails (src dst : string) (w : world) (n : nat) : bool :=
  attempts_fail src dst (fs w) (faults w) n.

(** Some event of the run is a change. *)
Definition has_change (t : list event) : bool := existsb is_change t.

(** The step after the decision to copy, the same in both branches of
    lines 121-128 of [perform_sync]. *)
Definition copy_and_report (src_file dst_file : string) (m : message) (l : locals) : M locals :=
  copied <- copy_file_with_retries src_file dst_file 3 2 ;;
  if copied then log INFO m ;; ret (set_changes l) else ret l.

(** [establishes R m]: every run of [m] is in the relation [R], where
    [R a w r w' t] reads: started with the accumulator [a] in the world [w],
    the run ended with [r] in [w'] after the events [t]. *)
Definition establishes {A} (R : A -> world -> outcome A -> world -> list event -> Prop)
    (m : A -> M A) : Prop :=
  forall a w, let '(r, w', t) := m a w in R a w r w' t.

(** The flag [changes] is set exactly by the changes that are logged. *)
Definition tracks_changes (l : locals) (w : world) (r : outcome locals) (w' : world)
    (t : list event) : Prop :=
  match r with
  | Ok l' => changes l' = changes l || has_change t
  | _ => True
  end.


(* ===================================================================== *)
(** * What the specification speaks of                                    *)
(* ===================================================================== *)

(** What a tree shows at a place: nothing, a directory, or a regular file
    with its content digest. *)
Definition signature (o : option node) : option (option string) :=
  match o with
  | None => None
  | Some (Dir _) => Some None
  | Some (File data _) => Some (Some (MD5.hexdigest data))
  end.

(** The node at the relative path [rel] under the directory named [root]. *)
Definition relative (root : string) (fs : node) (rel : list string) : option node :=
  match FS.stat root fs with
  | Some n => FS.lookup rel n
  | None => None
  end.

(** The replica tree of [fs'] and the source tree of [fs] have the same
    relative paths, of the same kinds, and the same digest at every file. *)
Definition converged (source replica : string) (fs fs' : node) : Prop :=
  forall rel, signature (relative replica fs' rel) = signature (relative source fs rel).

(** The place a call writes to or removes. *)
Definition target (e : event) : option string :=
  match e with
  | Sys (Copy2 _ dst) _ => Some dst
  | Sys (Makedirs path) _ | Sys (Remove path) _ | Sys (Rmdir path) _ => Some path
  | _ => None
  end.

Fixpoint is_prefix (p q : list string) : bool :=
  match p, q with
  | [], _ => true
  | a :: p', b :: q' => String.eqb a b && is_prefix p' q'
  | _ :: _, [] => false
  end.

(** [path] is [root] or a place below it. *)
Definition under (root path : string) : bool :=
  is_prefix (Path.components root) (Path.components path).

(** Every call of the run that changes the file system has its target under
    [root]. *)
Definition stays_under (root : string) (t : list event) : bool :=
  forallb (fun e => match target e with Some p => under root p | None => true end) t.


(** The result of [perform_sync] carries the number of errors of the run:
    that number can be read off the returned value. *)
Definition result_carries_error_count : Prop :=
  exists errors_of : bool -> nat,
    forall fuel source replica w,
      let '(r, _, t) := perform_sync fuel source replica w in
      match r with
      | Ok b => errors_of b = count (is_log ERROR) t
      | _ => True
      end.

(** The scheduler as the specification words it: whatever is raised inside
    a pass, the loop logs an error for it, goes on to the next tick and
    ends normally, when the controller stops it. *)
Definition loop_survives_pass_faults (ticks fuel : nat) (source replica : string)
    (interval : nat) (w : world) : Prop :=
  let '(r, _, t) := sync_loop ticks fuel source replica interval w in
  r = Ok tt
  /\ count starts_pass t = ticks
  /\ (0 < count is_failure t -> 0 < count (is_log ERROR) t).

(** What [sync_loop] does with an exception that leaves a pass. *)
Definition propagated (e : exn) : outcome unit :=
  match e with
  | KeyboardInterrupt => Ok tt
  | OSError _ => Raised e
  end.

Definition handler_output (e : exn) : list event :=
  match e with
  | KeyboardInterrupt => [Print ExitedByUser]
  | OSError _ => []
  end.

(** ** Situations *)

Module Scenario.

(** [/a/src] holds [ok.txt] and [d/f.txt]; in [/b/rep] a regular file is in
    the place of the directory [d]. *)
Definition blocked : world :=
  {| fs := Dir [("a", Dir [("src", Dir [("ok.txt", File "fine" 1);
                                        ("d", Dir [("f.txt", File "data" 2)])])]);
                ("b", Dir [("rep", Dir [("d", File "" 0)])])];
     faults := [] |}.

(** [/a/src] holds [d/e/] and [later/n.txt]; [/b/rep] holds a regular file
    named [d] and a file [old.txt] that the source does not have. *)
Definition clash : world :=
  {| fs := Dir [("a", Dir [("src", Dir [("d", Dir [("e", Dir [])]);
                                        ("later", Dir [("n.txt", File "n" 1)])])]);
                ("b", Dir [("rep", Dir [("d", File "" 0); ("old.txt", File "o" 0)])])];
     faults := [] |}.

(** [/a/src] is empty; [/b/rep] holds [junk/g.txt] and [old.txt], and the
    first removal is refused. *)
Definition junk : world :=
  {| fs := Dir [("a", Dir [("src", Dir [])]);
                ("b", Dir [("rep", Dir [("junk", Dir [("g.txt", File "g" 0)]);
                                        ("old.txt", File "o" 0)])])];
     faults := [Some (OSError EACCES)] |}.

(** [f.txt] is in both trees with different bytes, and neither copy can be
    opened. *)
Definition unreadable : world :=
  {| fs := Dir [("a", Dir [("src", Dir [("f.txt", File "new" 2)])]);
                ("b", Dir [("rep", Dir [("f.txt", File "old" 1)])])];
     faults := [Some (OSError EACCES); Some (OSError EACCES)] |}.

(** Both trees are empty. *)
Definition idle : world :=
  {| fs := Dir [("a", Dir [("src", Dir [])]); ("b", Dir [("rep", Dir [])])];
     faults := [] |}.

(** [/a/src] holds [sub/f.txt]; [/b/rep] is empty. *)
Definition fresh : world :=
  {| fs := Dir [("a", Dir [("src", Dir [("sub", Dir [("f.txt", File "x" 1)])])]);
                ("b", Dir [("rep", Dir [])])];
     faults := [] |}.

(** [/a/bc] holds [c/f.txt]; its sibling [/a/b] is empty. *)
Definition siblings : world :=
  {| fs := Dir [("a", Dir [("bc", Dir [("c", Dir [("f.txt", File "x" 1)])]);
                           ("b", Dir [])])];
     faults := [] |}.

End Scenario.

(* ===================================================================== *)
(** * Roots written in normal form                                        *)
(* ===================================================================== *)

(** A root as [os.path.normpath] would leave it, as far as the engine is
    concerned: not empty and without a trailing separator. *)
Definition normal_root (s : string) : bool :=
  negb (String.eqb s "") && negb (Path.ends_with_sep s).

(** The two paths part at some component: neither is the other or a place
    below it. *)
Fixpoint diverge (p q : list string) : bool :=
  match p, q with
  | a :: p', b :: q' => if String.eqb a b then diverge p' q' else true
  | _, _ => false
  end.


(** Every name in the tree is one [os.scandir] can return, and no directory
    has two entries of the same name. *)
Fixpoint well_formed (n : node) : Prop :=
  match n with
  | File _ _ => True
  | Dir es =>
      NoDup (map fst es)
      /\ (fix all (es : list (string * node)) : Prop :=
            match es with
            | [] => True
            | (name, m) :: es' => Path.valid_name name = true /\ well_formed m /\ all es'
            end) es
  end.

Fixpoint height (n : node) : nat :=
  match n with
  | File _ _ => 0
  | Dir es =>
      S ((fix max_height (es : list (string * node)) : nat :=
            match es with
            | [] => 0
            | (_, m) :: es' => Nat.max (height m) (max_height es')
            end) es)
  end.

(** The entries of a directory that are regular files, and the others. *)
Definition file_entries (es : list (string * node)) : list (string * node) :=
  filter (fun e => FS.is_dir (snd e) = false) es.
Definition dir_entries (es : list (string * node)) : list (string * node) :=
  filter (fun e => FS.is_dir (snd e) = true) es.

(** What the forward pass builds in an empty replica for the source tree
    [n]: in every directory the files first, then the sub-directories, each
    in the order of the source listing. *)
Fixpoint mirror (n : node) : node :=
  match n with
  | File data mtime => File data mtime
  | Dir es =>
      Dir (file_entries es
           ++ (fix mirror_dirs (es : list (string * node)) : list (string * node) :=
                 match es with
                 | [] => []
                 | (name, m) :: es' =>
                     match m with
                     | Dir _ => (name, mirror m) :: mirror_dirs es'
                     | File _ _ => mirror_dirs es'
                     end
                 end) es)
  end.

(** The path strings of the regular files of the tree [n] rooted at the
    path string [top], as [perform_sync] records them in [source_files]. *)
Fixpoint files_below (top : string) (n : node) : gset string :=
  match n with
  | File _ _ => ∅
  | Dir es =>
      (fix below (es : list (string * node)) : gset string :=
         match es with
         | [] => ∅
         | (name, m) :: es' =>
             match m with
             | File _ _ => {[Path.join top name]} ∪ below es'
             | Dir _ => files_below (Path.join top name) m ∪ below es'
             end
         end) es
  end.

(** The file system with the node [n] at the path [p]: over what is there,
    or as a new last entry of the parent directory; nothing changes when
    the parent is not an existing directory. *)
Fixpoint place (p : list string) (n : node) (fs : node) : node :=
  match p with
  | [] => n
  | c :: p' =>
      match fs with
      | File _ _ => fs
      | Dir es =>
          match p', FS.assoc c es with
          | [], _ => Dir (FS.set_entry c (Some n) es)
          | _ :: _, Some m => Dir (FS.set_entry c (Some (place p' n m)) es)
          | _ :: _, None => fs
          end
      end
  end.

(** The parent of [p] is an existing directory of [fs]. *)
Definition has_parent (p : list string) (fs : node) : Prop :=
  exists es, FS.lookup (removelast p) fs = Some (Dir es).

(** [top] and [dtop] name the same place below the source root and below
    the replica root: the walk has reached [top], whose components are [ps],
    and the engine maps it to [dtop], whose components are [pr]. *)
Definition paired (source replica : string) (ps pr : list string) (top dtop : string) : Prop :=
  (exists x, top = source +:+ x /\ dtop = replica +:+ x)
  /\ normal_root top = true /\ normal_root dtop = true
  /\ Path.components top = ps /\ Path.components dtop = pr
  /\ diverge ps pr = true
  /\ is_prefix (Path.components replica) pr = true.

Definition mirror_entry (e : string * node) : string * node := (fst e, mirror (snd e)).

(** The forward pass with [fuel] for the walk does its work on every source
    directory [Dir es] of height at most [fuel] that the replica does not
    have, or has empty: it leaves [mirror (Dir es)] in its place [pr], records
    the files in [source_files], and no call fails. *)
Definition forward_spec (source replica : string) (fuel : nat) : Prop :=
  forall es ps pr top dtop fs0 l,
    height (Dir es) <= fuel -> well_formed (Dir es) ->
    paired source replica ps pr top dtop ->
    FS.lookup ps fs0 = Some (Dir es) ->
    has_parent pr fs0 ->
    FS.lookup pr fs0 = None \/ FS.lookup pr fs0 = Some (Dir []) ->
    exists l' t,
      os_walk fuel true (sync_source_dir source replica) top l {| fs := fs0; faults := [] |}
      = (Ok l', {| fs := place pr (mirror (Dir es)) fs0; faults := [] |}, t)
      /\ source_files l' = source_files l ∪ files_below top (Dir es)
      /\ count is_failure t = 0
      /\ stays_under replica t = true.

(** The backward pass with [fuel] for the walk finds nothing to delete in a
    replica directory that is the mirror of the source directory [Dir es],
    once the files of that directory are in [source_files]: the file
    system, the local variables and the log stay as they are. *)
Definition backward_spec (source replica : string) (fuel : nat) : Prop :=
  forall es ps pr top dtop fs0 l,
    height (Dir es) <= fuel -> well_formed (Dir es) ->
    paired source replica ps pr top dtop ->
    FS.lookup ps fs0 = Some (Dir es) ->
    FS.lookup pr fs0 = Some (mirror (Dir es)) ->
    files_below top (Dir es) ⊆ source_files l ->
    os_walk fuel false (clean_replica_dir source replica) dtop l {| fs := fs0; faults := [] |}
    = (Ok l, {| fs := fs0; faults := [] |}, []).

(** The forward pass with [fuel] for the walk, on a replica directory that
    is the mirror of the source directory [Dir es]: every file is read and
    found equal, nothing is written and the flag is not set. *)
Definition forward_again_spec (source replica : string) (fuel : nat) : Prop :=
  forall es ps pr top dtop fs0 l,
    height (Dir es) <= fuel -> well_formed (Dir es) ->
    paired source replica ps pr top dtop ->
    FS.lookup ps fs0 = Some (Dir es) ->
    FS.lookup pr fs0 = Some (mirror (Dir es)) ->
    exists l' t,
      os_walk fuel true (sync_source_dir source replica) top l {| fs := fs0; faults := [] |}
      = (Ok l', {| fs := fs0; faults := [] |}, t)
      /\ source_files l' = source_files l ∪ files_below top (Dir es)
      /\ changes l' = changes l
      /\ Forall (fun e => exists path, e = Sys (Open path) None) t.

(** Every name in the tree is one [os.scandir] can return. *)
Fixpoint names_valid (n : node) : Prop :=
  match n with
  | File _ _ => True
  | Dir es =>
      (fix all (es : list (string * node)) : Prop :=
         match es with
         | [] => True
         | (name, m) :: es' => Path.valid_name name = true /\ names_valid m /\ all es'
         end) es
  end.

(** The frame of a piece of a run from [w] to [w'] with the events [t]:
    started in a file system with valid names, it leaves one, every call
    that changes the file system has its target under the replica root, and
    what is neither the replica root nor below or above it is as it was. *)
Definition framed (replica : string) (w w' : world) (t : list event) : Prop :=
  names_valid (fs w) ->
  names_valid (fs w')
  /\ stays_under replica t = true
  /\ (forall q, diverge (Path.components replica) q = true ->
                FS.lookup q (fs w') = FS.lookup q (fs w)).

Definition frames {A} (replica : string) (m : M A) : Prop :=
  forall w, let '(_, w', t) := m w in framed replica w w' t.

(** [within root fs fs']: the change from [fs] to [fs'] keeps the names
    valid and is confined to [root] and the places below and above it. *)
Definition within (root : list string) (fs fs' : node) : Prop :=
  (names_valid fs -> names_valid fs')
  /\ (forall q, diverge root q = true -> FS.lookup q fs' = FS.lookup q fs).

(* ===================================================================== *)
(** * The prompts: [validate_path] and [get_input]                        *)
(* ===================================================================== *)

(** [str.lower] on the letters [A]-[Z]. The program compares the result
    with ["q"] only, and no other character of Python is lowered to [q]. *)
Definition lower_char (c : ascii) : ascii :=
  let n := nat_of_ascii c in
  if (65 <=? n) && (n <=? 90) then ascii_of_nat (n + 32) else c.

Fixpoint lower (s : string) : string :=
  match s with
  | EmptyString => EmptyString
  | String c s' => String (lower_char c) (lower s')
  end.

(** A path with a null byte is refused before any call is made: [open]
    raises [ValueError], [os.path.isdir] and [os.path.isfile] answer
    [False]. *)
Fixpoint has_nul (s : string) : bool :=
  match s with
  | EmptyString => false
  | String c s' => Ascii.eqb c Ascii.zero || has_nul s'
  end.

Definition os_path_isdir (path : string) (fs : node) : bool :=
  negb (has_nul path)
  && match FS.stat path fs with Some (Dir _) => true | _ => false end.

Definition os_path_isfile (path : string) (fs : node) : bool :=
  negb (has_nul path)
  && match FS.stat path fs with Some (File _ _) => true | _ => false end.

(** Lines 56-64. *)
Definition validate_path (path type_of_path : string) (fs : node) : bool :=
  if String.eqb type_of_path "file" then
    if negb (os_path_isfile path fs) then false else true
  else if String.eqb type_of_path "dir" then
    if negb (os_path_isdir path fs) then false else true
  else true.

(** [with open(path, "a"): pass]: a regular file that is there is left as
    it is; one that is not is created empty, with the modification time
    [now], when its parent is a directory. *)
Definition open_append (path : string) (now : Z) (fs : node) : errno + node :=
  match FS.stat path fs with
  | Some (File _ _) => inr fs
  | Some (Dir _) => inl EISDIR
  | None =>
      match path with
      | EmptyString => inl ENOENT
      | _ =>
          if Path.ends_with_sep path then inl EISDIR
          else FS.put_or_error (Path.components path) (Some (File "" now)) fs
      end
  end.

(** What [get_input] writes to the terminal. *)
Inductive notice := Exiting | BadFile | BadPath.

Inductive tty :=
| Prompt (text : string)
| Say (n : notice).

(** How [get_input] ends other than by returning: [sys.exit(0)], the
    [EOFError] of [input] at the end of the input, the [ValueError] of
    [open] on a path with a null byte, an interrupt during [open]. *)
Inductive stop :=
| SystemExit (code : Z)
| EOFError
| ValueError
| Interrupted.

Inductive answer :=
| Returned (path : string)
| Stopped_by (s : stop).

(** Lines 67-85. [lines] is what the user will type, one entry for each
    call of [input]; the [while True] loop takes one line per turn. The
    result is the answer, the lines not read, the world and the terminal
    output. *)
Fixpoint get_input (prompt type_of_path : string) (now : Z) (lines : list string) (w : world)
  : answer * list string * world * list tty :=
  match lines with
  | [] => (Stopped_by EOFError, [], w, [Prompt prompt])
  | path :: rest =>
      if String.eqb (lower path) "q" then
        (Stopped_by (SystemExit 0), rest, w, [Prompt prompt; Say Exiting])
      else if String.eqb type_of_path "file" then
        if has_nul path then (Stopped_by ValueError, rest, w, [Prompt prompt])
        else
          let w1 := {| fs := fs w; faults := tail (faults w) |} in
          match head (faults w), open_append path now (fs w) with
          | Some (Some KeyboardInterrupt), _ => (Stopped_by Interrupted, rest, w1, [Prompt prompt])
          | Some (Some (OSError _)), _ | _, inl _ =>
              let '(r, rest', w', t) := get_input prompt type_of_path now rest w1 in
              (r, rest', w', Prompt prompt :: Say BadFile :: t)
          | _, inr fs' =>
              (Returned path, rest, {| fs := fs'; faults := tail (faults w) |}, [Prompt prompt])
          end
      else if validate_path path type_of_path (fs w) then
        (Returned path, rest, w, [Prompt prompt])
      else
        let '(r, rest', w', t) := get_input prompt type_of_path now rest w in
        (r, rest', w', Prompt prompt :: Say BadPath :: t)
  end.

(* ===================================================================== *)
(** * Reading a run, continued                                            *)
(* ===================================================================== *)

(** The seconds a run spends in [time.sleep]. *)
Fixpoint total_sleep (t : list event) : nat :=
  match t with
  | [] => 0
  | Sleep n :: t' => n + total_sleep t'
  | _ :: t' => total_sleep t'
  end.


(** A call that changed the replica and that [perform_sync] counts as a
    change: a copy, a removal of a file or of a directory that succeeded. *)
Definition is_effect (e : event) : bool :=
  match e with
  | Sys (Copy2 _ _) None | Sys (Remove _) None | Sys (Rmdir _) None => true
  | _ => false
  end.

Definition has_effect (t : list event) : bool := existsb is_effect t.

(** The exception a run ended with, if any. *)
Definition raised {A} (r : outcome A) : option exn :=
  match r with Raised e => Some e | _ => None end.

(** [satisfies P m]: every run of [m] ends with an exception, or none, and
    a trace that [P] holds of. *)
Definition satisfies {A} (P : option exn -> list event -> Prop) (m : M A) : Prop :=
  forall w, let '(r, _, t) := m w in P (raised r) t.

(** A run that raised [e] ends at the call that raised it. *)
Definition stops_at_failure (x : option exn) (t : list event) : Prop :=
  match x with
  | Some e => exists t0 c, t = t0 ++ [Sys c (Some e)]
  | None => True
  end.





(** Every change that a run logs is a call that succeeded, and conversely. *)
Definition effects_logged (l : locals) (w : world) (r : outcome locals) (w' : world)
    (t : list event) : Prop :=
  has_change t = has_effect t.

(** An exception that leaves a run was raised by the last call of the run,
    and an [OSError] by [os.makedirs] or [os.rmdir]. *)
Definition ends_at_directory_call (l : locals) (w : world) (r : outcome locals) (w' : world)
    (t : list event) : Prop :=
  match r with
  | Raised e =>
      exists t0 c,
        t = t0 ++ [Sys c (Some e)]
        /\ match e with
           | OSError _ => exists path, c = Makedirs path \/ c = Rmdir path
           | KeyboardInterrupt => True
           end
  | _ => True
  end.


Definition is_open_call (e : event) : bool :=
  match e with Sys (Open _) _ => true | _ => false end.

(** The entries of a directory after the removal of [names], one by one. *)
Definition without (names : list string) (es : list (string * node)) : list (string * node) :=
  fold_left (fun acc name => FS.set_entry name None acc) names es.

(** The backward pass with [fuel] for the walk, where the source has
    nothing at the place [ps] that belongs to the replica directory
    [Dir es] at [pr], and no file is recorded in [source_files]: every file
    and every directory below [pr] is removed, then [pr] itself, no call
    fails and the flag is set. *)
Definition wipe_spec (source replica : string) (fuel : nat) : Prop :=
  forall es ps pr top dtop fs0 l,
    height (Dir es) <= fuel -> well_formed (Dir es) ->
    paired source replica ps pr top dtop ->
    FS.lookup ps fs0 = None ->
    FS.lookup pr fs0 = Some (Dir es) ->
    source_files l = ∅ ->
    exists t fs1,
      os_walk fuel false (clean_replica_dir source replica) dtop l {| fs := fs0; faults := [] |}
      = (Ok (set_changes l), {| fs := fs1; faults := [] |}, t)
      /\ FS.put pr None fs0 = Some fs1
      /\ count is_failure t = 0.

(* ===================================================================== *)
(** * A run on any replica                                                *)
(* ===================================================================== *)



















(* ===================================================================== *)
(** * Paths and names the model speaks for                                *)
(* ===================================================================== *)

(** The model resolves a path by looking its components up in the tree,
    one after the other. The kernel does the same for a path that has no
    ["."] and no [".."] in it and no null byte; [plain] is what the
    theorems about roots and typed paths ask of them. *)
Definition dot_free (c : string) : bool :=
  negb (String.eqb c ".") && negb (String.eqb c "..").

Definition plain (s : string) : bool :=
  negb (has_nul s) && forallb dot_free (Path.split s).

(** A name that a directory of a real tree can hold and [os.scandir] can
    return: a valid component other than [".."], without a null byte. *)
Definition real_name (n : string) : bool :=
  Path.valid_name n && negb (String.eqb n "..") && negb (has_nul n).

Fixpoint real_names (n : node) : Prop :=
  match n with
  | File _ _ => True
  | Dir es =>
      (fix all (es : list (string * node)) : Prop :=
         match es with
         | [] => True
         | (name, m) :: es' => real_name name = true /\ real_names m /\ all es'
         end) es
  end.

(* ===================================================================== *)
(** * Properties                                                          *)
(* ===================================================================== *)

(** ** The model runs *)

Example replace_first_prefix :
  Path.replace_first "/a/src" "/b/rep" "/a/src/sub" = "/b/rep/sub".
Proof. reflexivity. Qed.

Example replace_first_inner : Path.replace_first "bc" "Z" "abcabc" = "aZabc".
Proof. reflexivity. Qed.

Example replace_first_empty : Path.replace_first "" "X" "abc" = "Xabc".
Proof. reflexivity. Qed.

Example join_examples :
  (Path.join "a/" "b", Path.join "a" "b", Path.join "" "b", Path.join "a" "/b")
  = ("a/b", "a/b", "b", "/b").
Proof. reflexivity. Qed.

Example components_example :
  Path.components "/b/rep//sub/./f.txt" = ["b"; "rep"; "sub"; "f.txt"].
Proof. reflexivity. Qed.

Example md5_empty : MD5.hexdigest "" = "d41d8cd98f00b204e9800998ecf8427e".
Proof. vm_compute. reflexivity. Qed.

Example md5_hello : MD5.hexdigest "hello" = "5d41402abc4b2a76b9719d911017c592".
Proof. vm_compute. reflexivity. Qed.

Example md5_two_blocks :
  MD5.hexdigest "aaaaaaaaaaaaaaaaaaaaaaaaaaaaaaaaaaaaaaaaaaaaaaaaaaaaaaaaaaaaaaaaaaaaaa"
  = "0f5c6c4e740bfcc08c3c26ccb2673d46".
Proof. vm_compute. reflexivity. Qed.

(** ** The scenario of the specification *)

(** The source holds [a.txt] with the bytes [hello] and the replica is
    empty: the first run creates the file; after the source file is edited
    to [world] the second run updates it; after the source file is deleted
    the third run deletes it; the fourth run has nothing to do. *)
Example concrete_scenario :
  let w0 := {| fs := Dir [("a", Dir [("src", Dir [("a.txt", File "hello" 1)])]);
                          ("b", Dir [("rep", Dir [])])];
               faults := [] |} in
  let '(r1, w1, t1) := perform_sync 5 "/a/src" "/b/rep" w0 in
  let edited := {| fs := place ["a"; "src"; "a.txt"] (File "world" 2) (fs w1); faults := [] |} in
  let '(r2, w2, t2) := perform_sync 5 "/a/src" "/b/rep" edited in
  let deleted := {| fs := place ["a"; "src"] (Dir []) (fs w2); faults := [] |} in
  let '(r3, w3, t3) := perform_sync 5 "/a/src" "/b/rep" deleted in
  let '(r4, w4, t4) := perform_sync 5 "/a/src" "/b/rep" w3 in
  (r1, r2, r3, r4) = (Ok true, Ok true, Ok true, Ok false)
  /\ relative "/b/rep" (fs w1) ["a.txt"] = Some (File "hello" 1)
  /\ relative "/b/rep" (fs w2) ["a.txt"] = Some (File "world" 2)
  /\ relative "/b/rep" (fs w3) ["a.txt"] = None
  /\ In (Log INFO (FileCreated "/b/rep/a.txt")) t1
  /\ In (Log INFO (FileUpdated "/b/rep/a.txt")) t2
  /\ In (Log INFO (FileDeleted "/b/rep/a.txt")) t3
  /\ t4 = [].
Proof. vm_compute. intuition. Qed.

(** ** Counting events *)

Lemma count_app f t1 t2 : count f (t1 ++ t2) = count f t1 + count f t2.
Proof. induction t1 as [|e t1 IH]; simpl; [reflexivity | rewrite IH; lia]. Qed.

Lemma count_zero_iff f t : count f t = 0 <-> forall e, In e t -> f e = false.
Proof.
  induction t as [|e t IH]; simpl.
  - split; [intros _ e [] | reflexivity].
  - destruct (f e) eqn:E; split.
    + discriminate.
    + intros H. specialize (H e (or_introl eq_refl)). congruence.
    + intros H x [<- | Hx]; [assumption | apply IH; [lia | assumption]].
    + intros H. apply IH. intros x Hx. apply H. right. assumption.
Qed.

Lemma count_pos_iff f t : 0 < count f t <-> exists e, In e t /\ f e = true.
Proof.
  induction t as [|e t IH]; simpl.
  - split; [lia | intros (e & [] & _)].
  - destruct (f e) eqn:E; split.
    + intros _. exists e. auto.
    + lia.
    + intros H. apply IH in H as (x & Hx & Hf). exists x. auto.
    + intros (x & [<- | Hx] & Hf); [congruence | apply IH; eauto].
Qed.

(** ** Equations of the combinators *)

Lemma bind_unfold {A B} (m : M A) (k : A -> M B) w :
  bind m k w =
  match m w with
  | (Ok a, w1, t1) => let '(r, w2, t2) := k a w1 in (r, w2, t1 ++ t2)
  | (Raised e, w1, t1) => (Raised e, w1, t1)
  | (OutOfFuel, w1, t1) => (OutOfFuel, w1, t1)
  end.
Proof. reflexivity. Qed.

Lemma bind_ret_l {A B} (a : A) (k : A -> M B) w : bind (ret a) k w = k a w.
Proof. unfold bind, ret. destruct (k a w) as [[r w2] t2]. reflexivity. Qed.

Lemma bind_emit {B} (e : event) (k : unit -> M B) w :
  bind (emit e) k w = let '(r, w2, t2) := k tt w in (r, w2, e :: t2).
Proof. reflexivity. Qed.

(** The three ways a sequence ends. *)
Lemma bind_inv {A B} (m : M A) (k : A -> M B) w r w' t :
  bind m k w = (r, w', t) ->
  (exists a w1 t1 t2, m w = (Ok a, w1, t1) /\ k a w1 = (r, w', t2) /\ t = t1 ++ t2)
  \/ (exists e, m w = (Raised e, w', t) /\ r = Raised e)
  \/ (m w = (OutOfFuel, w', t) /\ r = OutOfFuel).
Proof.
  unfold bind. destruct (m w) as [[[a | e |] w1] t1].
  - destruct (k a w1) as [[r2 w2] t2] eqn:E. intros [= <- <- <-].
    left. exists a, w1, t1, t2. auto.
  - intros [= <- <- <-]. right. left. exists e. auto.
  - intros [= <- <- <-]. right. right. auto.
Qed.

(** ** The copier *)

(** One failing attempt: the call raises an [OSError], the file system is as
    before and one scheduled fault is used up. *)
Lemma shutil_copy2_fails src dst w :
  attempt_fails src dst (fs w) (next_fault (faults w)) = true ->
  exists e, shutil_copy2 src dst w
            = (Raised (OSError e), {| fs := fs w; faults := tail (faults w) |},
               [Sys (Copy2 src dst) (Some (OSError e))]).
Proof.
  unfold attempt_fails, next_fault, shutil_copy2, sys, mutate.
  destruct (faults w) as [|[[e|]|] fl]; simpl; try discriminate; eauto;
    destruct (FS.copy2 src dst (fs w)); try discriminate; eauto.
Qed.

Lemma drop_tail {A} n (l : list A) : drop n (tail l) = drop (S n) l.
Proof. destruct l; simpl; [now rewrite drop_nil | reflexivity]. Qed.

Lemma copy_attempts_exhausted src dst delay n : forall a w,
  every_attempt_fails src dst w n = true ->
  exists t,
    copy_attempts src dst delay (seq a n) w
    = (Ok false, {| fs := fs w; faults := drop n (faults w) |}, t)
    /\ count is_copy_call t = n
    /\ count (is_log WARNING) t = n
    /\ count (is_log ERROR) t = 0
    /\ count is_failure t = n.
Proof.
  induction n as [|n IH]; intros a w H.
  - exists []. simpl. unfold ret. rewrite drop_0. destruct w; auto.
  - unfold every_attempt_fails in H. simpl in H. apply andb_true_iff in H as [H0 H].
    destruct (shutil_copy2_fails _ _ _ H0) as (e & E).
    destruct (IH (S a) {| fs := fs w; faults := tail (faults w) |} H) as (t & Et & C1 & C2 & C3 & C4).
    simpl seq. simpl copy_attempts.
    rewrite bind_unfold. unfold try_except_IOError at 1.
    rewrite bind_unfold, E. simpl.
    rewrite Et. simpl fs; simpl faults.
    rewrite drop_tail. eexists. split; [reflexivity |].
    simpl. rewrite C1, C2, C3, C4. auto.
Qed.

Lemma copy_file_with_retries_exhausted src dst max_retries delay w :
  every_attempt_fails src dst w max_retries = true ->
  exists t,
    copy_file_with_retries src dst max_retries delay w
    = (Ok false, {| fs := fs w; faults := drop max_retries (faults w) |}, t)
    /\ count is_copy_call t = max_retries
    /\ count (is_log WARNING) t = max_retries
    /\ count (is_log ERROR) t = 1
    /\ count is_copy_failed t = 1.
Proof.
  intros H. destruct (copy_attempts_exhausted src dst delay max_retries 1 w H)
    as (t & E & C1 & C2 & C3 & C4).
  unfold copy_file_with_retries. rewrite bind_unfold, E. simpl.
  eexists. split; [reflexivity |].
  rewrite !count_app. simpl. rewrite C1, C2, C3. repeat split; try lia.
  assert (count is_copy_failed t = 0) as ->; [| reflexivity].
  apply count_zero_iff. intros x Hx. destruct x as [| [] [] | | |]; try reflexivity.
  exfalso. pose proof (proj1 (count_zero_iff _ _) C3 _ Hx). discriminate.
Qed.

(** ** Outcomes of a call *)

Lemma sys_cases {A} c (step : node -> errno + (A * node)) w :
  (exists a fs', step (fs w) = inr (a, fs')
     /\ sys c step w = (Ok a, {| fs := fs'; faults := tail (faults w) |}, [Sys c None]))
  \/ (exists e, sys c step w
                = (Raised e, {| fs := fs w; faults := tail (faults w) |}, [Sys c (Some e)])).
Proof.
  unfold sys. destruct (head (faults w)) as [[e|]|].
  - right. eauto.
  - destruct (step (fs w)) as [e | [a fs']]; [right | left]; eauto.
  - destruct (step (fs w)) as [e | [a fs']]; [right | left]; eauto.
Qed.

Lemma shutil_copy2_cases src dst w :
  (exists fs', FS.copy2 src dst (fs w) = inr fs'
     /\ shutil_copy2 src dst w
        = (Ok tt, {| fs := fs'; faults := tail (faults w) |}, [Sys (Copy2 src dst) None]))
  \/ (exists e, shutil_copy2 src dst w
                = (Raised e, {| fs := fs w; faults := tail (faults w) |},
                   [Sys (Copy2 src dst) (Some e)])).
Proof.
  unfold shutil_copy2.
  destruct (sys_cases (Copy2 src dst) (mutate (FS.copy2 src dst)) w)
    as [([] & fs' & Hs & E) | (e & E)]; [left | right; eauto].
  exists fs'. split; [| exact E].
  unfold mutate in Hs. destruct (FS.copy2 src dst (fs w)); congruence.
Qed.

(** What a run of the retry loop can be. The attempts that fail change
    nothing, so a copy that succeeds is made on the file system the loop
    started with. *)
Lemma copy_attempts_spec src dst delay attempts : forall w,
  let '(r, w', t) := copy_attempts src dst delay attempts w in
  count is_change t = 0 /\ count (is_log ERROR) t = 0 /\
  match r with
  | Ok true => In (Sys (Copy2 src dst) None) t /\ FS.copy2 src dst (fs w) = inr (fs w')
  | Ok false => fs w' = fs w /\ count is_copy_call t = length attempts
                /\ ~ In (Sys (Copy2 src dst) None) t
  | Raised KeyboardInterrupt => ~ In (Sys (Copy2 src dst) None) t
  | Raised (OSError _) => False
  | OutOfFuel => False
  end.
Proof.
  induction attempts as [|a attempts IH]; intros w.
  - simpl. intuition.
  - simpl copy_attempts. rewrite bind_unfold. unfold try_except_IOError at 1.
    rewrite bind_unfold.
    destruct (shutil_copy2_cases src dst w) as [(fs' & Hc & E) | ([e|] & E)]; rewrite E; simpl.
    + auto.
    + specialize (IH {| fs := fs w; faults := tail (faults w) |}).
      destruct (copy_attempts src dst delay attempts _) as [[r w'] t].
      destruct IH as (C1 & C2 & IH). simpl. split; [assumption |]. split; [assumption |].
      destruct r as [[|] | [e'|] |]; auto.
      * simpl in IH. destruct IH as (Hin & Hc). auto.
      * simpl in IH. destruct IH as (Hfs & Hn & Hno). split; [assumption |].
        split; [lia |]. intros [H | [H | [H | H]]]; try discriminate. contradiction.
      * intros [H | [H | [H | H]]]; try discriminate. contradiction.
    + split; [reflexivity |]. split; [reflexivity |]. intros [H | []]. discriminate.
Qed.

Lemma copy_file_with_retries_spec src dst max_retries delay w :
  let '(r, w', t) := copy_file_with_retries src dst max_retries delay w in
  count is_change t = 0 /\
  match r with
  | Ok true => count is_copy_failed t = 0 /\ In (Sys (Copy2 src dst) None) t
               /\ FS.copy2 src dst (fs w) = inr (fs w')
  | Ok false => count is_copy_failed t = 1 /\ fs w' = fs w
                /\ ~ In (Sys (Copy2 src dst) None) t
  | Raised KeyboardInterrupt => count is_copy_failed t = 0
                                /\ ~ In (Sys (Copy2 src dst) None) t
  | Raised (OSError _) => False
  | OutOfFuel => False
  end.
Proof.
  unfold copy_file_with_retries. rewrite bind_unfold.
  pose proof (copy_attempts_spec src dst delay (seq 1 max_retries) w) as H.
  destruct (copy_attempts src dst delay (seq 1 max_retries) w) as [[r w'] t].
  destruct H as (C1 & C2 & H).
  assert (count is_copy_failed t = 0) as C3.
  { apply count_zero_iff. intros x Hx. destruct x as [| [] [] | | |]; try reflexivity.
    exfalso. pose proof (proj1 (count_zero_iff _ _) C2 _ Hx). discriminate. }
  destruct r as [[|] | [e|] |]; simpl; rewrite ?app_nil_r, ?count_app; simpl; try tauto.
  - rewrite C1, C3. destruct H as (Hfs & _ & Hno). repeat split; auto.
    rewrite in_app_iff. intros [H | [H | []]]; [contradiction | discriminate].
Qed.

(** ** [calculate_md5] *)

Lemma append_cons c (a b : string) : String c a +:+ b = String c (a +:+ b).
Proof. reflexivity. Qed.

Lemma append_empty_l (s : string) : "" +:+ s = s.
Proof. reflexivity. Qed.

Lemma append_empty_r s : s +:+ "" = s.
Proof. induction s as [|c s IH]; [reflexivity | now rewrite append_cons, IH]. Qed.

Lemma append_assoc (a b c : string) : (a +:+ b) +:+ c = a +:+ (b +:+ c).
Proof. induction a as [|x a IH]; [reflexivity | now rewrite !append_cons, IH]. Qed.

Lemma take_skip n s : take_bytes n s +:+ Path.skip n s = s.
Proof.
  revert s. induction n as [|n IH]; intros [|c s]; simpl; try reflexivity.
  now rewrite append_cons, IH.
Qed.

Lemma skip_length n s : String.length (Path.skip n s) = String.length s - n.
Proof. revert s. induction n as [|n IH]; intros [|c s]; simpl; auto. Qed.

(** Feeding the chunks one by one feeds the whole file. *)
Lemma read_chunks_whole size : 0 < size -> forall rounds rest h,
  String.length rest <= rounds ->
  fold_left md5_update (read_chunks rounds size rest) h = h +:+ rest.
Proof.
  intros Hsize. induction rounds as [|r IH]; intros rest h Hlen.
  - destruct rest; simpl in *; [now rewrite append_empty_r | lia].
  - simpl. destruct (take_bytes size rest) as [|c chunk] eqn:E.
    + destruct size; [lia |]. destruct rest; simpl in *; [| discriminate].
      now rewrite append_empty_r.
    + simpl. rewrite IH.
      * unfold md5_update. rewrite append_assoc, <- E. now rewrite take_skip.
      * rewrite skip_length. destruct rest; simpl in *; [destruct size; discriminate | lia].
Qed.

Lemma calculate_md5_cases file_path w :
  let w1 := {| fs := fs w; faults := tail (faults w) |} in
  (exists data, FS.read_bytes file_path (fs w) = inr data /\ next_fault (faults w) = None
     /\ calculate_md5 file_path w
        = (Ok (Some (MD5.hexdigest data)), w1, [Sys (Open file_path) None]))
  \/ (exists e, calculate_md5 file_path w
                = (Ok None, w1, [Sys (Open file_path) (Some (OSError e));
                                 Log ERROR (Md5Unreadable file_path e)])
                /\ (next_fault (faults w) = Some (OSError e)
                    \/ next_fault (faults w) = None /\ FS.read_bytes file_path (fs w) = inl e))
  \/ (calculate_md5 file_path w
      = (Raised KeyboardInterrupt, w1, [Sys (Open file_path) (Some KeyboardInterrupt)])
      /\ next_fault (faults w) = Some KeyboardInterrupt).
Proof.
  unfold calculate_md5, try_except_IOError, open_read, sys, next_fault.
  rewrite bind_unfold.
  destruct (faults w) as [|[[e|]|] fl]; simpl.
  - destruct (FS.read_bytes file_path (fs w)) as [e|data]; simpl.
    + right. left. eauto.
    + left. exists data. repeat split; auto.
      unfold md5_hexdigest, md5_new. rewrite read_chunks_whole; [reflexivity | lia | lia].
  - right. left. eauto.
  - right. right. auto.
  - destruct (FS.read_bytes file_path (fs w)) as [e|data]; simpl.
    + right. left. eauto.
    + left. exists data. repeat split; auto.
      unfold md5_hexdigest, md5_new. rewrite read_chunks_whole; [reflexivity | lia | lia].
Qed.

(** ** One file of the source *)

Lemma has_change_app t1 t2 : has_change (t1 ++ t2) = has_change t1 || has_change t2.
Proof. apply existsb_app. Qed.

Lemma has_change_count t : has_change t = false <-> count is_change t = 0.
Proof.
  unfold has_change. induction t as [|e t IH]; simpl; [tauto |].
  destruct (is_change e); simpl; [split; [discriminate | lia] | exact IH].
Qed.

Lemma calculate_md5_no_change file_path w :
  let '(r, w', t) := calculate_md5 file_path w in
  has_change t = false /\ count is_copy_failed t = 0 /\ count is_copy_call t = 0
  /\ fs w' = fs w /\ faults w' = tail (faults w)
  /\ match r with Ok _ | Raised KeyboardInterrupt => True | _ => False end.
Proof.
  destruct (calculate_md5_cases file_path w) as [(d & _ & _ & E) | [(e & E & _) | (E & _)]];
    rewrite E; simpl; auto 10.
Qed.

Lemma copy_and_report_spec src_file dst_file m l w :
  is_change (Log INFO m) = true ->
  let '(r, w', t) := copy_and_report src_file dst_file m l w in
  match r with
  | Ok l' => l' = (if has_change t then set_changes l else l)
             /\ (has_change t = true <-> In (Sys (Copy2 src_file dst_file) None) t)
             /\ (has_change t = true -> FS.copy2 src_file dst_file (fs w) = inr (fs w'))
             /\ (0 < count is_copy_failed t -> has_change t = false /\ fs w' = fs w)
  | Raised KeyboardInterrupt =>
      count is_copy_failed t = 0 /\ ~ In (Sys (Copy2 src_file dst_file) None) t
  | _ => False
  end.
Proof.
  intros Hm. unfold copy_and_report. rewrite bind_unfold.
  pose proof (copy_file_with_retries_spec src_file dst_file 3 2 w) as H.
  destruct (copy_file_with_retries src_file dst_file 3 2 w) as [[r w1] t1].
  destruct H as (C & H). apply has_change_count in C.
  destruct r as [[|] | [e|] |]; simpl; auto.
  - destruct H as (Hf & Hin & Hcp).
    assert (has_change [Log INFO m] = true) as Hc
      by (unfold has_change; cbn [existsb]; now rewrite Hm).
    rewrite has_change_app, C, Hc. simpl. split; [reflexivity |]. split; [| split].
    + split; [| reflexivity]. intros _. rewrite in_app_iff. auto.
    + intros _. exact Hcp.
    + rewrite count_app, Hf. simpl. destruct m; simpl; lia.
  - destruct H as (Hf & Hfs & Hno). rewrite app_nil_r, C. split; [reflexivity |].
    split; [| split; [discriminate | auto]]. split; [discriminate | contradiction].
Qed.

Lemma sync_file_unfold src_dir dst_dir file_ l :
  sync_file src_dir dst_dir file_ l =
  let src_file := Path.join src_dir file_ in
  let dst_file := Path.join dst_dir file_ in
  let l1 := add_files src_file dst_file l in
  (present <- os_path_exists dst_file ;;
   if negb present then copy_and_report src_file dst_file (FileCreated dst_file) l1
   else
     src_md5 <- calculate_md5 src_file ;;
     dst_md5 <- calculate_md5 dst_file ;;
     if decide (src_md5 = dst_md5) then ret l1
     else copy_and_report src_file dst_file (FileUpdated dst_file) l1).
Proof. reflexivity. Qed.

(** What one file does to the local variables: the flag is set exactly when
    the step logs a change, and a copy that was given up logs none. *)
Lemma sync_file_spec src_dir dst_dir file_ l w :
  let l1 := add_files (Path.join src_dir file_) (Path.join dst_dir file_) l in
  let '(r, w', t) := sync_file src_dir dst_dir file_ l w in
  match r with
  | Ok l' => l' = (if has_change t then set_changes l1 else l1)
             /\ (0 < count is_copy_failed t -> has_change t = false)
  | Raised KeyboardInterrupt => count is_copy_failed t = 0
  | _ => False
  end.
Proof.
  rewrite sync_file_unfold. cbv zeta. rewrite bind_unfold. unfold os_path_exists at 1.
  set (src_file := Path.join src_dir file_). set (dst_file := Path.join dst_dir file_).
  set (l1 := add_files src_file dst_file l).
  destruct (FS.exists_ dst_file (fs w)); unfold negb; cbv iota; rewrite ?app_nil_l.
  - (* the file is in the replica: compare the digests *)
    rewrite bind_unfold.
    pose proof (calculate_md5_no_change src_file w) as H1.
    destruct (calculate_md5 src_file w) as [[r1 w1] t1].
    destruct H1 as (N1 & F1 & _ & _ & _ & R1).
    destruct r1 as [h1 | [e|] |]; try contradiction; [| simpl; assumption].
    rewrite bind_unfold.
    pose proof (calculate_md5_no_change dst_file w1) as H2.
    destruct (calculate_md5 dst_file w1) as [[r2 w2] t2].
    destruct H2 as (N2 & F2 & _ & _ & _ & R2).
    destruct r2 as [h2 | [e|] |]; try contradiction;
      [| simpl; rewrite count_app; simpl; lia].
    destruct (decide (h1 = h2)).
    + simpl. rewrite !app_nil_r, !has_change_app, N1, N2. simpl.
      split; [reflexivity | rewrite count_app; lia].
    + pose proof (copy_and_report_spec src_file dst_file (FileUpdated dst_file) l1 w2 eq_refl) as H.
      destruct (copy_and_report _ _ _ _ w2) as [[r w3] t3].
      simpl. rewrite !has_change_app, N1, N2, !count_app, F1, F2. simpl.
      destruct r as [l' | [e|] |]; try contradiction.
      * destruct H as (-> & _ & _ & H). split; [reflexivity |]. intros Hc. apply H. lia.
      * (* interrupted inside the copier *)
        lia.
  - pose proof (copy_and_report_spec src_file dst_file (FileCreated dst_file) l1 w eq_refl) as H.
    destruct (copy_and_report _ _ _ _ w) as [[r w3] t3]. simpl.
    destruct r as [l' | [e|] |]; try contradiction.
    + destruct H as (-> & _ & _ & H). split; [reflexivity |]. intros Hc. now apply H.
    + tauto.
Qed.

(** ** Properties carried through the loops *)

Lemma bind_os_scandir {B} path (k : _ -> M B) w :
  bind (os_scandir path) k w = k (FS.scandir path (fs w)) w.
Proof. unfold bind, os_scandir. destruct (k _ w) as [[r w2] t2]. reflexivity. Qed.

Lemma bind_os_path_exists {B} path (k : _ -> M B) w :
  bind (os_path_exists path) k w = k (FS.exists_ path (fs w)) w.
Proof. unfold bind, os_path_exists. destruct (k _ w) as [[r w2] t2]. reflexivity. Qed.

(** A relation that holds of [ret], is closed under sequencing and holds of
    running out of fuel holds of every loop whose body establishes it. *)
Section Lifting.
Context {A : Type}.
Variable R : A -> world -> outcome A -> world -> list event -> Prop.
Hypothesis R_ret : forall a w, R a w (Ok a) w [].
Hypothesis R_seq : forall a w a1 w1 t1 r w2 t2,
  R a w (Ok a1) w1 t1 -> R a1 w1 r w2 t2 -> R a w r w2 (t1 ++ t2).
Hypothesis R_fuel : forall a w, R a w OutOfFuel w [].

Lemma bind_establishes (m k : A -> M A) :
  establishes R m -> establishes R k -> establishes R (fun a => bind (m a) k).
Proof.
  intros Hm Hk a w. rewrite bind_unfold. specialize (Hm a w).
  destruct (m a w) as [[[a1 | e |] w1] t1].
  - specialize (Hk a1 w1). destruct (k a1 w1) as [[r w2] t2]. eapply R_seq; eassumption.
  - assumption.
  - assumption.
Qed.

Lemma for_each_establishes {X} (body : X -> A -> M A) (xs : list X) :
  (forall x, establishes R (body x)) -> establishes R (for_each body xs).
Proof.
  intros Hb. induction xs as [|x xs IH]; intros a w.
  - simpl. apply R_ret.
  - simpl for_each. apply (bind_establishes (body x) (for_each body xs)); auto.
Qed.

Lemma os_walk_establishes fuel topdown body :
  (forall entry, establishes R (body entry)) ->
  forall top, establishes R (os_walk fuel topdown body top).
Proof.
  intros Hb. induction fuel as [|fuel IH]; intros top a w.
  - simpl. apply R_fuel.
  - simpl os_walk. rewrite bind_os_scandir.
    destruct (FS.scandir top (fs w)) as [[dirs nondirs]|]; [| simpl; apply R_ret].
    set (sub := fun (dirname : string) (a : A) =>
                  os_walk fuel topdown body (Path.join top dirname) a).
    assert (establishes R (for_each sub dirs)) as Hsub
      by (apply for_each_establishes; intros d; apply IH).
    destruct topdown.
    + exact (bind_establishes (body (top, dirs, nondirs)) (for_each sub dirs)
               (Hb _) Hsub a w).
    + exact (bind_establishes (for_each sub dirs) (body (top, dirs, nondirs))
               Hsub (Hb _) a w).
Qed.
End Lifting.

(** ** The flag [changes] follows the log *)

Lemma tracks_changes_ret l w : tracks_changes l w (Ok l) w [].
Proof. simpl. now rewrite orb_false_r. Qed.

Lemma tracks_changes_seq l w l1 w1 t1 r w2 t2 :
  tracks_changes l w (Ok l1) w1 t1 -> tracks_changes l1 w1 r w2 t2 ->
  tracks_changes l w r w2 (t1 ++ t2).
Proof.
  unfold tracks_changes. intros H1. destruct r; auto.
  intros ->. now rewrite H1, has_change_app, orb_assoc.
Qed.

Lemma tracks_changes_fuel l w : tracks_changes l w OutOfFuel w [].
Proof. exact I. Qed.

Lemma sync_file_tracks src_dir dst_dir file_ :
  establishes tracks_changes (sync_file src_dir dst_dir file_).
Proof.
  intros l w. pose proof (sync_file_spec src_dir dst_dir file_ l w) as H. cbv zeta in H.
  destruct (sync_file src_dir dst_dir file_ l w) as [[r w'] t].
  destruct r as [l' | [e|] |]; simpl; auto.
  destruct H as (-> & _). now destruct (has_change t); simpl; rewrite ?orb_true_r, ?orb_false_r.
Qed.

Lemma os_makedirs_cases path w :
  let w1 fs' := {| fs := fs'; faults := tail (faults w) |} in
  (exists fs', FS.makedirs path (fs w) = inr fs' /\ next_fault (faults w) = None
     /\ os_makedirs path w = (Ok tt, w1 fs', [Sys (Makedirs path) None]))
  \/ (exists e, os_makedirs path w = (Raised e, w1 (fs w), [Sys (Makedirs path) (Some e)])).
Proof.
  unfold os_makedirs, sys, mutate, next_fault.
  destruct (faults w) as [|[e|] fl]; simpl; eauto;
    destruct (FS.makedirs path (fs w)) as [e|fs']; eauto 6.
Qed.

Lemma os_remove_cases path w :
  let w1 fs' := {| fs := fs'; faults := tail (faults w) |} in
  (exists fs', FS.remove path (fs w) = inr fs' /\ next_fault (faults w) = None
     /\ os_remove path w = (Ok tt, w1 fs', [Sys (Remove path) None]))
  \/ (exists e, os_remove path w = (Raised e, w1 (fs w), [Sys (Remove path) (Some e)])).
Proof.
  unfold os_remove, sys, mutate, next_fault.
  destruct (faults w) as [|[e|] fl]; simpl; eauto;
    destruct (FS.remove path (fs w)) as [e|fs']; eauto 6.
Qed.

Lemma os_rmdir_cases path w :
  let w1 fs' := {| fs := fs'; faults := tail (faults w) |} in
  (exists fs', FS.rmdir path (fs w) = inr fs' /\ next_fault (faults w) = None
     /\ os_rmdir path w = (Ok tt, w1 fs', [Sys (Rmdir path) None]))
  \/ (exists e, os_rmdir path w = (Raised e, w1 (fs w), [Sys (Rmdir path) (Some e)])).
Proof.
  unfold os_rmdir, sys, mutate, next_fault.
  destruct (faults w) as [|[e|] fl]; simpl; eauto;
    destruct (FS.rmdir path (fs w)) as [e|fs']; eauto 6.
Qed.

Lemma sync_source_dir_tracks source replica entry :
  establishes tracks_changes (sync_source_dir source replica entry).
Proof.
  destruct entry as [[src_dir dirs] files]. intros l w.
  unfold sync_source_dir. rewrite bind_os_path_exists.
  set (dst_dir := Path.replace_first source replica src_dir).
  pose proof (for_each_establishes tracks_changes tracks_changes_ret tracks_changes_seq
                (sync_file src_dir dst_dir) files (sync_file_tracks src_dir dst_dir)) as Hf.
  destruct (FS.exists_ dst_dir (fs w)); unfold negb; cbv iota.
  - rewrite bind_ret_l. apply Hf.
  - rewrite !bind_unfold.
    destruct (os_makedirs_cases dst_dir w) as [(fs' & _ & _ & E) | (e & E)]; rewrite E; simpl.
    + specialize (Hf l {| fs := fs'; faults := tail (faults w) |}).
      destruct (for_each _ files l _) as [[r w'] t]. simpl.
      unfold tracks_changes in *. destruct r; auto.
    + exact I.
Qed.

Lemma delete_extra_file_tracks src_dir dst_dir file_ :
  establishes tracks_changes (delete_extra_file src_dir dst_dir file_).
Proof.
  intros l w. unfold delete_extra_file.
  destruct (decide (Path.join src_dir file_ ∈ source_files l)); [apply tracks_changes_ret |].
  unfold try_except_IOError. rewrite bind_unfold.
  destruct (os_remove_cases (Path.join dst_dir file_) w) as [(fs' & _ & _ & E) | ([e|] & E)];
    rewrite E; simpl; auto using orb_true_r.
  now rewrite orb_false_r.
Qed.

Lemma clean_replica_dir_tracks source replica entry :
  establishes tracks_changes (clean_replica_dir source replica entry).
Proof.
  destruct entry as [[dst_dir dirs] files]. intros l w.
  unfold clean_replica_dir.
  set (src_dir := Path.replace_first replica source dst_dir).
  apply (bind_establishes tracks_changes tracks_changes_seq
           (for_each (delete_extra_file src_dir dst_dir) files)).
  - apply for_each_establishes;
      [exact tracks_changes_ret | exact tracks_changes_seq |].
    intros f. apply delete_extra_file_tracks.
  - clear l w. intros l w. rewrite bind_os_path_exists.
    destruct (FS.exists_ src_dir (fs w)); unfold negb; cbv iota; [apply tracks_changes_ret |].
    rewrite !bind_unfold.
    destruct (os_rmdir_cases dst_dir w) as [(fs' & _ & _ & E) | (e & E)]; rewrite E; simpl; auto.
    now rewrite orb_true_r.
Qed.

(** The value [perform_sync] returns is [True] exactly when the run logged
    a change. *)
Lemma perform_sync_flag fuel source replica w :
  let '(r, _, t) := perform_sync fuel source replica w in
  match r with Ok b => b = has_change t | _ => True end.
Proof.
  unfold perform_sync. rewrite bind_unfold.
  set (l0 := {| changes := false; source_files := ∅; replica_files := ∅ |}).
  pose proof (os_walk_establishes tracks_changes tracks_changes_ret tracks_changes_seq
                tracks_changes_fuel fuel true _ (sync_source_dir_tracks source replica)
                source l0 w) as H1.
  destruct (os_walk fuel true _ source l0 w) as [[[l1 | e |] w1] t1]; auto.
  rewrite bind_unfold.
  pose proof (os_walk_establishes tracks_changes tracks_changes_ret tracks_changes_seq
                tracks_changes_fuel fuel false _ (clean_replica_dir_tracks source replica)
                replica l1 w1) as H2.
  destruct (os_walk fuel false _ replica l1 w1) as [[[l2 | e |] w2] t2]; auto.
  simpl in *. rewrite app_nil_r, has_change_app, H2, H1. reflexivity.
Qed.

(** ** A run is aborted by directory calls only *)









(* ===================================================================== *)
(** * The retry policy                                                    *)
(* ===================================================================== *)





(* ===================================================================== *)
(** * The returned flag                                                   *)
(* ===================================================================== *)



(** C8, as the specification words it, fails: the value returned cannot
    carry a count of errors, two runs with different counts return the same
    value. *)
Lemma result_carries_error_count_fails : ~ result_carries_error_count.
Proof.
  intros (errors_of & H).
  pose proof (H 5 "/a/src"%string "/b/rep"%string Scenario.idle) as H0.
  pose proof (H 5 "/a/src"%string "/b/rep"%string Scenario.unreadable) as H2.
  vm_compute in H0, H2. congruence.
Qed.

(** C8 (amended): a run of [perform_sync] that returns, returns one boolean
    and nothing else, the flag [changes]: it is [True] exactly when the run
    logged a change; errors are logged and are not part of the result. *)
Theorem perform_sync_returns_flag (fuel : nat) (source replica : string) (w : world) :
  let '(r, _, t) := perform_sync fuel source replica w in
  match r with
  | Ok changed => changed = has_change t
  | _ => True
  end.
Proof. apply perform_sync_flag. Qed.

(* ===================================================================== *)
(** * The scheduler                                                       *)
(* ===================================================================== *)

(** One turn of the [while] loop. *)
Lemma sync_passes_S ticks fuel source replica interval w :
  sync_passes (S ticks) fuel source replica interval w =
  match perform_sync fuel source replica w with
  | (Ok changed, w1, t1) =>
      let '(r, w2, t2) := sync_passes ticks fuel source replica interval w1 in
      (r, w2,
       Print Syncing :: t1
       ++ Print (if changed then CompletedWithChanges else NoUpdates) :: Wait interval :: t2)
  | (Raised e, w1, t1) => (Raised e, w1, Print Syncing :: t1)
  | (OutOfFuel, w1, t1) => (OutOfFuel, w1, Print Syncing :: t1)
  end.
Proof.
  cbn [sync_passes]. unfold print. rewrite bind_emit, bind_unfold.
  destruct (perform_sync fuel source replica w) as [[[changed | e |] w1] t1]; try reflexivity.
  rewrite bind_emit, bind_emit.
  destruct (sync_passes ticks fuel source replica interval w1) as [[r w2] t2]. reflexivity.
Qed.

(** The loop stops at the first pass that raises. *)
Lemma sync_passes_raise fuel source replica interval e w' tp :
  forall k ticks w wk tk,
    k < ticks ->
    sync_passes k fuel source replica interval w = (Ok tt, wk, tk) ->
    perform_sync fuel source replica wk = (Raised e, w', tp) ->
    sync_passes ticks fuel source replica interval w = (Raised e, w', tk ++ Print Syncing :: tp).
Proof.
  induction k as [|k IH]; intros ticks w wk tk Hlt Hk Hp.
  - destruct ticks as [|ticks]; [lia |].
    simpl in Hk. injection Hk as <- <-. rewrite sync_passes_S, Hp. reflexivity.
  - destruct ticks as [|ticks]; [lia |].
    rewrite sync_passes_S in Hk |- *.
    destruct (perform_sync fuel source replica w) as [[[changed | e0 |] w1] t1]; try discriminate.
    destruct (sync_passes k fuel source replica interval w1) as [[r w2] t2] eqn:Ek.
    injection Hk as -> -> <-.
    rewrite (IH ticks w1 wk t2 ltac:(lia) Ek Hp).
    simpl. rewrite <- !app_assoc. reflexivity.
Qed.

(** C6, as the specification words it, fails: the [OSError] of a pass is
    not caught by [sync_loop], which has a handler for [KeyboardInterrupt]
    only; the loop ends at that pass, nothing is logged for it and the
    exception leaves [sync_loop]. *)
Lemma loop_survives_pass_faults_fails :
  ~ loop_survives_pass_faults 3 5 "/a/src" "/b/rep" 60 Scenario.clash.
Proof.
  unfold loop_survives_pass_faults. vm_compute. intros (H & _). discriminate H.
Qed.

(** C6 (amended): an exception raised inside a scheduled pass ends the loop
    at that pass: no further pass starts and the loop logs nothing for it;
    [sync_loop] prints that the synchronisation stopped, a
    [KeyboardInterrupt] is caught (the loop prints that the user left and
    returns) and every other exception leaves [sync_loop]. *)
Theorem pass_fault_ends_loop (k ticks fuel : nat) (source replica : string) (interval : nat)
    (w wk w' : world) (tk tp : list event) (e : exn)
    (Hk : k < ticks)
    (Hpasses : sync_passes k fuel source replica interval w = (Ok tt, wk, tk))
    (Hfault : perform_sync fuel source replica wk = (Raised e, w', tp)) :
  sync_loop ticks fuel source replica interval w
  = (propagated e, w', (tk ++ Print Syncing :: tp) ++ handler_output e ++ [Print Stopped]).
Proof.
  unfold sync_loop, try_finally, try_except_KeyboardInterrupt.
  rewrite (sync_passes_raise _ _ _ _ _ _ _ _ _ _ _ _ Hk Hpasses Hfault).
  destruct e as [e|]; simpl; rewrite <- ?app_assoc; reflexivity.
Qed.

Lemma pass_fault_ends_loop_witness :
  0 < 3
  /\ sync_passes 0 5 "/a/src" "/b/rep" 60 Scenario.clash = (Ok tt, Scenario.clash, [])
  /\ perform_sync 5 "/a/src" "/b/rep" Scenario.clash
     = (Raised (OSError ENOTDIR), Scenario.clash,
        [Sys (Makedirs "/b/rep/d/e") (Some (OSError ENOTDIR))])
  /\ sync_loop 3 5 "/a/src" "/b/rep" 60 Scenario.clash
     = (Raised (OSError ENOTDIR), Scenario.clash,
        [Print Syncing; Sys (Makedirs "/b/rep/d/e") (Some (OSError ENOTDIR)); Print Stopped]).
Proof.
  split; [lia |]. split; [reflexivity |]. split; [reflexivity |].
  apply (pass_fault_ends_loop 0 3 5 "/a/src" "/b/rep" 60 Scenario.clash Scenario.clash
           Scenario.clash [] [Sys (Makedirs "/b/rep/d/e") (Some (OSError ENOTDIR))]
           (OSError ENOTDIR)); [lia | reflexivity | reflexivity].
Defined.

(* ===================================================================== *)
(** * The decision to update a file                                       *)
(* ===================================================================== *)

(** ** Writing a file *)

Lemma assoc_set_entry_eq name n es : FS.assoc name (FS.set_entry name (Some n) es) = Some n.
Proof.
  induction es as [|[k old] es IH]; simpl.
  - now rewrite String.eqb_refl.
  - destruct (String.eqb name k) eqn:E; simpl; rewrite E; [reflexivity | exact IH].
Qed.

Lemma put_single c v es : FS.put [c] v (Dir es) = Some (Dir (FS.set_entry c v es)).
Proof. reflexivity. Qed.

Lemma put_cons c c' p v es :
  FS.put (c :: c' :: p) v (Dir es) =
  match FS.assoc c es with
  | Some m =>
      match FS.put (c' :: p) v m with
      | Some m' => Some (Dir (FS.set_entry c (Some m') es))
      | None => None
      end
  | None => None
  end.
Proof. reflexivity. Qed.

Lemma lookup_cons c p es :
  FS.lookup (c :: p) (Dir es) =
  match FS.assoc c es with Some m => FS.lookup p m | None => None end.
Proof. reflexivity. Qed.


Lemma stat_file path fs data mtime :
  FS.stat path fs = Some (File data mtime) ->
  path <> ""%string /\ Path.ends_with_sep path = false
  /\ FS.lookup (Path.components path) fs = Some (File data mtime).
Proof.
  unfold FS.stat. destruct path as [|c path]; [discriminate |].
  destruct (FS.lookup _ fs) as [[d t|es]|]; try discriminate.
  destruct (Path.ends_with_sep _); [discriminate |]. intros [= -> ->]. auto.
Qed.


(** ** The digests decide *)

Lemma copy_attempts_first src dst delay a attempts w :
  let '(_, _, t) := copy_attempts src dst delay (a :: attempts) w in
  0 < count is_copy_call t.
Proof.
  simpl copy_attempts. rewrite bind_unfold. unfold try_except_IOError at 1.
  rewrite bind_unfold.
  destruct (shutil_copy2_cases src dst w) as [(fs' & _ & E) | ([e|] & E)]; rewrite E; simpl;
    try lia.
  destruct (copy_attempts src dst delay attempts _) as [[r w'] t]. simpl. lia.
Qed.

(** Once the engine has decided to copy, a first attempt is made. *)
Lemma copy_and_report_attempts src_file dst_file m l w :
  let '(_, _, t) := copy_and_report src_file dst_file m l w in
  0 < count is_copy_call t.
Proof.
  unfold copy_and_report, copy_file_with_retries. rewrite !bind_unfold.
  change (seq 1 3) with [1; 2; 3].
  pose proof (copy_attempts_first src_file dst_file 2 1 [2; 3] w) as H.
  destruct (copy_attempts src_file dst_file 2 [1; 2; 3] w) as [[[[|] | e |] w1] t1]; simpl;
    rewrite ?count_app; simpl; lia.
Qed.

(** A copy that succeeded is reported with the record of its branch. *)
Lemma copy_and_report_logs src_file dst_file m l w :
  let '(_, _, t) := copy_and_report src_file dst_file m l w in
  In (Sys (Copy2 src_file dst_file) None) t -> In (Log INFO m) t.
Proof.
  unfold copy_and_report. rewrite bind_unfold.
  pose proof (copy_file_with_retries_spec src_file dst_file 3 2 w) as H.
  destruct (copy_file_with_retries src_file dst_file 3 2 w) as [[r w1] t1].
  destruct H as (_ & H).
  destruct r as [[|] | [e|] |]; simpl; try contradiction.
  - intros _. rewrite in_app_iff. simpl. auto.
  - rewrite app_nil_r. tauto.
  - tauto.
Qed.

Lemma calculate_md5_readable file_path w data mtime :
  FS.stat file_path (fs w) = Some (File data mtime) ->
  next_fault (faults w) = None ->
  calculate_md5 file_path w
  = (Ok (Some (MD5.hexdigest data)), {| fs := fs w; faults := tail (faults w) |},
     [Sys (Open file_path) None]).
Proof.
  intros Hs Hf.
  destruct (calculate_md5_cases file_path w) as [(d & Hr & _ & E) | [(e & E & H) | (E & H)]].
  - unfold FS.read_bytes in Hr. rewrite Hs in Hr. injection Hr as <-. exact E.
  - destruct H as [H | [_ H]]; [congruence |].
    unfold FS.read_bytes in H. rewrite Hs in H. discriminate.
  - congruence.
Qed.

(* ===================================================================== *)
(** * Unreadable files                                                    *)
(* ===================================================================== *)

(** For a file that is in the replica, the copier is called exactly when
    the two results of [calculate_md5] differ; [None], the result for a
    file that cannot be read, is one of the values compared. *)
Lemma sync_file_compares src_dir dst_dir file_ l w h w1 t1 h' w2 t2 :
  FS.exists_ (Path.join dst_dir file_) (fs w) = true ->
  calculate_md5 (Path.join src_dir file_) w = (Ok h, w1, t1) ->
  calculate_md5 (Path.join dst_dir file_) w1 = (Ok h', w2, t2) ->
  let '(_, _, t) := sync_file src_dir dst_dir file_ l w in
  0 < count is_copy_call t <-> h <> h'.
Proof.
  intros He H1 H2. rewrite sync_file_unfold. cbv zeta.
  rewrite bind_os_path_exists, He. unfold negb. cbv iota.
  rewrite bind_unfold, H1, bind_unfold, H2.
  pose proof (calculate_md5_no_change (Path.join src_dir file_) w) as N1.
  pose proof (calculate_md5_no_change (Path.join dst_dir file_) w1) as N2.
  rewrite H1 in N1. rewrite H2 in N2.
  destruct N1 as (_ & _ & C1 & _). destruct N2 as (_ & _ & C2 & _).
  destruct (decide (h = h')) as [Heq | Hne].
  - simpl. rewrite app_nil_r, count_app, C1, C2. split; [simpl; lia | congruence].
  - pose proof (copy_and_report_attempts (Path.join src_dir file_) (Path.join dst_dir file_)
                  (FileUpdated (Path.join dst_dir file_))
                  (add_files (Path.join src_dir file_) (Path.join dst_dir file_) l) w2) as Ha.
    destruct (copy_and_report _ _ _ _ w2) as [[r w3] t3].
    rewrite !count_app. split; [auto | lia].
Qed.

(** C4, at an input where it fails: [f.txt] is in both trees with different
    bytes and neither copy can be opened. Both calls of [calculate_md5] log
    an error and return [None], the comparison [None != None] is false, and
    the file is passed over: no copy is attempted and the replica keeps the
    old bytes, where the claim has the engine proceed as if an update were
    needed. *)
Theorem both_unreadable_is_skipped :
  perform_sync 5 "/a/src" "/b/rep" Scenario.unreadable
  = (Ok false, {| fs := fs Scenario.unreadable; faults := [] |},
     [Sys (Open "/a/src/f.txt") (Some (OSError EACCES));
      Log ERROR (Md5Unreadable "/a/src/f.txt" EACCES);
      Sys (Open "/b/rep/f.txt") (Some (OSError EACCES));
      Log ERROR (Md5Unreadable "/b/rep/f.txt" EACCES)])
  /\ relative "/b/rep" (fs Scenario.unreadable) ["f.txt"] = Some (File "old" 1)
  /\ relative "/a/src" (fs Scenario.unreadable) ["f.txt"] = Some (File "new" 2).
Proof. vm_compute. auto. Qed.

(* ===================================================================== *)
(** * Directory calls that fail                                           *)
(* ===================================================================== *)

(** C5, at two inputs where it fails. In the first, [os.makedirs] meets a
    regular file in the place of a directory of the replica; in the second,
    [os.rmdir] is called on a directory that still holds the file whose
    removal was refused. Neither call is inside a [try]: the [OSError]
    leaves [perform_sync], no error is logged for it, and what was left to
    do is not done ([later/n.txt] is not copied, [old.txt] is not deleted). *)
Theorem directory_failure_aborts_run :
  perform_sync 5 "/a/src" "/b/rep" Scenario.clash
  = (Raised (OSError ENOTDIR), Scenario.clash,
     [Sys (Makedirs "/b/rep/d/e") (Some (OSError ENOTDIR))])
  /\ relative "/a/src" (fs Scenario.clash) ["later"; "n.txt"] = Some (File "n" 1)
  /\ relative "/b/rep" (fs Scenario.clash) ["old.txt"] = Some (File "o" 0)
  /\ relative "/a/src" (fs Scenario.clash) ["old.txt"] = None
  /\ perform_sync 5 "/a/src" "/b/rep" Scenario.junk
     = (Raised (OSError ENOTEMPTY), {| fs := fs Scenario.junk; faults := [] |},
        [Sys (Remove "/b/rep/junk/g.txt") (Some (OSError EACCES));
         Log ERROR (DeleteFailed "/b/rep/junk/g.txt" EACCES);
         Sys (Rmdir "/b/rep/junk") (Some (OSError ENOTEMPTY))])
  /\ relative "/b/rep" (fs Scenario.junk) ["old.txt"] = Some (File "o" 0)
  /\ relative "/a/src" (fs Scenario.junk) ["old.txt"] = None.
Proof. vm_compute. auto 10. Qed.

(* ===================================================================== *)
(** * Roots written with a trailing separator                             *)
(* ===================================================================== *)

(** C1, at an input where it fails: the source root is given as [/a/src/].
    [os.walk] yields [/a/src/sub], in which [str.replace] puts [/b/rep] for
    [/a/src/]: the directory is made and filled at [/b/repsub], beside the
    replica. No call fails, the run returns [True], and the replica, empty
    before, is empty after. *)
Theorem trailing_separator_breaks_convergence :
  relative "/b/rep" (fs Scenario.fresh) [] = Some (Dir [])
  /\ perform_sync 5 "/a/src/" "/b/rep" Scenario.fresh
     = (Ok true,
        {| fs := Dir [("a", Dir [("src", Dir [("sub", Dir [("f.txt", File "x" 1)])])]);
                      ("b", Dir [("rep", Dir []);
                                 ("repsub", Dir [("f.txt", File "x" 1)])])];
           faults := [] |},
        [Sys (Makedirs "/b/repsub") None; Log INFO (DirectoryCreated "/b/repsub");
         Sys (Copy2 "/a/src/sub/f.txt" "/b/repsub/f.txt") None;
         Log INFO (FileCreated "/b/repsub/f.txt")])
  /\ (let '(_, w', _) := perform_sync 5 "/a/src/" "/b/rep" Scenario.fresh in
      ~ converged "/a/src/" "/b/rep" (fs Scenario.fresh) (fs w')).
Proof.
  split; [reflexivity |].
  match goal with |- ?run = ?res /\ _ => assert (run = res) as E by (vm_compute; reflexivity) end.
  split; [exact E |]. rewrite E. intros H.
  specialize (H ["sub"%string]). vm_compute in H. discriminate H.
Qed.

(** C7, at an input where it fails: the replica root is given as [/b/rep/].
    The forward pass copies [sub/f.txt] into the replica; the backward pass
    maps [/b/rep/sub] to [/a/srcsub], finds neither the file among the
    source files nor the directory in the source, and removes both. No call
    fails and the source does not change, yet the second run copies and
    deletes again and returns [True]. *)
Theorem trailing_separator_breaks_idempotence :
  let '(r1, w1, t1) := perform_sync 5 "/a/src" "/b/rep/" Scenario.fresh in
  let '(r2, w2, t2) := perform_sync 5 "/a/src" "/b/rep/" w1 in
  r1 = Ok true /\ count is_failure t1 = 0
  /\ relative "/a/src" (fs w1) [] = relative "/a/src" (fs Scenario.fresh) []
  /\ r2 = Ok true /\ count is_failure t2 = 0
  /\ count is_copy_call t2 = 1 /\ count is_remove_call t2 = 1
  /\ t2 = [Sys (Makedirs "/b/rep//sub") None; Log INFO (DirectoryCreated "/b/rep//sub");
           Sys (Copy2 "/a/src/sub/f.txt" "/b/rep//sub/f.txt") None;
           Log INFO (FileCreated "/b/rep//sub/f.txt");
           Sys (Remove "/b/rep/sub/f.txt") None; Log INFO (FileDeleted "/b/rep/sub/f.txt");
           Sys (Rmdir "/b/rep/sub") None; Log INFO (DirectoryDeleted "/b/rep/sub")].
Proof. vm_compute. auto 10. Qed.

(** C10, at two inputs where it fails. With the source given as [/a/src/]
    the run makes [/b/repsub], which is not under the replica root. With
    the source [/a/bc/] and the replica [/a/b], the directory [/a/bc/c] is
    mapped to [/a/bc], the source root itself, and [c/f.txt] is copied to
    [/a/bc/f.txt]: a file is created in the source tree. *)
Theorem trailing_separator_writes_outside_replica :
  (let '(_, _, t) := perform_sync 5 "/a/src/" "/b/rep" Scenario.fresh in
   In (Sys (Makedirs "/b/repsub") None) t
   /\ under "/b/rep" "/b/repsub" = false
   /\ stays_under "/b/rep" t = false)
  /\ perform_sync 5 "/a/bc/" "/a/b" Scenario.siblings
     = (Ok true,
        {| fs := Dir [("a", Dir [("bc", Dir [("c", Dir [("f.txt", File "x" 1)]);
                                             ("f.txt", File "x" 1)]);
                                 ("b", Dir [])])];
           faults := [] |},
        [Sys (Copy2 "/a/bc/c/f.txt" "/a/bc/f.txt") None; Log INFO (FileCreated "/a/bc/f.txt")])
  /\ relative "/a/bc/" (fs Scenario.siblings) ["f.txt"] = None
  /\ under "/a/b" "/a/bc/f.txt" = false
  /\ under "/a/bc/" "/a/bc/f.txt" = true.
Proof. vm_compute. auto 10. Qed.

(* ===================================================================== *)
(** * Path strings under a normal root                                    *)
(* ===================================================================== *)

Lemma startswith_append s x : Path.startswith s (s +:+ x) = true.
Proof.
  induction s as [|c s IH]; [reflexivity |].
  rewrite append_cons. simpl. now rewrite Ascii.eqb_refl.
Qed.

Lemma skip_append s x : Path.skip (String.length s) (s +:+ x) = x.
Proof. induction s as [|c s IH]; [reflexivity | rewrite append_cons; exact IH]. Qed.

(** [str.replace] on a path that starts with the root replaces the root. *)
Lemma replace_first_root old new x :
  Path.replace_first old new (old +:+ x) = new +:+ x.
Proof.
  destruct (old +:+ x) eqn:E; simpl; rewrite <- E, startswith_append, skip_append;
    reflexivity.
Qed.

Lemma ends_with_sep_append a c b :
  Path.ends_with_sep (a +:+ String c b) = Path.ends_with_sep (String c b).
Proof.
  induction a as [|x a IH]; [reflexivity |].
  rewrite append_cons. simpl. rewrite IH.
  destruct (a +:+ String c b) eqn:E; [destruct a; discriminate | reflexivity].
Qed.

Lemma no_sep_ends n : n <> ""%string -> Path.no_sep n = true -> Path.ends_with_sep n = false.
Proof.
  induction n as [|c n IH]; [congruence |]. intros _. simpl.
  rewrite andb_true_iff, negb_true_iff. intros [Hc Hn].
  destruct n; [exact Hc | apply IH; [discriminate | exact Hn]].
Qed.

Lemma valid_name_inv n :
  Path.valid_name n = true ->
  n <> ""%string /\ n <> "."%string /\ Path.no_sep n = true /\ Path.startswith "/" n = false.
Proof.
  unfold Path.valid_name, Path.significant.
  rewrite andb_true_iff, negb_true_iff, orb_false_iff, !String.eqb_neq.
  intros [[H1 H2] H3]. repeat split; auto.
  destruct n as [|c n]; [congruence |].
  cbn [Path.no_sep] in H3. apply andb_true_iff in H3 as [H3 _]. apply negb_true_iff in H3.
  change (Path.startswith "/" (String c n))
    with (if Ascii.eqb "/"%char c then Path.startswith "" n else false).
  destruct (Ascii.eqb_spec "/"%char c) as [<- | Hc]; [| reflexivity].
  unfold Path.sep in H3. rewrite Ascii.eqb_refl in H3. discriminate.
Qed.

Lemma normal_root_inv s :
  normal_root s = true -> s <> ""%string /\ Path.ends_with_sep s = false.
Proof.
  unfold normal_root. rewrite andb_true_iff, !negb_true_iff, String.eqb_neq. tauto.
Qed.

(** Below a normal root [os.path.join] puts one separator. *)
Lemma join_normal top name :
  normal_root top = true -> Path.valid_name name = true ->
  Path.join top name = top +:+ "/" +:+ name.
Proof.
  intros Ht Hn. apply normal_root_inv in Ht as [Hne Hsep].
  apply valid_name_inv in Hn as (_ & _ & _ & Hs).
  unfold Path.join. rewrite Hs, Hsep. destruct top; [congruence | reflexivity].
Qed.

Lemma normal_root_child top name :
  Path.valid_name name = true -> normal_root (top +:+ "/" +:+ name) = true.
Proof.
  intros Hn. apply valid_name_inv in Hn as (Hne & _ & Hns & _).
  unfold normal_root. apply andb_true_iff. split; apply negb_true_iff.
  - apply String.eqb_neq. destruct top; discriminate.
  - destruct name as [|c name]; [congruence |].
    change ("/" +:+ String c name) with (String "/" (String c name)).
    rewrite ends_with_sep_append.
    change (Path.ends_with_sep (String "/" (String c name)))
      with (Path.ends_with_sep (String c name)).
    apply no_sep_ends; [discriminate | exact Hns].
Qed.

(** ** Components *)

Lemma split_nonempty s : Path.split s <> [].
Proof.
  induction s as [|c s IH]; simpl; [discriminate |].
  destruct (Ascii.eqb c Path.sep); [discriminate |].
  destruct (Path.split s); [congruence | discriminate].
Qed.

Lemma split_append a b : Path.split (a +:+ "/" +:+ b) = Path.split a ++ Path.split b.
Proof.
  induction a as [|c a IH].
  - reflexivity.
  - rewrite append_cons. simpl. rewrite IH.
    destruct (Ascii.eqb c Path.sep); [reflexivity |].
    pose proof (split_nonempty a). destruct (Path.split a); [congruence | reflexivity].
Qed.

Lemma split_name n : Path.no_sep n = true -> Path.split n = [n].
Proof.
  induction n as [|c n IH]; [reflexivity |]. simpl.
  rewrite andb_true_iff, negb_true_iff. intros [-> Hn]. now rewrite (IH Hn).
Qed.

Lemma components_child top name :
  Path.valid_name name = true ->
  Path.components (top +:+ "/" +:+ name) = Path.components top ++ [name].
Proof.
  intros Hn. unfold Path.components. rewrite split_append, filter_app.
  f_equal. unfold Path.valid_name in Hn. apply andb_true_iff in Hn as [Hs Hn].
  rewrite (split_name _ Hn). rewrite filter_cons_True by exact Hs. reflexivity.
Qed.

(** On a normal path [os.stat] is the look-up of the components. *)
Lemma stat_normal path fs :
  normal_root path = true -> FS.stat path fs = FS.lookup (Path.components path) fs.
Proof.
  intros H. apply normal_root_inv in H as [Hne Hsep]. unfold FS.stat.
  destruct path; [congruence |]. rewrite Hsep.
  destruct (FS.lookup _ fs) as [[]|]; reflexivity.
Qed.

(* ===================================================================== *)
(** * The file system as a tree                                           *)
(* ===================================================================== *)

Lemma assoc_set_entry_ne c c' v es :
  c <> c' -> FS.assoc c' (FS.set_entry c v es) = FS.assoc c' es.
Proof.
  intros Hne. induction es as [|[k old] es IH].
  - destruct v; simpl; [| reflexivity].
    destruct (String.eqb_spec c' c); [congruence | reflexivity].
  - simpl. destruct (String.eqb_spec c k) as [-> | Hck].
    + destruct (String.eqb_spec c' k) as [-> | Hc'k]; [congruence |].
      destruct v; simpl; [| reflexivity].
      destruct (String.eqb_spec c' k); [congruence | reflexivity].
    + simpl. rewrite IH. reflexivity.
Qed.

Lemma set_entry_twice c v v' es :
  FS.set_entry c (Some v') (FS.set_entry c (Some v) es) = FS.set_entry c (Some v') es.
Proof.
  induction es as [|[k old] es IH]; simpl.
  - now rewrite String.eqb_refl.
  - destruct (String.eqb c k) eqn:E; simpl; rewrite E; [reflexivity | now rewrite IH].
Qed.

Lemma set_entry_same c n es : FS.assoc c es = Some n -> FS.set_entry c (Some n) es = es.
Proof.
  induction es as [|[k old] es IH]; simpl; [discriminate |].
  destruct (String.eqb c k); [intros [= ->]; reflexivity |].
  intros H. now rewrite IH.
Qed.

Lemma assoc_None c es : FS.assoc c es = None <-> ~ In c (map fst es).
Proof.
  induction es as [|[k old] es IH]; simpl; [tauto |].
  destruct (String.eqb_spec c k) as [-> | Hne].
  - split; [discriminate | tauto].
  - rewrite IH. intuition congruence.
Qed.

(** A new name goes to the end of the directory. *)
Lemma set_entry_new c n es :
  FS.assoc c es = None -> FS.set_entry c (Some n) es = es ++ [(c, n)].
Proof.
  induction es as [|[k old] es IH]; simpl; [reflexivity |].
  destruct (String.eqb c k); [discriminate |]. intros H. now rewrite IH.
Qed.

Lemma lookup_app p q n :
  FS.lookup (p ++ q) n = match FS.lookup p n with Some m => FS.lookup q m | None => None end.
Proof.
  revert n. induction p as [|c p IH]; intros n; [reflexivity |].
  destruct n as [|es]; [reflexivity |]. simpl app. rewrite !lookup_cons.
  destruct (FS.assoc c es); [apply IH | reflexivity].
Qed.

(** ** [place] *)

Lemma place_single c n es : place [c] n (Dir es) = Dir (FS.set_entry c (Some n) es).
Proof. reflexivity. Qed.

Lemma place_cons c c' p n es :
  place (c :: c' :: p) n (Dir es) =
  match FS.assoc c es with
  | Some m => Dir (FS.set_entry c (Some (place (c' :: p) n m)) es)
  | None => Dir es
  end.
Proof. reflexivity. Qed.

Lemma place_file p n d t : p <> [] -> place p n (File d t) = File d t.
Proof. destruct p; [congruence | reflexivity]. Qed.

Lemma has_parent_cons c c' p es m :
  FS.assoc c es = Some m ->
  has_parent (c :: c' :: p) (Dir es) <-> has_parent (c' :: p) m.
Proof.
  intros Ha. unfold has_parent. change (removelast (c :: c' :: p)) with (c :: removelast (c' :: p)).
  rewrite lookup_cons, Ha. reflexivity.
Qed.

Lemma has_parent_inv c c' p es :
  has_parent (c :: c' :: p) (Dir es) -> exists m, FS.assoc c es = Some m.
Proof.
  intros [E H]. change (removelast (c :: c' :: p)) with (c :: removelast (c' :: p)) in H.
  rewrite lookup_cons in H. destruct (FS.assoc c es); [eauto | discriminate].
Qed.

Lemma put_place p n : forall fs,
  p <> [] -> has_parent p fs -> FS.put p (Some n) fs = Some (place p n fs).
Proof.
  induction p as [|c p IH]; intros fs Hne Hp; [congruence |].
  destruct fs as [d t|es].
  - destruct Hp as [E H]. destruct p; simpl in H; discriminate.
  - destruct p as [|c' p]; [reflexivity |].
    rewrite put_cons, place_cons.
    destruct (has_parent_inv _ _ _ _ Hp) as [m Ha]. rewrite Ha.
    rewrite (IH m); [reflexivity | discriminate |].
    now apply (has_parent_cons c c' p es m Ha).
Qed.

Lemma lookup_place p n : forall fs,
  has_parent p fs -> FS.lookup p (place p n fs) = Some n.
Proof.
  induction p as [|c p IH]; intros fs Hp; [reflexivity |].
  destruct fs as [d t|es].
  - destruct Hp as [E H]. destruct p; simpl in H; discriminate.
  - destruct p as [|c' p].
    + rewrite place_single, lookup_cons, assoc_set_entry_eq. reflexivity.
    + rewrite place_cons. destruct (has_parent_inv _ _ _ _ Hp) as [m Ha]. rewrite Ha.
      rewrite lookup_cons, assoc_set_entry_eq. apply IH.
      now apply (has_parent_cons c c' p es m Ha).
Qed.

Lemma lookup_place_below p q n fs :
  has_parent p fs -> FS.lookup (p ++ q) (place p n fs) = FS.lookup q n.
Proof. intros Hp. now rewrite lookup_app, lookup_place. Qed.

(** Elsewhere nothing changes. *)
Lemma lookup_place_diverge p n : forall q fs,
  diverge p q = true -> FS.lookup q (place p n fs) = FS.lookup q fs.
Proof.
  induction p as [|c p IH]; intros q fs Hd; [discriminate |].
  destruct q as [|b q]; [discriminate |]. simpl in Hd.
  destruct fs as [d t|es]; [now rewrite place_file |].
  destruct (String.eqb_spec c b) as [<- | Hne].
  - destruct p as [|c' p]; [discriminate |].
    rewrite place_cons. destruct (FS.assoc c es) as [m|] eqn:Ha; [| reflexivity].
    rewrite !lookup_cons, assoc_set_entry_eq, Ha. now apply IH.
  - destruct p as [|c' p].
    + rewrite place_single, !lookup_cons, assoc_set_entry_ne; auto.
    + rewrite place_cons. destruct (FS.assoc c es) as [m|] eqn:Ha; [| reflexivity].
      rewrite !lookup_cons, assoc_set_entry_ne; auto.
Qed.

Lemma place_twice p n n' : forall fs, place p n' (place p n fs) = place p n' fs.
Proof.
  induction p as [|c p IH]; intros fs; [reflexivity |].
  destruct fs as [d t|es]; [reflexivity |].
  destruct p as [|c' p].
  - rewrite !place_single, set_entry_twice. reflexivity.
  - rewrite (place_cons c c' p n es). destruct (FS.assoc c es) as [m|] eqn:Ha.
    + rewrite place_cons, assoc_set_entry_eq, IH, set_entry_twice, place_cons, Ha. reflexivity.
    + rewrite place_cons, Ha. reflexivity.
Qed.

(** An entry placed in a directory that was placed. *)
Lemma place_child p c v E : forall fs,
  place (p ++ [c]) v (place p (Dir E) fs) = place p (Dir (FS.set_entry c (Some v) E)) fs.
Proof.
  induction p as [|a p IH]; intros fs; [reflexivity |].
  destruct fs as [d t|es]; [destruct p; reflexivity |].
  destruct p as [|a' p].
  - simpl app. rewrite !place_single, place_cons, assoc_set_entry_eq, place_single,
      set_entry_twice. reflexivity.
  - simpl app. rewrite (place_cons a a' p (Dir E) es), (place_cons a a' p _ es).
    destruct (FS.assoc a es) as [m|] eqn:Ha.
    + rewrite place_cons, assoc_set_entry_eq, set_entry_twice.
      change (a' :: p ++ [c]) with ((a' :: p) ++ [c]). rewrite IH. reflexivity.
    + rewrite place_cons, Ha. reflexivity.
Qed.

Lemma place_same p n : forall fs, FS.lookup p fs = Some n -> place p n fs = fs.
Proof.
  induction p as [|c p IH]; intros fs H; [simpl in *; congruence |].
  destruct fs as [d t|es]; [reflexivity |].
  rewrite lookup_cons in H. destruct (FS.assoc c es) as [m|] eqn:Ha; [| discriminate].
  destruct p as [|c' p].
  - simpl in H. injection H as ->. rewrite place_single, set_entry_same; auto.
  - rewrite place_cons, Ha, (IH m H), set_entry_same; auto.
Qed.

(* ===================================================================== *)
(** * Calls that succeed                                                  *)
(* ===================================================================== *)

Lemma sys_ok {A} c (step : node -> errno + (A * node)) fs0 a fs' :
  step fs0 = inr (a, fs') ->
  sys c step {| fs := fs0; faults := [] |} = (Ok a, {| fs := fs'; faults := [] |}, [Sys c None]).
Proof. intros H. unfold sys. simpl. rewrite H. reflexivity. Qed.

Lemma has_parent_nonempty p fs : has_parent p fs -> FS.lookup p fs = None -> p <> [].
Proof. intros _ H ->. destruct fs; discriminate. Qed.

Lemma removelast_snoc {A} (l : list A) x : removelast (l ++ [x]) = l.
Proof. apply removelast_last. Qed.

(** [os.makedirs] of a directory that is missing in an existing directory
    makes that one directory. *)
Lemma makedirs_new path fs :
  FS.lookup (Path.components path) fs = None ->
  has_parent (Path.components path) fs ->
  FS.makedirs path fs = inr (place (Path.components path) (Dir []) fs).
Proof.
  intros Hl Hp. pose proof (has_parent_nonempty _ _ Hp Hl) as Hne.
  unfold FS.makedirs.
  destruct (exists_last Hne) as (parent & c & E). rewrite E in *. clear E Hne.
  rewrite rev_app_distr. simpl rev at 1. simpl app.
  cbn [FS.makedirs_rev].
  assert (rev (c :: rev parent) = parent ++ [c]) as ->
    by (simpl; now rewrite rev_involutive).
  assert (FS.mkdir (parent ++ [c]) fs = inr (place (parent ++ [c]) (Dir []) fs)) as Hm.
  { unfold FS.mkdir. rewrite Hl. unfold FS.put_or_error. rewrite put_place; auto.
    now destruct parent. }
  destruct (rev parent) as [|s l] eqn:Er; [exact Hm |].
  rewrite <- Er, rev_involutive.
  destruct Hp as [es Hp]. rewrite removelast_snoc in Hp. rewrite Hp. exact Hm.
Qed.

(** [shutil.copy2] of a regular file to a name that is free in an existing
    directory adds the file there. *)
Lemma copy2_new src dst fs data mtime :
  FS.stat src fs = Some (File data mtime) ->
  normal_root dst = true ->
  FS.lookup (Path.components dst) fs = None ->
  has_parent (Path.components dst) fs ->
  FS.copy2 src dst fs = inr (place (Path.components dst) (File data mtime) fs).
Proof.
  intros Hs Hn Hl Hp. pose proof (has_parent_nonempty _ _ Hp Hl) as Hne.
  unfold FS.copy2, FS.copy_target. rewrite Hs, (stat_normal _ _ Hn), Hl.
  apply normal_root_inv in Hn as [_ ->].
  apply stat_file in Hs as (_ & _ & Hs).
  destruct (decide _) as [E | _]; [rewrite E in Hl; congruence |].
  rewrite Hl. unfold FS.put_or_error. now rewrite put_place.
Qed.

(* ===================================================================== *)
(** * Trees                                                               *)
(* ===================================================================== *)

Lemma well_formed_Dir es :
  well_formed (Dir es) <->
  NoDup (map fst es)
  /\ Forall (fun e => Path.valid_name (fst e) = true /\ well_formed (snd e)) es.
Proof.
  cbn [well_formed]. apply and_iff_compat_l.
  induction es as [|[name m] es IH].
  - split; [constructor | trivial].
  - rewrite Forall_cons_iff. simpl fst; simpl snd. rewrite <- IH. tauto.
Qed.

Lemma height_Dir es :
  height (Dir es) = S (list_max (map (fun e => height (snd e)) es)).
Proof.
  cbn [height]. f_equal. induction es as [|[name m] es IH]; [reflexivity |].
  simpl. now rewrite IH.
Qed.

Lemma height_entry es e : In e es -> S (height (snd e)) <= height (Dir es).
Proof.
  rewrite height_Dir. intros Hin. apply le_n_S.
  pose proof (list_max_le (map (fun e => height (snd e)) es)
                (list_max (map (fun e => height (snd e)) es))) as [H _].
  specialize (H (le_n _)). rewrite List.Forall_forall in H. apply H.
  apply in_map_iff. eauto.
Qed.

Lemma mirror_Dir es :
  mirror (Dir es) = Dir (file_entries es ++ map mirror_entry (dir_entries es)).
Proof.
  cbn [mirror]. f_equal. f_equal. unfold dir_entries.
  induction es as [|[name m] es IH]; [reflexivity |].
  destruct m as [d t|sub].
  - rewrite filter_cons_False by (simpl; discriminate). exact IH.
  - rewrite filter_cons_True by reflexivity. simpl map. rewrite <- IH. reflexivity.
Qed.

Lemma files_below_Dir top es :
  files_below top (Dir es)
  = list_to_set (map (fun e => Path.join top (fst e)) (file_entries es))
    ∪ ⋃ (map (fun e => files_below (Path.join top (fst e)) (snd e)) (dir_entries es)).
Proof.
  cbn [files_below]. unfold file_entries, dir_entries.
  induction es as [|[name m] es IH]; [simpl; set_solver |].
  destruct m as [d t|sub].
  - rewrite filter_cons_True by reflexivity.
    rewrite (filter_cons_False (fun e => FS.is_dir (snd e) = true)) by (simpl; discriminate).
    rewrite IH. simpl. set_solver.
  - rewrite (filter_cons_False (fun e => FS.is_dir (snd e) = false)) by (simpl; discriminate).
    rewrite (filter_cons_True (fun e => FS.is_dir (snd e) = true)) by reflexivity.
    rewrite IH. simpl. set_solver.
Qed.

Lemma scandir_Dir path fs es :
  FS.stat path fs = Some (Dir es) ->
  FS.scandir path fs = Some (map fst (dir_entries es), map fst (file_entries es)).
Proof. unfold FS.scandir. now intros ->. Qed.

(** The names of the files and then of the sub-directories of a directory
    are distinct when the names of the directory are. *)
Lemma partition_entries es : Permutation (file_entries es ++ dir_entries es) es.
Proof.
  unfold file_entries, dir_entries. induction es as [|[name m] es IH]; [reflexivity |].
  destruct m as [d t|sub].
  - rewrite filter_cons_True by reflexivity.
    rewrite (filter_cons_False (fun e => FS.is_dir (snd e) = true)) by (simpl; discriminate).
    simpl. now constructor.
  - rewrite (filter_cons_False (fun e => FS.is_dir (snd e) = false)) by (simpl; discriminate).
    rewrite (filter_cons_True (fun e => FS.is_dir (snd e) = true)) by reflexivity.
    rewrite <- Permutation_middle. now constructor.
Qed.

(** The names of the files and then of the sub-directories of a directory
    are distinct when the names of the directory are. *)
Lemma NoDup_partition es :
  NoDup (map fst es) -> NoDup (map fst (file_entries es ++ dir_entries es)).
Proof.
  intros H.
  assert (map fst (file_entries es ++ dir_entries es) ≡ₚ map fst es) as ->
    by apply Permutation_map, partition_entries.
  exact H.
Qed.

Lemma map_fst_mirror de : map fst (map mirror_entry de) = map fst de.
Proof. rewrite map_map. reflexivity. Qed.

(** ** Places below the two roots *)

Lemma diverge_app p q a b : diverge p q = true -> diverge (p ++ a) (q ++ b) = true.
Proof.
  revert q. induction p as [|x p IH]; intros [|y q]; simpl; try discriminate.
  destruct (String.eqb x y); auto.
Qed.

Lemma diverge_sym p q : diverge p q = diverge q p.
Proof.
  revert q. induction p as [|x p IH]; intros [|y q]; simpl; auto.
  rewrite (String.eqb_sym y x). destruct (String.eqb x y); auto.
Qed.

Lemma is_prefix_refl p : is_prefix p p = true.
Proof. induction p as [|c p IH]; [reflexivity |]. simpl. now rewrite String.eqb_refl. Qed.

Lemma is_prefix_app p q a : is_prefix p q = true -> is_prefix p (q ++ a) = true.
Proof.
  revert q. induction p as [|c p IH]; intros [|d q]; simpl; try discriminate; auto.
  rewrite !andb_true_iff. intros [-> H]. auto.
Qed.

Lemma paired_root source replica :
  normal_root source = true -> normal_root replica = true ->
  diverge (Path.components source) (Path.components replica) = true ->
  paired source replica (Path.components source) (Path.components replica) source replica.
Proof.
  intros Hs Hr Hd. repeat split; auto using is_prefix_refl.
  exists ""%string. now rewrite !append_empty_r.
Qed.

Lemma paired_child source replica S P top dtop name :
  Path.valid_name name = true ->
  paired source replica S P top dtop ->
  paired source replica (S ++ [name]) (P ++ [name]) (Path.join top name) (Path.join dtop name).
Proof.
  intros Hn ((x & -> & ->) & Ht & Hd & <- & <- & Hdiv & Hpre).
  rewrite !join_normal by assumption.
  repeat split.
  - exists (x +:+ "/" +:+ name)%string. now rewrite !append_assoc.
  - now apply normal_root_child.
  - now apply normal_root_child.
  - now apply components_child.
  - now apply components_child.
  - now apply diverge_app.
  - now apply is_prefix_app.
Qed.

Lemma paired_replace source replica S P top dtop :
  paired source replica S P top dtop ->
  Path.replace_first source replica top = dtop /\ Path.replace_first replica source dtop = top.
Proof. intros ((x & -> & ->) & _). now rewrite !replace_first_root. Qed.

(* ===================================================================== *)
(** * The forward pass into an empty replica                              *)
(* ===================================================================== *)

Lemma copy_file_with_retries_ok src dst n delay fs0 fs' :
  FS.copy2 src dst fs0 = inr fs' ->
  copy_file_with_retries src dst (S n) delay {| fs := fs0; faults := [] |}
  = (Ok true, {| fs := fs'; faults := [] |}, [Sys (Copy2 src dst) None]).
Proof.
  intros H. unfold copy_file_with_retries. simpl seq. cbn [copy_attempts].
  rewrite !bind_unfold. unfold try_except_IOError. rewrite bind_unfold.
  unfold shutil_copy2. rewrite (sys_ok _ _ _ tt fs') by (unfold mutate; now rewrite H).
  reflexivity.
Qed.

Lemma os_makedirs_ok path fs0 fs' :
  FS.makedirs path fs0 = inr fs' ->
  os_makedirs path {| fs := fs0; faults := [] |}
  = (Ok tt, {| fs := fs'; faults := [] |}, [Sys (Makedirs path) None]).
Proof.
  intros H. unfold os_makedirs. apply sys_ok. unfold mutate. now rewrite H.
Qed.

Lemma diverge_below p q b : diverge p q = true -> diverge q (p ++ b) = true.
Proof.
  intros H. rewrite <- (app_nil_r q). apply diverge_app. now rewrite diverge_sym.
Qed.

Section Mirroring.
Variables source replica : string.

(** A file of the source that the replica does not have is copied. *)
Lemma sync_file_creates ps pr top dtop name data mtime fs0 l :
  paired source replica ps pr top dtop ->
  Path.valid_name name = true ->
  FS.lookup (ps ++ [name]) fs0 = Some (File data mtime) ->
  FS.lookup (pr ++ [name]) fs0 = None ->
  (exists E, FS.lookup pr fs0 = Some (Dir E)) ->
  sync_file top dtop name l {| fs := fs0; faults := [] |}
  = (Ok (set_changes (add_files (Path.join top name) (Path.join dtop name) l)),
     {| fs := place (pr ++ [name]) (File data mtime) fs0; faults := [] |},
     [Sys (Copy2 (Path.join top name) (Path.join dtop name)) None;
      Log INFO (FileCreated (Path.join dtop name))]).
Proof.
  intros Hp Hn Hsrc Hdst [E HP].
  destruct (paired_child _ _ _ _ _ _ name Hn Hp) as (_ & Ht & Hd & Hcs & Hcd & _).
  rewrite sync_file_unfold. cbv zeta. rewrite bind_os_path_exists.
  unfold FS.exists_. rewrite (stat_normal _ _ Hd), Hcd. cbn [fs]. rewrite Hdst.
  unfold negb. cbv iota. unfold copy_and_report. rewrite bind_unfold.
  rewrite (copy_file_with_retries_ok _ _ 2 2 fs0 (place (pr ++ [name]) (File data mtime) fs0)).
  - reflexivity.
  - rewrite <- Hcd. apply copy2_new; try assumption.
    + now rewrite (stat_normal _ _ Ht), Hcs.
    + now rewrite Hcd.
    + rewrite Hcd. exists E. now rewrite removelast_snoc.
Qed.

(** The loop over the files of a source directory, in a replica directory
    that holds [E] and none of these files. *)
Lemma files_loop ps pr top dtop fs0 :
  paired source replica ps pr top dtop ->
  has_parent pr fs0 ->
  forall fe E l,
    Forall (fun e => Path.valid_name (fst e) = true /\ FS.is_dir (snd e) = false
                     /\ FS.lookup (ps ++ [fst e]) fs0 = Some (snd e)) fe ->
    NoDup (map fst (E ++ fe)) ->
    exists l' t,
      for_each (sync_file top dtop) (map fst fe) l
               {| fs := place pr (Dir E) fs0; faults := [] |}
      = (Ok l', {| fs := place pr (Dir (E ++ fe)) fs0; faults := [] |}, t)
      /\ source_files l' = source_files l
                           ∪ list_to_set (map (fun e => Path.join top (fst e)) fe)
      /\ count is_failure t = 0
      /\ stays_under replica t = true.
Proof.
  intros Hp Hpar. induction fe as [|[name m] fe IH]; intros E l Hfe Hnd.
  - exists l, []. rewrite app_nil_r. simpl. split; [reflexivity |].
    split; [set_solver | split; reflexivity].
  - apply Forall_cons_iff in Hfe as [(Hn & Hm & Hsrc) Hfe]. simpl in Hn, Hm, Hsrc.
    destruct m as [data mtime|]; [| discriminate].
    assert (FS.assoc name E = None) as Hfree.
    { apply assoc_None. rewrite map_app in Hnd. apply NoDup_app in Hnd as (_ & Hnd & _).
      intros Hin. apply (Hnd name); [now apply list_elem_of_In | simpl; left]. }
    pose proof (paired_child _ _ _ _ _ _ name Hn Hp) as (_ & _ & _ & _ & Hcd' & _ & Hpre').
    destruct Hp as (Hx & Ht & Hd & Hcs & Hcd & Hdiv & Hpre) eqn:HP. clear HP.
    simpl map. cbn [for_each]. rewrite bind_unfold.
    rewrite (sync_file_creates ps pr top dtop name data mtime).
    + rewrite place_child, (set_entry_new _ _ _ Hfree).
      destruct (IH (E ++ [(name, File data mtime)])
                  (set_changes (add_files (Path.join top name) (Path.join dtop name) l)) Hfe)
        as (l' & t & E' & Hs & Hc & Hu).
      { now rewrite <- app_assoc. }
      rewrite E'. exists l', ([Sys (Copy2 (Path.join top name) (Path.join dtop name)) None;
                               Log INFO (FileCreated (Path.join dtop name))] ++ t).
      split; [now rewrite <- app_assoc |]. split; [| split].
      * rewrite Hs. simpl. set_solver.
      * rewrite count_app, Hc. reflexivity.
      * unfold stays_under in *. rewrite forallb_app, Hu. cbn [forallb target].
        unfold under. now rewrite Hcd', Hpre'.
    + repeat split; assumption.
    + assumption.
    + rewrite lookup_place_diverge; [exact Hsrc |].
      now apply diverge_below.
    + rewrite lookup_place_below by assumption. rewrite lookup_cons, Hfree. reflexivity.
    + exists E. now apply lookup_place.
Qed.


Lemma lookup_child ps fs es name :
  FS.lookup ps fs = Some (Dir es) -> FS.lookup (ps ++ [name]) fs = FS.assoc name es.
Proof.
  intros H. rewrite lookup_app, H, lookup_cons. now destruct (FS.assoc name es).
Qed.

Lemma assoc_In es name m :
  NoDup (map fst es) -> In (name, m) es -> FS.assoc name es = Some m.
Proof.
  induction es as [|[k v] es IH]; intros Hnd Hin; [destruct Hin |].
  simpl in Hnd. apply NoDup_cons in Hnd as [Hk Hnd]. simpl.
  destruct Hin as [[= -> ->] | Hin]; [now rewrite String.eqb_refl |].
  destruct (String.eqb_spec name k) as [-> | _]; [| now apply IH].
  exfalso. apply Hk. apply list_elem_of_In, in_map_iff. now exists (k, m).
Qed.

(** What the walk needs to know of the files of a source directory. *)
Lemma file_entries_ready ps fs0 es :
  well_formed (Dir es) -> FS.lookup ps fs0 = Some (Dir es) ->
  Forall (fun e => Path.valid_name (fst e) = true /\ FS.is_dir (snd e) = false
                   /\ FS.lookup (ps ++ [fst e]) fs0 = Some (snd e)) (file_entries es).
Proof.
  intros Hwf HS. apply well_formed_Dir in Hwf as [Hnd Hall].
  apply List.Forall_forall. intros [name m] Hin.
  apply list_elem_of_In, list_elem_of_filter in Hin as [Hm Hin]. apply list_elem_of_In in Hin.
  rewrite List.Forall_forall in Hall. destruct (Hall _ Hin) as [Hv _].
  repeat split; auto. simpl. rewrite (lookup_child _ _ _ _ HS). now apply assoc_In.
Qed.

Lemma dir_entries_ready ps fs0 es fuel :
  well_formed (Dir es) -> FS.lookup ps fs0 = Some (Dir es) -> height (Dir es) <= S fuel ->
  Forall (fun e => Path.valid_name (fst e) = true /\ FS.is_dir (snd e) = true
                   /\ height (snd e) <= fuel /\ well_formed (snd e)
                   /\ FS.lookup (ps ++ [fst e]) fs0 = Some (snd e)) (dir_entries es).
Proof.
  intros Hwf HS Hh. apply well_formed_Dir in Hwf as [Hnd Hall].
  apply List.Forall_forall. intros [name m] Hin.
  apply list_elem_of_In, list_elem_of_filter in Hin as [Hm Hin]. apply list_elem_of_In in Hin.
  rewrite List.Forall_forall in Hall. destruct (Hall _ Hin) as [Hv Hw].
  pose proof (height_entry _ _ Hin) as Hle. cbn [snd] in Hle.
  repeat split; auto; [cbn [snd]; lia |]. simpl. rewrite (lookup_child _ _ _ _ HS). now apply assoc_In.
Qed.

(** The body of the forward loop on a source directory that the replica
    does not have, or has empty. *)
Lemma sync_source_dir_fills ps pr top dtop fs0 es l dirs :
  paired source replica ps pr top dtop ->
  well_formed (Dir es) ->
  FS.lookup ps fs0 = Some (Dir es) ->
  has_parent pr fs0 ->
  FS.lookup pr fs0 = None \/ FS.lookup pr fs0 = Some (Dir []) ->
  exists l' t,
    sync_source_dir source replica (top, dirs, map fst (file_entries es)) l
                    {| fs := fs0; faults := [] |}
    = (Ok l', {| fs := place pr (Dir (file_entries es)) fs0; faults := [] |}, t)
    /\ source_files l' = source_files l
                         ∪ list_to_set (map (fun e => Path.join top (fst e)) (file_entries es))
    /\ count is_failure t = 0
    /\ stays_under replica t = true.
Proof.
  intros Hp Hwf HS Hpar Hdst.
  destruct (files_loop ps pr top dtop fs0 Hp Hpar (file_entries es) [] l)
    as (l' & t & E & Hs & Hc & Hu).
  { now apply file_entries_ready. }
  { simpl. apply well_formed_Dir in Hwf as [Hnd _].
    apply NoDup_partition in Hnd. rewrite map_app in Hnd. now apply NoDup_app in Hnd as [Hnd _]. }
  simpl app in E.
  unfold sync_source_dir. rewrite (proj1 (paired_replace _ _ _ _ _ _ Hp)).
  rewrite bind_os_path_exists. cbn [fs].
  destruct Hp as (_ & _ & Hd & _ & Hcd & _ & Hpre).
  unfold FS.exists_. rewrite (stat_normal _ _ Hd), Hcd.
  destruct Hdst as [Hdst | Hdst]; rewrite Hdst; unfold negb; cbv iota.
  - rewrite !bind_unfold.
    rewrite (os_makedirs_ok dtop fs0 (place pr (Dir []) fs0))
      by (rewrite <- Hcd; apply makedirs_new; now rewrite Hcd).
    unfold log, emit. rewrite E.
    eexists l', _. split; [reflexivity |]. split; [exact Hs |].
    split; [simpl; exact Hc |].
    unfold stays_under in *. cbn [app forallb target]. rewrite Hu.
    unfold under. now rewrite Hcd, Hpre.
  - rewrite bind_ret_l. rewrite (place_same _ _ _ Hdst) in E. rewrite E.
    exists l', t. auto.
Qed.

(** The loop over the sub-directories of a source directory, given the
    forward pass on what is below them. *)
Lemma dirs_loop fuel ps pr top dtop fs0 :
  forward_spec source replica fuel ->
  paired source replica ps pr top dtop ->
  has_parent pr fs0 ->
  forall de E l,
    Forall (fun e => Path.valid_name (fst e) = true /\ FS.is_dir (snd e) = true
                     /\ height (snd e) <= fuel /\ well_formed (snd e)
                     /\ FS.lookup (ps ++ [fst e]) fs0 = Some (snd e)) de ->
    NoDup (map fst (E ++ de)) ->
    exists l' t,
      for_each (fun dirname a =>
                  os_walk fuel true (sync_source_dir source replica) (Path.join top dirname) a)
               (map fst de) l {| fs := place pr (Dir E) fs0; faults := [] |}
      = (Ok l', {| fs := place pr (Dir (E ++ map mirror_entry de)) fs0; faults := [] |}, t)
      /\ source_files l' = source_files l
                           ∪ ⋃ (map (fun e => files_below (Path.join top (fst e)) (snd e)) de)
      /\ count is_failure t = 0
      /\ stays_under replica t = true.
Proof.
  intros IHfuel Hp Hpar. induction de as [|[name m] de IH]; intros E l Hde Hnd.
  - exists l, []. rewrite app_nil_r. simpl. split; [reflexivity |].
    split; [set_solver | split; reflexivity].
  - apply Forall_cons_iff in Hde as [(Hn & Hm & Hh & Hwf & Hsrc) Hde].
    simpl in Hn, Hm, Hh, Hwf, Hsrc.
    destruct m as [|sub]; [discriminate |].
    assert (FS.assoc name E = None) as Hfree.
    { apply assoc_None. rewrite map_app in Hnd. apply NoDup_app in Hnd as (_ & Hnd & _).
      intros Hin. apply (Hnd name); [now apply list_elem_of_In | simpl; left]. }
    pose proof (paired_child _ _ _ _ _ _ name Hn Hp) as Hp'.
    destruct Hp as (_ & _ & _ & _ & _ & Hdiv & _).
    simpl map. cbn [for_each]. rewrite bind_unfold.
    destruct (IHfuel sub (ps ++ [name]) (pr ++ [name]) (Path.join top name) (Path.join dtop name)
                (place pr (Dir E) fs0) l Hh Hwf Hp') as (l1 & t1 & E1 & Hs1 & Hc1 & Hu1).
    { rewrite lookup_place_diverge; [exact Hsrc | now apply diverge_below]. }
    { exists E. rewrite removelast_snoc. now apply lookup_place. }
    { left. rewrite lookup_place_below by assumption. now rewrite lookup_cons, Hfree. }
    rewrite E1, place_child, (set_entry_new _ _ _ Hfree).
    destruct (IH (E ++ [(name, mirror (Dir sub))]) l1 Hde) as (l' & t & E' & Hs & Hc & Hu).
    { rewrite <- app_assoc, map_app. simpl. now rewrite map_app in Hnd. }
    rewrite E'. exists l', (t1 ++ t). split; [now rewrite <- app_assoc |]. split; [| split].
    + rewrite Hs, Hs1. simpl. set_solver.
    + rewrite count_app, Hc1, Hc. reflexivity.
    + unfold stays_under in *. now rewrite forallb_app, Hu1, Hu.
Qed.

(** The forward pass fills an empty replica with the mirror of the source. *)
Lemma forward_fills fuel : forward_spec source replica fuel.
Proof.
  induction fuel as [|fuel IHfuel]; intros es ps pr top dtop fs0 l Hh Hwf Hp HS Hpar Hdst.
  - rewrite height_Dir in Hh. lia.
  - cbn [os_walk]. rewrite bind_os_scandir. cbn [fs].
    assert (FS.stat top fs0 = Some (Dir es)) as Hstat.
    { destruct Hp as (_ & Ht & _ & Hcs & _). now rewrite (stat_normal _ _ Ht), Hcs. }
    rewrite (scandir_Dir _ _ _ Hstat). rewrite bind_unfold.
    destruct (sync_source_dir_fills ps pr top dtop fs0 es l (map fst (dir_entries es))
                Hp Hwf HS Hpar Hdst) as (l1 & t1 & E1 & Hs1 & Hc1 & Hu1).
    rewrite E1.
    destruct (dirs_loop fuel ps pr top dtop fs0 IHfuel Hp Hpar (dir_entries es)
                (file_entries es) l1) as (l' & t & E' & Hs & Hc & Hu).
    { eapply dir_entries_ready; eassumption. }
    { apply well_formed_Dir in Hwf as [Hnd _]. now apply NoDup_partition. }
    rewrite E', mirror_Dir. exists l', (t1 ++ t). split; [reflexivity |]. split; [| split].
    + rewrite Hs, Hs1, files_below_Dir. set_solver.
    + rewrite count_app, Hc1, Hc. reflexivity.
    + unfold stays_under in *. now rewrite forallb_app, Hu1, Hu.
Qed.

End Mirroring.

(* ===================================================================== *)
(** * A replica that mirrors the source                                   *)
(* ===================================================================== *)

Lemma is_dir_mirror m : FS.is_dir (mirror m) = FS.is_dir m.
Proof. destruct m; [reflexivity | now rewrite mirror_Dir]. Qed.

Lemma mirror_File m : FS.is_dir m = false -> mirror m = m.
Proof. destruct m; [reflexivity | discriminate]. Qed.

Lemma filter_file_entries_id es : file_entries (file_entries es) = file_entries es.
Proof.
  unfold file_entries. induction es as [|e es IH]; [reflexivity |].
  destruct (FS.is_dir (snd e)) eqn:E.
  - rewrite filter_cons_False by congruence. exact IH.
  - rewrite !filter_cons_True by assumption. now rewrite IH.
Qed.

Lemma file_entries_of_dirs es : file_entries (map mirror_entry (dir_entries es)) = [].
Proof.
  unfold file_entries, dir_entries. induction es as [|e es IH]; [reflexivity |].
  destruct (FS.is_dir (snd e)) eqn:E.
  - rewrite filter_cons_True by assumption. simpl map.
    rewrite filter_cons_False by (simpl; rewrite is_dir_mirror; congruence). exact IH.
  - rewrite filter_cons_False by congruence. exact IH.
Qed.

Lemma dir_entries_of_files es : dir_entries (file_entries es) = [].
Proof.
  unfold file_entries, dir_entries. induction es as [|e es IH]; [reflexivity |].
  destruct (FS.is_dir (snd e)) eqn:E.
  - rewrite filter_cons_False by congruence. exact IH.
  - rewrite filter_cons_True by assumption. rewrite filter_cons_False by congruence. exact IH.
Qed.

Lemma dir_entries_of_dirs es :
  dir_entries (map mirror_entry (dir_entries es)) = map mirror_entry (dir_entries es).
Proof.
  unfold dir_entries. induction es as [|e es IH]; [reflexivity |].
  destruct (FS.is_dir (snd e)) eqn:E.
  - rewrite filter_cons_True by assumption. simpl map.
    rewrite filter_cons_True by (simpl; now rewrite is_dir_mirror). now rewrite IH.
  - rewrite filter_cons_False by congruence. exact IH.
Qed.

(** The listing of a mirrored directory. *)
Lemma mirror_listing es :
  file_entries (file_entries es ++ map mirror_entry (dir_entries es)) = file_entries es
  /\ dir_entries (file_entries es ++ map mirror_entry (dir_entries es))
     = map mirror_entry (dir_entries es).
Proof.
  split.
  - unfold file_entries at 1. rewrite filter_app. fold (file_entries (file_entries es)).
    fold (file_entries (map mirror_entry (dir_entries es))).
    now rewrite filter_file_entries_id, file_entries_of_dirs, app_nil_r.
  - unfold dir_entries at 1. rewrite filter_app. fold (dir_entries (file_entries es)).
    fold (dir_entries (map mirror_entry (dir_entries es))).
    now rewrite dir_entries_of_files, dir_entries_of_dirs.
Qed.

Lemma assoc_Some_In es name m : FS.assoc name es = Some m -> In (name, m) es.
Proof.
  induction es as [|[k v] es IH]; simpl; [discriminate |].
  destruct (String.eqb_spec name k) as [-> | _]; [intros [= ->]; now left | auto].
Qed.

(** A name of the source directory names in the mirror the mirror of what
    it names in the source. *)
Lemma assoc_mirror es name :
  NoDup (map fst es) ->
  FS.assoc name (file_entries es ++ map mirror_entry (dir_entries es))
  = option_map mirror (FS.assoc name es).
Proof.
  intros Hnd.
  assert (NoDup (map fst (file_entries es ++ map mirror_entry (dir_entries es)))) as Hnd'.
  { rewrite map_app, map_fst_mirror, <- map_app. now apply NoDup_partition. }
  destruct (FS.assoc name es) as [m|] eqn:Ha; simpl.
  - apply assoc_In; [exact Hnd' |]. apply assoc_Some_In in Ha.
    apply in_app_iff. destruct (FS.is_dir m) eqn:Hm.
    + right. apply in_map_iff. exists (name, m). split; [reflexivity |].
      apply list_elem_of_In, list_elem_of_filter. split; [exact Hm | now apply list_elem_of_In].
    + left. rewrite (mirror_File _ Hm).
      apply list_elem_of_In, list_elem_of_filter. split; [exact Hm | now apply list_elem_of_In].
  - apply assoc_None. apply assoc_None in Ha. intros Hin. apply Ha.
    rewrite map_app, map_fst_mirror, <- map_app in Hin.
    eapply Permutation_in; [| exact Hin]. apply Permutation_map, partition_entries.
Qed.

(** The mirror shows at every relative path what the source shows there. *)
Lemma lookup_mirror rel : forall m,
  well_formed m -> FS.lookup rel (mirror m) = option_map mirror (FS.lookup rel m).
Proof.
  induction rel as [|c rel IH]; intros m Hwf; [reflexivity |].
  destruct m as [d t|es]; [reflexivity |].
  rewrite mirror_Dir, !lookup_cons.
  apply well_formed_Dir in Hwf as [Hnd Hall]. rewrite (assoc_mirror _ _ Hnd).
  destruct (FS.assoc c es) as [m|] eqn:Ha; [| reflexivity].
  cbn [option_map]. apply IH. apply assoc_Some_In in Ha. rewrite List.Forall_forall in Hall.
  apply (Hall _ Ha).
Qed.

Lemma signature_mirror o : signature (option_map mirror o) = signature o.
Proof. destruct o as [[d t|es]|]; reflexivity. Qed.

Section Mirrored.
Variables source replica : string.

Lemma scandir_mirror dtop fs0 es :
  FS.stat dtop fs0 = Some (mirror (Dir es)) ->
  FS.scandir dtop fs0 = Some (map fst (dir_entries es), map fst (file_entries es)).
Proof.
  rewrite mirror_Dir. intros H. rewrite (scandir_Dir _ _ _ H).
  destruct (mirror_listing es) as [-> ->]. now rewrite map_fst_mirror.
Qed.

(** A sub-directory of a mirrored directory is mirrored. *)
Lemma lookup_mirror_child pr fs0 es name m :
  NoDup (map fst es) ->
  FS.lookup pr fs0 = Some (mirror (Dir es)) ->
  In (name, m) es ->
  FS.lookup (pr ++ [name]) fs0 = Some (mirror m).
Proof.
  intros Hnd Hl Hin. rewrite mirror_Dir in Hl.
  rewrite (lookup_child _ _ _ _ Hl), (assoc_mirror _ _ Hnd), (assoc_In _ _ _ Hnd Hin).
  reflexivity.
Qed.

(** ** The backward pass finds nothing to delete *)

Lemma keep_files top dtop w : forall names l,
  (forall name, In name names -> Path.join top name ∈ source_files l) ->
  for_each (delete_extra_file top dtop) names l w = (Ok l, w, []).
Proof.
  induction names as [|name names IH]; intros l H; [reflexivity |].
  cbn [for_each]. rewrite bind_unfold. unfold delete_extra_file at 1.
  rewrite decide_True by (apply H; now left).
  unfold ret at 1. rewrite IH by (intros n Hn; apply H; now right). reflexivity.
Qed.

Lemma backward_dirs fuel ps pr top dtop fs0 es l :
  backward_spec source replica fuel ->
  paired source replica ps pr top dtop ->
  well_formed (Dir es) -> height (Dir es) <= S fuel ->
  FS.lookup ps fs0 = Some (Dir es) ->
  FS.lookup pr fs0 = Some (mirror (Dir es)) ->
  files_below top (Dir es) ⊆ source_files l ->
  forall de,
    (forall e, In e de -> In e (dir_entries es)) ->
    for_each (fun dirname a =>
                os_walk fuel false (clean_replica_dir source replica) (Path.join dtop dirname) a)
             (map fst de) l {| fs := fs0; faults := [] |}
    = (Ok l, {| fs := fs0; faults := [] |}, []).
Proof.
  intros IHfuel Hp Hwf Hh HS HP Hsub.
  pose proof (dir_entries_ready ps fs0 es fuel Hwf HS Hh) as Hready.
  rewrite List.Forall_forall in Hready.
  induction de as [|[name m] de IH]; intros Hde; [reflexivity |].
  cbn [map for_each fst]. rewrite bind_unfold.
  assert (In (name, m) (dir_entries es)) as Hin by (apply Hde; now left).
  destruct (Hready _ Hin) as (Hn & Hm & Hhm & Hwm & Hsrc). cbn [fst snd] in *.
  destruct m as [|sub]; [discriminate |].
  assert (In (name, Dir sub) es) as Hin'.
  { apply list_elem_of_In, list_elem_of_filter in Hin as [_ Hin]. now apply list_elem_of_In. }
  rewrite (IHfuel sub (ps ++ [name]) (pr ++ [name]) (Path.join top name)).
  - rewrite IH by (intros e He; apply Hde; now right). reflexivity.
  - exact Hhm.
  - exact Hwm.
  - now apply paired_child.
  - exact Hsrc.
  - apply well_formed_Dir in Hwf as [Hnd _]. now apply (lookup_mirror_child pr fs0 es).
  - etransitivity; [| exact Hsub]. rewrite (files_below_Dir top es).
    intros x Hx. apply elem_of_union_r. apply elem_of_union_list.
    exists (files_below (Path.join top name) (Dir sub)). split; [| exact Hx].
    apply list_elem_of_In, in_map_iff. exists (name, Dir sub). auto.
Qed.

Lemma backward_keeps fuel : backward_spec source replica fuel.
Proof.
  induction fuel as [|fuel IHfuel]; intros es ps pr top dtop fs0 l Hh Hwf Hp HS HP Hsub.
  - rewrite height_Dir in Hh. lia.
  - cbn [os_walk]. rewrite bind_os_scandir. cbn [fs].
    assert (FS.stat dtop fs0 = Some (mirror (Dir es))) as Hstat.
    { destruct Hp as (_ & _ & Hd & _ & Hcd & _). now rewrite (stat_normal _ _ Hd), Hcd. }
    rewrite (scandir_mirror _ _ _ Hstat). rewrite bind_unfold.
    rewrite (backward_dirs fuel ps pr top dtop fs0 es l IHfuel Hp Hwf Hh HS HP Hsub)
      by auto.
    unfold clean_replica_dir. rewrite (proj2 (paired_replace _ _ _ _ _ _ Hp)).
    rewrite bind_unfold, keep_files.
    + rewrite bind_os_path_exists. cbn [fs]. unfold FS.exists_.
      destruct Hp as (_ & Ht & _ & Hcs & _). rewrite (stat_normal _ _ Ht), Hcs, HS.
      reflexivity.
    + intros name Hin. apply Hsub. rewrite files_below_Dir. apply elem_of_union_l.
      apply elem_of_list_to_set, list_elem_of_In.
      apply in_map_iff in Hin as (e & <- & He). apply in_map_iff. eauto.
Qed.

(** ** The forward pass finds every file equal *)

(** A file that the replica has with the same bytes is read twice and
    left alone. *)
Lemma sync_file_keeps ps pr top dtop name data mtime fs0 l :
  paired source replica ps pr top dtop ->
  Path.valid_name name = true ->
  FS.lookup (ps ++ [name]) fs0 = Some (File data mtime) ->
  FS.lookup (pr ++ [name]) fs0 = Some (File data mtime) ->
  sync_file top dtop name l {| fs := fs0; faults := [] |}
  = (Ok (add_files (Path.join top name) (Path.join dtop name) l),
     {| fs := fs0; faults := [] |},
     [Sys (Open (Path.join top name)) None; Sys (Open (Path.join dtop name)) None]).
Proof.
  intros Hp Hn Hsrc Hdst.
  destruct (paired_child _ _ _ _ _ _ name Hn Hp) as (_ & Ht & Hd & Hcs & Hcd & _).
  assert (FS.stat (Path.join top name) fs0 = Some (File data mtime)) as Hs
    by now rewrite (stat_normal _ _ Ht), Hcs.
  assert (FS.stat (Path.join dtop name) fs0 = Some (File data mtime)) as Hs'
    by now rewrite (stat_normal _ _ Hd), Hcd.
  rewrite sync_file_unfold. cbv zeta. rewrite bind_os_path_exists.
  unfold FS.exists_. cbn [fs]. rewrite Hs'. unfold negb. cbv iota.
  rewrite bind_unfold, (calculate_md5_readable _ _ data mtime) by (auto; reflexivity).
  cbn [fs faults tail].
  rewrite bind_unfold, (calculate_md5_readable _ _ data mtime) by (auto; reflexivity).
  rewrite decide_True by reflexivity. reflexivity.
Qed.

Lemma keep_loop ps pr top dtop fs0 :
  paired source replica ps pr top dtop ->
  forall fe l,
    Forall (fun e => Path.valid_name (fst e) = true /\ FS.is_dir (snd e) = false
                     /\ FS.lookup (ps ++ [fst e]) fs0 = Some (snd e)
                     /\ FS.lookup (pr ++ [fst e]) fs0 = Some (snd e)) fe ->
    exists l' t,
      for_each (sync_file top dtop) (map fst fe) l {| fs := fs0; faults := [] |}
      = (Ok l', {| fs := fs0; faults := [] |}, t)
      /\ source_files l' = source_files l
                           ∪ list_to_set (map (fun e => Path.join top (fst e)) fe)
      /\ changes l' = changes l
      /\ Forall (fun e => exists path, e = Sys (Open path) None) t.
Proof.
  intros Hp. induction fe as [|[name m] fe IH]; intros l Hfe.
  - exists l, []. simpl. split; [reflexivity |]. split; [set_solver |]. split; [reflexivity |].
    constructor.
  - apply Forall_cons_iff in Hfe as [(Hn & Hm & Hsrc & Hdst) Hfe]. cbn [fst snd] in *.
    destruct m as [data mtime|]; [| discriminate].
    simpl map. cbn [for_each]. rewrite bind_unfold.
    rewrite (sync_file_keeps ps pr top dtop name data mtime) by assumption.
    destruct (IH (add_files (Path.join top name) (Path.join dtop name) l) Hfe)
      as (l' & t & E & Hs & Hc & Ht).
    rewrite E. eexists l', _. split; [reflexivity |]. split; [| split].
    + rewrite Hs. simpl. set_solver.
    + rewrite Hc. reflexivity.
    + repeat (constructor; [eexists; reflexivity |]). exact Ht.
Qed.

Lemma forward_again_dirs fuel ps pr top dtop fs0 es :
  forward_again_spec source replica fuel ->
  paired source replica ps pr top dtop ->
  well_formed (Dir es) -> height (Dir es) <= S fuel ->
  FS.lookup ps fs0 = Some (Dir es) ->
  FS.lookup pr fs0 = Some (mirror (Dir es)) ->
  forall de l,
    (forall e, In e de -> In e (dir_entries es)) ->
    exists l' t,
      for_each (fun dirname a =>
                  os_walk fuel true (sync_source_dir source replica) (Path.join top dirname) a)
               (map fst de) l {| fs := fs0; faults := [] |}
      = (Ok l', {| fs := fs0; faults := [] |}, t)
      /\ source_files l' = source_files l
                           ∪ ⋃ (map (fun e => files_below (Path.join top (fst e)) (snd e)) de)
      /\ changes l' = changes l
      /\ Forall (fun e => exists path, e = Sys (Open path) None) t.
Proof.
  intros IHfuel Hp Hwf Hh HS HP.
  pose proof (dir_entries_ready ps fs0 es fuel Hwf HS Hh) as Hready.
  rewrite List.Forall_forall in Hready.
  induction de as [|[name m] de IH]; intros l Hde.
  - exists l, []. simpl. split; [reflexivity |]. split; [set_solver |]. split; [reflexivity |].
    constructor.
  - cbn [map for_each fst]. rewrite bind_unfold.
    assert (In (name, m) (dir_entries es)) as Hin by (apply Hde; now left).
    destruct (Hready _ Hin) as (Hn & Hm & Hhm & Hwm & Hsrc). cbn [fst snd] in *.
    destruct m as [|sub]; [discriminate |].
    assert (In (name, Dir sub) es) as Hin'.
    { apply list_elem_of_In, list_elem_of_filter in Hin as [_ Hin]. now apply list_elem_of_In. }
    destruct (IHfuel sub (ps ++ [name]) (pr ++ [name]) (Path.join top name)
                (Path.join dtop name) fs0 l Hhm Hwm) as (l1 & t1 & E1 & Hs1 & Hc1 & Ht1).
    { now apply paired_child. }
    { exact Hsrc. }
    { apply well_formed_Dir in Hwf as [Hnd _]. now apply (lookup_mirror_child pr fs0 es). }
    rewrite E1.
    destruct (IH l1) as (l' & t & E & Hs & Hc & Ht); [intros e He; apply Hde; now right |].
    rewrite E. exists l', (t1 ++ t). split; [reflexivity |]. split; [| split].
    + rewrite Hs, Hs1. simpl. set_solver.
    + congruence.
    + apply Forall_app. auto.
Qed.

Lemma files_mirrored ps pr fs0 es :
  well_formed (Dir es) ->
  FS.lookup ps fs0 = Some (Dir es) ->
  FS.lookup pr fs0 = Some (mirror (Dir es)) ->
  Forall (fun e => Path.valid_name (fst e) = true /\ FS.is_dir (snd e) = false
                   /\ FS.lookup (ps ++ [fst e]) fs0 = Some (snd e)
                   /\ FS.lookup (pr ++ [fst e]) fs0 = Some (snd e)) (file_entries es).
Proof.
  intros Hwf HS HP. pose proof (file_entries_ready ps fs0 es Hwf HS) as H.
  rewrite List.Forall_forall in H. apply List.Forall_forall. intros [name m] Hin.
  destruct (H _ Hin) as (Hn & Hm & Hsrc). repeat split; auto. cbn [fst snd] in *.
  apply well_formed_Dir in Hwf as [Hnd _].
  rewrite (lookup_mirror_child pr fs0 es name m Hnd HP), (mirror_File _ Hm); [reflexivity |].
  apply list_elem_of_In, list_elem_of_filter in Hin as [_ Hin]. now apply list_elem_of_In.
Qed.

Lemma forward_again fuel : forward_again_spec source replica fuel.
Proof.
  induction fuel as [|fuel IHfuel]; intros es ps pr top dtop fs0 l Hh Hwf Hp HS HP.
  - rewrite height_Dir in Hh. lia.
  - cbn [os_walk]. rewrite bind_os_scandir. cbn [fs].
    assert (FS.stat top fs0 = Some (Dir es)) as Hstat.
    { destruct Hp as (_ & Ht & _ & Hcs & _). now rewrite (stat_normal _ _ Ht), Hcs. }
    rewrite (scandir_Dir _ _ _ Hstat). rewrite bind_unfold.
    unfold sync_source_dir at 1. rewrite (proj1 (paired_replace _ _ _ _ _ _ Hp)).
    rewrite bind_os_path_exists. cbn [fs]. unfold FS.exists_.
    assert (FS.stat dtop fs0 = Some (mirror (Dir es))) as Hstat'.
    { destruct Hp as (_ & _ & Hd & _ & Hcd & _). now rewrite (stat_normal _ _ Hd), Hcd. }
    rewrite Hstat'. unfold negb. cbv iota. rewrite bind_ret_l.
    destruct (keep_loop ps pr top dtop fs0 Hp (file_entries es) l)
      as (l1 & t1 & E1 & Hs1 & Hc1 & Ht1); [now apply files_mirrored |].
    rewrite E1.
    destruct (forward_again_dirs fuel ps pr top dtop fs0 es IHfuel Hp Hwf Hh HS HP
                (dir_entries es) l1) as (l' & t & E & Hs & Hc & Ht); [auto |].
    rewrite E. exists l', (t1 ++ t). split; [reflexivity |]. split; [| split].
    + rewrite Hs, Hs1, files_below_Dir. set_solver.
    + congruence.
    + apply Forall_app. auto.
Qed.

End Mirrored.

(* ===================================================================== *)
(** * Runs between roots in normal form                                   *)
(* ===================================================================== *)

Lemma lookup_has_parent p fs n : p <> [] -> FS.lookup p fs = Some n -> has_parent p fs.
Proof.
  intros Hne H. destruct (exists_last Hne) as (q & c & ->).
  unfold has_parent. rewrite removelast_snoc. rewrite lookup_app in H.
  destruct (FS.lookup q fs) as [[d t|es]|]; try discriminate; eauto.
Qed.

Lemma diverge_nonempty p q : diverge p q = true -> p <> [] /\ q <> [].
Proof. destruct p, q; simpl; try discriminate. split; discriminate. Qed.

Lemma only_opens_quiet t :
  Forall (fun e => exists path, e = Sys (Open path) None) t ->
  has_change t = false /\ count is_failure t = 0
  /\ count is_copy_call t = 0 /\ count is_remove_call t = 0
  /\ forall root, stays_under root t = true.
Proof.
  induction 1 as [|e t (path & ->) _ (H1 & H2 & H3 & H4 & H5)].
  - repeat split.
  - repeat split; simpl; auto.
Qed.

Section Normal.
Variables (source replica : string) (fs0 : node) (es : list (string * node)) (fuel : nat).
Hypothesis Hsource : normal_root source = true.
Hypothesis Hreplica : normal_root replica = true.
Hypothesis Hdisjoint : diverge (Path.components source) (Path.components replica) = true.
Hypothesis Htree : FS.lookup (Path.components source) fs0 = Some (Dir es).
Hypothesis Hwf : well_formed (Dir es).
Hypothesis Hfuel : height (Dir es) <= fuel.

(** One run into an empty replica: the replica becomes the mirror of the
    source, nothing else in the file system changes, no call fails and
    every call that writes has its target under the replica root. *)
Lemma perform_sync_fills :
  FS.lookup (Path.components replica) fs0 = Some (Dir []) ->
  let fs1 := place (Path.components replica) (mirror (Dir es)) fs0 in
  exists t,
    perform_sync fuel source replica {| fs := fs0; faults := [] |}
    = (Ok (has_change t), {| fs := fs1; faults := [] |}, t)
    /\ count is_failure t = 0
    /\ stays_under replica t = true
    /\ FS.lookup (Path.components replica) fs1 = Some (mirror (Dir es))
    /\ (forall q, diverge (Path.components replica) q = true ->
                  FS.lookup q fs1 = FS.lookup q fs0).
Proof.
  intros Hempty fs1.
  pose proof (paired_root _ _ Hsource Hreplica Hdisjoint) as Hp.
  destruct (diverge_nonempty _ _ Hdisjoint) as [_ Hne].
  pose proof (lookup_has_parent _ _ _ Hne Hempty) as Hpar.
  set (l0 := {| changes := false; source_files := ∅; replica_files := ∅ |}).
  destruct (forward_fills source replica fuel es _ _ source replica fs0 l0
              Hfuel Hwf Hp Htree Hpar (or_intror Hempty)) as (l1 & t1 & E1 & Hs1 & Hc1 & Hu1).
  fold fs1 in E1.
  assert (FS.lookup (Path.components replica) fs1 = Some (mirror (Dir es))) as Hrep
    by now apply lookup_place.
  assert (forall q, diverge (Path.components replica) q = true ->
                    FS.lookup q fs1 = FS.lookup q fs0) as Hframe
    by (intros q Hq; now apply lookup_place_diverge).
  assert (perform_sync fuel source replica {| fs := fs0; faults := [] |}
          = (Ok (changes l1), {| fs := fs1; faults := [] |}, t1)) as E.
  { unfold perform_sync. fold l0. rewrite bind_unfold, E1, bind_unfold.
    rewrite (backward_keeps source replica fuel es _ _ source replica fs1 l1 Hfuel Hwf Hp).
    - simpl. now rewrite app_nil_r.
    - rewrite Hframe; [exact Htree | now rewrite diverge_sym].
    - exact Hrep.
    - rewrite Hs1. set_solver. }
  pose proof (perform_sync_flag fuel source replica {| fs := fs0; faults := [] |}) as Hflag.
  rewrite E in Hflag. rewrite Hflag in E. exists t1. auto.
Qed.

(** One run on a replica that mirrors the source: every file is read and
    found equal; nothing is copied, nothing is deleted, the file system
    stays as it is and the run returns [False]. *)
Lemma perform_sync_idle fs1 :
  FS.lookup (Path.components source) fs1 = Some (Dir es) ->
  FS.lookup (Path.components replica) fs1 = Some (mirror (Dir es)) ->
  exists t,
    perform_sync fuel source replica {| fs := fs1; faults := [] |}
    = (Ok false, {| fs := fs1; faults := [] |}, t)
    /\ Forall (fun e => exists path, e = Sys (Open path) None) t.
Proof.
  intros Hsrc Hrep.
  pose proof (paired_root _ _ Hsource Hreplica Hdisjoint) as Hp.
  set (l0 := {| changes := false; source_files := ∅; replica_files := ∅ |}).
  destruct (forward_again source replica fuel es _ _ source replica fs1 l0
              Hfuel Hwf Hp Hsrc Hrep) as (l1 & t1 & E1 & Hs1 & Hc1 & Ht1).
  exists t1. split; [| exact Ht1].
  unfold perform_sync. fold l0. rewrite bind_unfold, E1, bind_unfold.
  rewrite (backward_keeps source replica fuel es _ _ source replica fs1 l1 Hfuel Hwf Hp Hsrc Hrep).
  - simpl. now rewrite app_nil_r, Hc1.
  - rewrite Hs1. set_solver.
Qed.

(** X9: convergence, for roots in normal form: one run into an empty replica
    with no fault scheduled leaves a replica that shows, at every relative
    path, what the source shows there, and leaves the source as it was. *)
Theorem perform_sync_converges :
  FS.lookup (Path.components replica) fs0 = Some (Dir []) ->
  exists changed fs1 t,
    perform_sync fuel source replica {| fs := fs0; faults := [] |}
    = (Ok changed, {| fs := fs1; faults := [] |}, t)
    /\ count is_failure t = 0
    /\ converged source replica fs0 fs1
    /\ (forall rel, relative source fs1 rel = relative source fs0 rel).
Proof.
  intros Hempty. destruct (perform_sync_fills Hempty) as (t & E & Hc & _ & Hrep & Hframe).
  eexists _, _, t. split; [exact E |]. split; [exact Hc |].
  assert (FS.lookup (Path.components source)
            (place (Path.components replica) (mirror (Dir es)) fs0) = Some (Dir es)) as Hsrc
    by (rewrite Hframe; [exact Htree | now rewrite diverge_sym]).
  split.
  - intros rel. unfold relative. rewrite !stat_normal by assumption.
    rewrite Hrep, Htree, lookup_mirror by assumption. apply signature_mirror.
  - intros rel. unfold relative. rewrite !stat_normal by assumption.
    now rewrite Hsrc, Htree.
Qed.

(** X10: idempotence, for roots in normal form: after a run into an empty
    replica, a second run with the source unchanged returns [False],
    attempts no copy and no deletion, and changes nothing. *)
Theorem perform_sync_twice :
  FS.lookup (Path.components replica) fs0 = Some (Dir []) ->
  exists changed w1 t1 t2,
    perform_sync fuel source replica {| fs := fs0; faults := [] |} = (Ok changed, w1, t1)
    /\ perform_sync fuel source replica w1 = (Ok false, w1, t2)
    /\ count is_copy_call t2 = 0 /\ count is_remove_call t2 = 0
    /\ has_change t2 = false /\ count is_failure t2 = 0.
Proof.
  intros Hempty. destruct (perform_sync_fills Hempty) as (t1 & E1 & _ & _ & Hrep & Hframe).
  assert (FS.lookup (Path.components source)
            (place (Path.components replica) (mirror (Dir es)) fs0) = Some (Dir es)) as Hsrc
    by (rewrite Hframe; [exact Htree | now rewrite diverge_sym]).
  destruct (perform_sync_idle _ Hsrc Hrep) as (t2 & E2 & Ht2).
  destruct (only_opens_quiet _ Ht2) as (H1 & H2 & H3 & H4 & _).
  eexists _, _, t1, t2. split; [exact E1 |]. split; [exact E2 |]. auto.
Qed.

(** The frame, for roots in normal form: in these runs every call that
    writes or removes has its target under the replica root, and what is
    not under the replica root is left as it was. *)
Lemma perform_sync_stays_in_replica :
  FS.lookup (Path.components replica) fs0 = Some (Dir []) ->
  exists changed fs1 t,
    perform_sync fuel source replica {| fs := fs0; faults := [] |}
    = (Ok changed, {| fs := fs1; faults := [] |}, t)
    /\ stays_under replica t = true
    /\ (forall q, diverge (Path.components replica) q = true ->
                  FS.lookup q fs1 = FS.lookup q fs0).
Proof.
  intros Hempty. destruct (perform_sync_fills Hempty) as (t & E & _ & Hu & _ & Hframe).
  eexists _, _, t. eauto.
Qed.

End Normal.

(** ** An instance: the roots [/a/src] and [/b/rep] *)

Lemma fresh_source_well_formed : well_formed (Dir [("sub", Dir [("f.txt", File "x" 1)])]).
Proof.
  cbn [well_formed map fst].
  repeat split; try reflexivity; repeat (apply NoDup_cons_2; [set_solver |]); apply NoDup_nil_2.
Qed.

Lemma fresh_converges :
  exists changed fs1 t,
    perform_sync 5 "/a/src" "/b/rep" Scenario.fresh = (Ok changed, {| fs := fs1; faults := [] |}, t)
    /\ count is_failure t = 0
    /\ converged "/a/src" "/b/rep" (fs Scenario.fresh) fs1
    /\ (forall rel, relative "/a/src" fs1 rel = relative "/a/src" (fs Scenario.fresh) rel).
Proof.
  apply (perform_sync_converges "/a/src" "/b/rep" (fs Scenario.fresh)
           [("sub", Dir [("f.txt", File "x" 1)])] 5); try reflexivity.
  - exact fresh_source_well_formed.
  - vm_compute. lia.
Defined.

Lemma fresh_twice :
  exists changed w1 t1 t2,
    perform_sync 5 "/a/src" "/b/rep" Scenario.fresh = (Ok changed, w1, t1)
    /\ perform_sync 5 "/a/src" "/b/rep" w1 = (Ok false, w1, t2)
    /\ count is_copy_call t2 = 0 /\ count is_remove_call t2 = 0
    /\ has_change t2 = false /\ count is_failure t2 = 0.
Proof.
  apply (perform_sync_twice "/a/src" "/b/rep" (fs Scenario.fresh)
           [("sub", Dir [("f.txt", File "x" 1)])] 5); try reflexivity.
  - exact fresh_source_well_formed.
  - vm_compute. lia.
Defined.

(* ===================================================================== *)
(** * The frame: roots in normal form, any file system, any faults      *)
(* ===================================================================== *)

Lemma names_valid_Dir es :
  names_valid (Dir es) <->
  Forall (fun e => Path.valid_name (fst e) = true /\ names_valid (snd e)) es.
Proof.
  cbn [names_valid]. induction es as [|[name m] es IH].
  - split; [constructor | trivial].
  - rewrite Forall_cons_iff. simpl fst; simpl snd. rewrite <- IH. tauto.
Qed.

Lemma names_valid_assoc es c m :
  names_valid (Dir es) -> FS.assoc c es = Some m -> names_valid m.
Proof.
  rewrite names_valid_Dir, List.Forall_forall. intros H Ha.
  apply assoc_Some_In in Ha. apply (H _ Ha).
Qed.

Lemma names_valid_lookup p : forall fs m,
  names_valid fs -> FS.lookup p fs = Some m -> names_valid m.
Proof.
  induction p as [|c p IH]; intros fs m Hv H; [simpl in H; congruence |].
  destruct fs as [|es]; [discriminate |]. rewrite lookup_cons in H.
  destruct (FS.assoc c es) as [n|] eqn:Ha; [| discriminate].
  eapply IH; [| exact H]. eapply names_valid_assoc; eassumption.
Qed.

Lemma names_valid_set_entry c v es :
  names_valid (Dir es) ->
  match v with Some n => Path.valid_name c = true /\ names_valid n | None => True end ->
  names_valid (Dir (FS.set_entry c v es)).
Proof.
  rewrite !names_valid_Dir. intros H Hv. induction es as [|[k old] es IH].
  - destruct v; simpl; [| constructor]. constructor; [exact Hv | constructor].
  - apply Forall_cons_iff in H as [Hk H]. simpl.
    destruct (String.eqb_spec c k) as [-> | _].
    + destruct v; [| exact H]. constructor; [| exact H]. simpl. tauto.
    + constructor; [exact Hk | apply IH, H].
Qed.

(** What a change of one entry leaves of the file system. *)
Lemma put_frame p v : forall fs fs',
  FS.put p v fs = Some fs' ->
  (names_valid fs ->
   match v with Some n => Forall (fun c => Path.valid_name c = true) p /\ names_valid n
           | None => True end ->
   names_valid fs')
  /\ (forall q, diverge p q = true -> FS.lookup q fs' = FS.lookup q fs).
Proof.
  induction p as [|c p IH]; intros fs fs' H; [destruct fs; discriminate |].
  destruct fs as [|es]; [destruct p; discriminate |].
  destruct p as [|c' p].
  - rewrite put_single in H. revert H. intros [= <-]. split.
    + intros Hv Hn. apply names_valid_set_entry; [exact Hv |].
      destruct v; [| exact I]. destruct Hn as [Hp Hn]. split; [| exact Hn].
      now apply Forall_cons_iff in Hp as [Hp _].
    + intros [|b q] Hd; [discriminate |]. simpl in Hd.
      destruct (String.eqb_spec c b) as [-> | Hne]; [discriminate |].
      rewrite !lookup_cons, assoc_set_entry_ne; auto.
  - rewrite put_cons in H. destruct (FS.assoc c es) as [m|] eqn:Ha; [| discriminate].
    destruct (FS.put (c' :: p) v m) as [m'|] eqn:E; [| discriminate].
    revert H. intros [= <-]. destruct (IH m m' E) as [IHv IHf]. split.
    + intros Hv Hn. apply names_valid_set_entry; [exact Hv |]. split.
      * apply assoc_Some_In in Ha. rewrite names_valid_Dir, List.Forall_forall in Hv.
        apply (Hv _ Ha).
      * apply IHv; [eapply names_valid_assoc; eassumption |].
        destruct v; [| exact I]. destruct Hn as [Hp Hn]. split; [| exact Hn].
        now apply Forall_cons_iff in Hp as [_ Hp].
    + intros [|b q] Hd; [discriminate |]. simpl in Hd.
      destruct (String.eqb_spec c b) as [<- | Hne].
      * rewrite !lookup_cons, assoc_set_entry_eq, Ha. now apply IHf.
      * rewrite !lookup_cons, assoc_set_entry_ne; auto.
Qed.

Lemma put_or_error_frame p v fs fs' :
  FS.put_or_error p v fs = inr fs' -> FS.put p v fs = Some fs'.
Proof. unfold FS.put_or_error. destruct (FS.put p v fs); congruence. Qed.

(** The components of a path string are names. *)
Lemma split_no_sep s : Forall (fun c => Path.no_sep c = true) (Path.split s).
Proof.
  induction s as [|c s IH]; simpl; [repeat constructor |].
  destruct (Ascii.eqb c Path.sep) eqn:E; [constructor; [reflexivity | exact IH] |].
  destruct (Path.split s) as [|w ws]; [repeat constructor; simpl; now rewrite E |].
  apply Forall_cons_iff in IH as [Hw Hws]. constructor; [| exact Hws].
  simpl. now rewrite E, Hw.
Qed.

Lemma components_valid s : Forall (fun c => Path.valid_name c = true) (Path.components s).
Proof.
  unfold Path.components. apply List.Forall_forall. intros c Hc.
  apply list_elem_of_In, list_elem_of_filter in Hc as [Hs Hc].
  unfold Path.valid_name. rewrite Hs. simpl.
  pose proof (split_no_sep s) as H. rewrite List.Forall_forall in H.
  apply H. now apply list_elem_of_In.
Qed.

Lemma is_prefix_diverge p t : forall q,
  is_prefix p t = true -> diverge p q = true -> diverge t q = true.
Proof.
  revert t. induction p as [|a p IH]; intros t q Hp Hd; [discriminate |].
  destruct t as [|b t]; [discriminate |]. destruct q as [|c q]; [discriminate |].
  simpl in *. apply andb_true_iff in Hp as [Hab Hp]. apply String.eqb_eq in Hab as <-.
  destruct (String.eqb a c); [now apply IH | reflexivity].
Qed.

(** ** The frame of a call *)

Lemma put_has_parent p v : forall fs fs', FS.put p v fs = Some fs' -> has_parent p fs.
Proof.
  induction p as [|c p IH]; intros fs fs' H; [destruct fs; discriminate |].
  destruct fs as [|es]; [destruct p; discriminate |].
  destruct p as [|c' p]; [now exists es |].
  rewrite put_cons in H. destruct (FS.assoc c es) as [m|] eqn:Ha; [| discriminate].
  destruct (FS.put (c' :: p) v m) as [m'|] eqn:E; [| discriminate].
  apply (has_parent_cons _ _ _ _ _ Ha). eapply IH, E.
Qed.

Lemma lookup_put p n : forall fs fs',
  FS.put p (Some n) fs = Some fs' -> FS.lookup p fs' = Some n.
Proof.
  intros fs fs' H. pose proof (put_has_parent _ _ _ _ H) as Hp.
  assert (p <> []) as Hne by (intros ->; destruct fs; discriminate).
  rewrite (put_place p n fs Hne Hp) in H. injection H as <-. now apply lookup_place.
Qed.

Lemma within_refl root fs : within root fs fs.
Proof. split; auto. Qed.

Lemma put_within root p v fs fs' :
  FS.put_or_error p v fs = inr fs' ->
  is_prefix root p = true ->
  match v with Some n => Forall (fun c => Path.valid_name c = true) p /\ names_valid n
          | None => True end ->
  within root fs fs'.
Proof.
  intros H Hp Hv. apply put_or_error_frame, put_frame in H as [H1 H2]. split.
  - auto.
  - intros q Hq. apply H2. eapply is_prefix_diverge; eassumption.
Qed.

Lemma remove_within root path fs fs' :
  FS.remove path fs = inr fs' -> is_prefix root (Path.components path) = true ->
  within root fs fs'.
Proof.
  unfold FS.remove. destruct (FS.stat path fs) as [[|]|]; try discriminate.
  intros H Hp. eapply put_within; eauto. exact I.
Qed.

Lemma rmdir_within root path fs fs' :
  FS.rmdir path fs = inr fs' -> is_prefix root (Path.components path) = true ->
  within root fs fs'.
Proof.
  unfold FS.rmdir. destruct (FS.stat path fs) as [[|[|]]|]; try discriminate.
  intros H Hp. eapply put_within; eauto. exact I.
Qed.

Lemma stat_lookup path fs n :
  FS.stat path fs = Some n -> FS.lookup (Path.components path) fs = Some n.
Proof.
  unfold FS.stat. destruct path; [discriminate |].
  destruct (FS.lookup _ fs) as [[d t|es]|]; try congruence.
  destruct (Path.ends_with_sep _); congruence.
Qed.

Lemma put_on_file p v d t : FS.put p v (File d t) = None.
Proof. destruct p as [|c [|c' p]]; reflexivity. Qed.

Lemma last_valid l :
  l <> [] -> Forall (fun c => Path.valid_name c = true) l ->
  Path.valid_name (List.last l ""%string) = true.
Proof.
  intros Hne H. rewrite (app_removelast_last ""%string Hne) in H.
  apply Forall_app in H as [_ H]. now apply Forall_cons_iff in H as [H _].
Qed.

Lemma copy2_within root src dst fs fs' :
  FS.copy2 src dst fs = inr fs' -> is_prefix root (Path.components dst) = true ->
  within root fs fs'.
Proof.
  unfold FS.copy2. destruct (FS.stat src fs) as [[data mtime|]|] eqn:Hs; try discriminate.
  destruct (FS.copy_target src dst fs) as [e|target] eqn:Ht; [discriminate |].
  destruct (decide _); [discriminate |].
  intros H Hp.
  assert (FS.put_or_error target (Some (File data mtime)) fs = inr fs') as Hput
    by (destruct (FS.lookup target fs) as [[|]|]; congruence).
  clear H. unfold FS.copy_target in Ht.
  destruct (FS.stat dst fs) as [[|es]|] eqn:Hd.
  1,3: destruct (Path.ends_with_sep dst); [discriminate |]; injection Ht as <-;
       (eapply put_within; [exact Hput | exact Hp |]);
       split; [apply components_valid | exact I].
  injection Ht as <-. eapply put_within; [exact Hput | now apply is_prefix_app |].
  split; [| exact I]. apply Forall_app. split; [apply components_valid |].
  constructor; [| constructor]. apply last_valid; [| apply components_valid].
  intros E. apply stat_lookup in Hs. rewrite E in Hs. simpl in Hs. injection Hs as ->.
  apply put_or_error_frame in Hput. now rewrite put_on_file in Hput.
Qed.

Lemma diverge_snoc p c : forall q,
  diverge (p ++ [c]) q = true -> diverge p q = false ->
  exists x rest, q = p ++ x :: rest /\ x <> c.
Proof.
  induction p as [|a p IH]; intros [|b q]; simpl; try discriminate.
  - destruct (String.eqb_spec c b) as [-> | Hne]; [destruct q; discriminate |].
    intros _ _. exists b, q. split; [reflexivity | congruence].
  - destruct (String.eqb_spec a b) as [-> | Hne]; [| discriminate].
    intros H1 H2. destruct (IH q H1 H2) as (x & rest & -> & Hx). eauto.
Qed.

Lemma mkdir_put p fs fs' :
  FS.mkdir p fs = inr fs' -> FS.put p (Some (Dir [])) fs = Some fs'.
Proof.
  unfold FS.mkdir. destruct (FS.lookup p fs); [discriminate |]. apply put_or_error_frame.
Qed.

(** [os.makedirs] leaves an empty directory at its path, and what it makes
    on the way holds nothing else. *)
Lemma makedirs_rev_frame rp : forall fs fs',
  FS.makedirs_rev rp fs = inr fs' ->
  Forall (fun c => Path.valid_name c = true) rp ->
  FS.lookup (rev rp) fs' = Some (Dir [])
  /\ (names_valid fs -> names_valid fs')
  /\ (forall q, diverge (rev rp) q = true -> FS.lookup q fs' = FS.lookup q fs).
Proof.
  induction rp as [|c rhead IH]; intros fs fs' H Hv.
  - simpl in H. unfold FS.mkdir in H. simpl in H. discriminate.
  - apply Forall_cons_iff in Hv as [Hc Hv].
    assert (Forall (fun c => Path.valid_name c = true) (rev (c :: rhead))) as Hall.
    { simpl. apply Forall_app. split; [now apply Forall_rev | repeat constructor; exact Hc]. }
    cbn [FS.makedirs_rev] in H.
    assert (forall fs1, FS.mkdir (rev (c :: rhead)) fs1 = inr fs' ->
            (names_valid fs -> names_valid fs1) ->
            (forall q, diverge (rev (c :: rhead)) q = true -> FS.lookup q fs1 = FS.lookup q fs) ->
            FS.lookup (rev (c :: rhead)) fs' = Some (Dir [])
            /\ (names_valid fs -> names_valid fs')
            /\ (forall q, diverge (rev (c :: rhead)) q = true ->
                          FS.lookup q fs' = FS.lookup q fs)) as Hlast.
    { intros fs1 Hm Hv1 Hf1. apply mkdir_put in Hm.
      destruct (put_frame _ _ _ _ Hm) as [Hpv Hpf]. split; [eapply lookup_put, Hm |].
      split.
      - intros Hfs. apply Hpv; [auto |]. split; [exact Hall | exact I].
      - intros q Hq. rewrite (Hpf q Hq). auto. }
    destruct rhead as [|c' rhead']; [apply (Hlast fs H); auto |].
    destruct (FS.lookup (rev (c' :: rhead')) fs) eqn:Hl; [apply (Hlast fs H); auto |].
    destruct (FS.makedirs_rev (c' :: rhead') fs) as [e|fs1] eqn:Hrec.
    + destruct e; try discriminate. apply (Hlast fs H); auto.
    + destruct (IH fs fs1 Hrec Hv) as (Hnew & Hv1 & Hf1).
      apply (Hlast fs1 H Hv1). intros q Hq.
      destruct (diverge (rev (c' :: rhead')) q) eqn:Hd; [now apply Hf1 |].
      change (rev (c :: c' :: rhead')) with (rev (c' :: rhead') ++ [c]) in Hq.
      destruct (diverge_snoc _ _ _ Hq Hd) as (x & rest & -> & Hx).
      rewrite !lookup_app, Hnew, Hl. reflexivity.
Qed.

Lemma makedirs_within root path fs fs' :
  FS.makedirs path fs = inr fs' -> is_prefix root (Path.components path) = true ->
  within root fs fs'.
Proof.
  unfold FS.makedirs. intros H Hp.
  apply makedirs_rev_frame in H as (_ & Hv & Hf); [| apply Forall_rev, components_valid].
  rewrite rev_involutive in Hf. split; [exact Hv |].
  intros q Hq. apply Hf. eapply is_prefix_diverge; eassumption.
Qed.

(** ** The frame of a run *)

Lemma stays_under_app root t1 t2 :
  stays_under root (t1 ++ t2) = stays_under root t1 && stays_under root t2.
Proof. apply forallb_app. Qed.

Lemma real_names_valid : forall n, real_names n -> names_valid n.
Proof.
  fix IH 1. intros [d t|es]; [trivial |]. cbn [real_names names_valid].
  revert es. fix IHes 1. intros [|[name m] es]; [trivial |].
  intros (Hn & Hm & Hes). split; [| split; [apply IH, Hm | apply IHes, Hes]].
  unfold real_name in Hn. rewrite !andb_true_iff in Hn. tauto.
Qed.

Section Frame.
Variables source replica : string.

Lemma framed_refl w : framed replica w w [].
Proof. intros Hv. auto. Qed.

Lemma framed_trans w w1 w2 t1 t2 :
  framed replica w w1 t1 -> framed replica w1 w2 t2 -> framed replica w w2 (t1 ++ t2).
Proof.
  intros H1 H2 Hv. destruct (H1 Hv) as (Hv1 & S1 & F1). destruct (H2 Hv1) as (Hv2 & S2 & F2).
  split; [exact Hv2 |]. split; [now rewrite stays_under_app, S1, S2 |].
  intros q Hq. now rewrite F2, F1.
Qed.

(** A run may be taken to start in a file system with valid names. *)
Lemma frames_intro {A} (m : M A) w :
  (names_valid (fs w) -> let '(_, w', t) := m w in framed replica w w' t) ->
  let '(_, w', t) := m w in framed replica w w' t.
Proof. destruct (m w) as [[r w'] t]. intros H Hv. exact (H Hv Hv). Qed.

Lemma frames_ret {A} (a : A) : frames replica (ret a).
Proof. intros w. apply framed_refl. Qed.

Lemma frames_out_of_fuel {A} : frames replica (@out_of_fuel A).
Proof. intros w. apply framed_refl. Qed.

Lemma frames_bind {A B} (m : M A) (k : A -> M B) :
  frames replica m -> (forall a, frames replica (k a)) -> frames replica (bind m k).
Proof.
  intros Hm Hk w. rewrite bind_unfold. specialize (Hm w).
  destruct (m w) as [[[a | e |] w1] t1]; try assumption.
  specialize (Hk a w1). destruct (k a w1) as [[r w2] t2]. eapply framed_trans; eassumption.
Qed.

Lemma frames_os_path_exists path : frames replica (os_path_exists path).
Proof. intros w. apply framed_refl. Qed.

Lemma frames_log lv m : frames replica (log lv m).
Proof. intros w Hv. auto. Qed.

Lemma frames_sleep n : frames replica (sleep n).
Proof. intros w Hv. auto. Qed.

Lemma frames_try_except_IOError {A} (body : M A) handler :
  frames replica body -> (forall e, frames replica (handler e)) ->
  frames replica (try_except_IOError body handler).
Proof.
  intros Hb Hh w. unfold try_except_IOError. specialize (Hb w).
  destruct (body w) as [[[a | [e|] |] w1] t1]; try assumption.
  specialize (Hh e w1). destruct (handler e w1) as [[r w2] t2].
  eapply framed_trans; eassumption.
Qed.

(** A call frames the run when its target is under the replica root and
    its effect is confined to it. *)
Lemma frames_sys {A} c (step : node -> errno + (A * node)) :
  match target (Sys c None) with Some p => under replica p = true | None => True end ->
  (forall fs0 a fs', step fs0 = inr (a, fs') -> within (Path.components replica) fs0 fs') ->
  frames replica (sys c step).
Proof.
  intros Ht Hs w.
  assert (forall f, stays_under replica [Sys c f] = true) as Hst.
  { intros f. unfold stays_under. simpl forallb. rewrite andb_true_r.
    destruct c; simpl in *; auto. }
  destruct (sys_cases c step w) as [(a & fs' & E1 & E) | (e & E)]; rewrite E; intros Hv.
  - destruct (Hs _ _ _ E1) as [H1 H2]. cbn [fs]. auto.
  - cbn [fs]. auto.
Qed.

Lemma frames_mutate c (f : node -> errno + node) :
  match target (Sys c None) with Some p => under replica p = true | None => True end ->
  (forall fs0 fs', f fs0 = inr fs' -> within (Path.components replica) fs0 fs') ->
  frames replica (sys c (mutate f)).
Proof.
  intros Ht Hf. apply frames_sys; [exact Ht |]. intros fs0 [] fs'. unfold mutate.
  destruct (f fs0) as [e|fs1] eqn:E; [discriminate |]. intros [= <-]. auto.
Qed.

Lemma frames_open_read path : frames replica (open_read path).
Proof.
  apply frames_sys; [exact I |]. intros fs0 a fs'.
  destruct (FS.read_bytes path fs0); [discriminate |]. intros [= _ <-]. apply within_refl.
Qed.

Lemma frames_calculate_md5 path : frames replica (calculate_md5 path).
Proof.
  apply frames_try_except_IOError.
  - apply frames_bind; [apply frames_open_read | intros; apply frames_ret].
  - intros e. apply frames_bind; [apply frames_log | intros; apply frames_ret].
Qed.

Lemma frames_shutil_copy2 src dst :
  under replica dst = true -> frames replica (shutil_copy2 src dst).
Proof.
  intros H. apply frames_mutate; [exact H |]. intros fs0 fs' E. eapply copy2_within; eauto.
Qed.

Lemma frames_os_makedirs path :
  under replica path = true -> frames replica (os_makedirs path).
Proof.
  intros H. apply frames_mutate; [exact H |]. intros fs0 fs' E. eapply makedirs_within; eauto.
Qed.

Lemma frames_os_remove path :
  under replica path = true -> frames replica (os_remove path).
Proof.
  intros H. apply frames_mutate; [exact H |]. intros fs0 fs' E. eapply remove_within; eauto.
Qed.

Lemma frames_os_rmdir path :
  under replica path = true -> frames replica (os_rmdir path).
Proof.
  intros H. apply frames_mutate; [exact H |]. intros fs0 fs' E. eapply rmdir_within; eauto.
Qed.

Lemma frames_copy_attempts src dst delay attempts :
  under replica dst = true -> frames replica (copy_attempts src dst delay attempts).
Proof.
  intros H. induction attempts as [|a attempts IH]; [apply frames_ret |].
  cbn [copy_attempts]. apply frames_bind.
  - apply frames_try_except_IOError.
    + apply frames_bind; [now apply frames_shutil_copy2 | intros; apply frames_ret].
    + intros e. apply frames_bind; [apply frames_log |]. intros _.
      apply frames_bind; [apply frames_sleep | intros; apply frames_ret].
  - intros [b|]; [apply frames_ret | exact IH].
Qed.

Lemma frames_copy_file_with_retries src dst max_retries delay :
  under replica dst = true ->
  frames replica (copy_file_with_retries src dst max_retries delay).
Proof.
  intros H. apply frames_bind; [now apply frames_copy_attempts |].
  intros [|]; [apply frames_ret |].
  apply frames_bind; [apply frames_log | intros; apply frames_ret].
Qed.

Lemma frames_for_each {X A} (P : X -> Prop) (body : X -> A -> M A) xs :
  Forall P xs -> (forall x a, P x -> frames replica (body x a)) ->
  forall a, frames replica (for_each body xs a).
Proof.
  intros Hxs Hb. induction Hxs as [|x xs Hx Hxs IH]; intros a; [apply frames_ret |].
  cbn [for_each]. apply frames_bind; auto.
Qed.

Lemma scandir_valid top fs0 dirs files :
  names_valid fs0 -> FS.scandir top fs0 = Some (dirs, files) ->
  Forall (fun c => Path.valid_name c = true) dirs
  /\ Forall (fun c => Path.valid_name c = true) files.
Proof.
  intros Hv. unfold FS.scandir. destruct (FS.stat top fs0) as [[|es]|] eqn:Hs; try discriminate.
  intros [= <- <-]. apply stat_lookup in Hs. apply (names_valid_lookup _ _ _ Hv) in Hs.
  rewrite names_valid_Dir, List.Forall_forall in Hs.
  split; apply List.Forall_forall; intros c Hc; apply in_map_iff in Hc as (e & <- & He);
    apply list_elem_of_In, list_elem_of_filter in He as [_ He];
    apply list_elem_of_In in He; apply (Hs _ He).
Qed.

(** The walk frames the run when its body does at every directory it
    reaches. *)
Lemma frames_os_walk {A} (Q : string -> Prop) fuel topdown
    (body : string * list string * list string -> A -> M A) :
  (forall top dirs files a, Q top ->
     Forall (fun c => Path.valid_name c = true) files ->
     frames replica (body (top, dirs, files) a)) ->
  (forall top d, Q top -> Path.valid_name d = true -> Q (Path.join top d)) ->
  forall top a, Q top -> frames replica (os_walk fuel topdown body top a).
Proof.
  intros Hb Hq. induction fuel as [|fuel IH]; intros top a Htop w.
  - apply framed_refl.
  - apply frames_intro. intros Hv. cbn [os_walk]. rewrite bind_os_scandir.
    destruct (FS.scandir top (fs w)) as [[dirs nondirs]|] eqn:Hs; [| apply framed_refl].
    destruct (scandir_valid _ _ _ _ Hv Hs) as [Hd Hf].
    set (sub := fun (dirname : string) (a : A) =>
                  os_walk fuel topdown body (Path.join top dirname) a).
    assert (forall a, frames replica (for_each sub dirs a)) as Hsub.
    { apply (frames_for_each _ _ _ Hd). intros d a' Hvd. apply IH. now apply Hq. }
    destruct topdown.
    + exact (frames_bind (body (top, dirs, nondirs) a) _ (Hb _ _ _ _ Htop Hf) Hsub w).
    + exact (frames_bind (for_each sub dirs a) _ (Hsub a) (fun a' => Hb _ _ _ a' Htop Hf) w).
Qed.


Lemma paired_under ps pr top dtop :
  paired source replica ps pr top dtop -> under replica dtop = true.
Proof. intros (_ & _ & _ & _ & <- & _ & H). exact H. Qed.

Lemma frames_sync_file ps pr top dtop name l :
  paired source replica ps pr top dtop -> Path.valid_name name = true ->
  frames replica (sync_file top dtop name l).
Proof.
  intros Hp Hn. pose proof (paired_under _ _ _ _ (paired_child _ _ _ _ _ _ name Hn Hp)) as Hu.
  unfold sync_file. apply frames_bind; [apply frames_os_path_exists |]. intros present.
  assert (forall m l', frames replica
            (copied <- copy_file_with_retries (Path.join top name) (Path.join dtop name) 3 2 ;;
             if copied then log INFO m ;; ret (set_changes l') else ret l')) as Hcopy.
  { intros m l'. apply frames_bind; [now apply frames_copy_file_with_retries |].
    intros [|]; [| apply frames_ret].
    apply frames_bind; [apply frames_log | intros; apply frames_ret]. }
  destruct (negb present); [apply Hcopy |].
  apply frames_bind; [apply frames_calculate_md5 |]. intros src_md5.
  apply frames_bind; [apply frames_calculate_md5 |]. intros dst_md5.
  destruct (decide _); [apply frames_ret | apply Hcopy].
Qed.

Lemma frames_sync_source_dir ps pr top dtop dirs files l :
  paired source replica ps pr top dtop ->
  Forall (fun c => Path.valid_name c = true) files ->
  frames replica (sync_source_dir source replica (top, dirs, files) l).
Proof.
  intros Hp Hf. unfold sync_source_dir.
  destruct (paired_replace _ _ _ _ _ _ Hp) as [-> _].
  apply frames_bind; [apply frames_os_path_exists |]. intros present.
  apply frames_bind.
  - destruct (negb present); [| apply frames_ret].
    apply frames_bind; [apply frames_os_makedirs; eapply paired_under, Hp |].
    intros _. apply frames_log.
  - intros _. apply (frames_for_each _ _ _ Hf). intros f l' Hvf.
    eapply frames_sync_file; eassumption.
Qed.

Lemma frames_delete_extra_file ps pr top dtop name l :
  paired source replica ps pr top dtop -> Path.valid_name name = true ->
  frames replica (delete_extra_file top dtop name l).
Proof.
  intros Hp Hn. pose proof (paired_under _ _ _ _ (paired_child _ _ _ _ _ _ name Hn Hp)) as Hu.
  unfold delete_extra_file. destruct (decide _); [apply frames_ret |].
  apply frames_try_except_IOError.
  - apply frames_bind; [now apply frames_os_remove |]. intros _.
    apply frames_bind; [apply frames_log | intros; apply frames_ret].
  - intros e. apply frames_bind; [apply frames_log | intros; apply frames_ret].
Qed.

Lemma frames_clean_replica_dir ps pr top dtop dirs files l :
  paired source replica ps pr top dtop ->
  Forall (fun c => Path.valid_name c = true) files ->
  frames replica (clean_replica_dir source replica (dtop, dirs, files) l).
Proof.
  intros Hp Hf. unfold clean_replica_dir.
  destruct (paired_replace _ _ _ _ _ _ Hp) as [_ ->].
  apply frames_bind.
  - apply (frames_for_each _ _ _ Hf). intros f l' Hvf.
    eapply frames_delete_extra_file; eassumption.
  - intros l'. apply frames_bind; [apply frames_os_path_exists |]. intros present.
    destruct (negb present); [| apply frames_ret].
    apply frames_bind; [apply frames_os_rmdir; eapply paired_under, Hp |]. intros _.
    apply frames_bind; [apply frames_log | intros; apply frames_ret].
Qed.

Lemma perform_sync_frames fuel :
  normal_root source = true -> normal_root replica = true ->
  diverge (Path.components source) (Path.components replica) = true ->
  frames replica (perform_sync fuel source replica).
Proof.
  intros Hs Hr Hd. pose proof (paired_root _ _ Hs Hr Hd) as Hroot.
  unfold perform_sync. apply frames_bind; [| intros l1; apply frames_bind].
  - apply (frames_os_walk (fun top => exists ps pr dtop, paired source replica ps pr top dtop)).
    + intros top dirs files l (ps & pr & dtop & Hp) Hf.
      eapply frames_sync_source_dir; eassumption.
    + intros top d (ps & pr & dtop & Hp) Hv. do 3 eexists. eapply paired_child; eassumption.
    + eauto.
  - apply (frames_os_walk (fun dtop => exists ps pr top, paired source replica ps pr top dtop)).
    + intros dtop dirs files l (ps & pr & top & Hp) Hf.
      eapply frames_clean_replica_dir; eassumption.
    + intros dtop d (ps & pr & top & Hp) Hv. do 3 eexists. eapply paired_child; eassumption.
    + eauto.
  - intros l2. apply frames_ret.
Qed.

(** X11: between two plain roots written in normal form, neither of which
    is the other or a place below it, every run of [perform_sync] on a
    tree of real names, whatever it holds and whichever calls fail,
    directs its changes at places under the replica root and leaves
    everything else as it was. *)
Theorem perform_sync_frame fuel w :
  normal_root source = true -> normal_root replica = true ->
  plain source = true -> plain replica = true ->
  diverge (Path.components source) (Path.components replica) = true ->
  real_names (fs w) ->
  let '(_, w', t) := perform_sync fuel source replica w in
  stays_under replica t = true
  /\ (forall q, diverge (Path.components replica) q = true ->
                FS.lookup q (fs w') = FS.lookup q (fs w)).
Proof.
  intros Hs Hr _ _ Hd Hv.
  pose proof (perform_sync_frames fuel Hs Hr Hd w) as F.
  destruct (perform_sync fuel source replica w) as [[r w'] t].
  apply F. now apply real_names_valid.
Qed.

End Frame.

(** An instance with a refused removal: the run stays under [/b/rep] and
    leaves [/a] as it was. *)
Lemma perform_sync_frame_witness :
  normal_root "/a/src" = true /\ normal_root "/b/rep" = true
  /\ plain "/a/src" = true /\ plain "/b/rep" = true
  /\ diverge (Path.components "/a/src") (Path.components "/b/rep") = true
  /\ real_names (fs Scenario.junk)
  /\ (let '(_, w', t) := perform_sync 5 "/a/src" "/b/rep" Scenario.junk in
      stays_under "/b/rep" t = true
      /\ FS.lookup ["a"] (fs w') = FS.lookup ["a"] (fs Scenario.junk)).
Proof.
  assert (real_names (fs Scenario.junk)) as Hv by (vm_compute; tauto).
  split; [reflexivity |]. split; [reflexivity |]. split; [reflexivity |].
  split; [reflexivity |]. split; [reflexivity |]. split; [exact Hv |].
  pose proof (perform_sync_frame "/a/src" "/b/rep" 5 Scenario.junk
                eq_refl eq_refl eq_refl eq_refl eq_refl Hv) as F.
  destruct (perform_sync 5 "/a/src" "/b/rep" Scenario.junk) as [[r w'] t].
  destruct F as (Hs & Hf). split; [exact Hs | now apply Hf].
Defined.

(* ===================================================================== *)
(** * Further properties of the digest and of the copier                  *)
(* ===================================================================== *)

Lemma take_bytes_length n s : String.length (take_bytes n s) <= n.
Proof. revert s. induction n as [|n IH]; intros [|c s]; simpl; try lia. specialize (IH s). lia. Qed.

Lemma read_chunks_bounds size rounds : forall rest,
  Forall (fun c => 0 < String.length c <= size) (read_chunks rounds size rest).
Proof.
  induction rounds as [|r IH]; intros rest; [constructor |]. simpl.
  destruct (take_bytes size rest) as [|c chunk] eqn:E; [constructor |].
  constructor; [| apply IH]. pose proof (take_bytes_length size rest) as H.
  rewrite E in H. simpl in *. lia.
Qed.

(** X1: the digest [calculate_md5] returns for a regular file that can be
    opened is the MD5 of the whole content, whatever its length: the file
    is read in chunks of at most 4096 bytes, none empty, that put end to
    end are the content. The file system is not changed. *)
Theorem calculate_md5_reads_whole_file (file_path : string) (w : world)
    (data : string) (mtime : Z)
    (Hfile : FS.stat file_path (fs w) = Some (File data mtime))
    (Hopen : next_fault (faults w) = None) :
  let chunks := read_chunks (String.length data) 4096 data in
  Forall (fun c => 0 < String.length c <= 4096) chunks
  /\ fold_left md5_update chunks md5_new = data
  /\ calculate_md5 file_path w
     = (Ok (Some (MD5.hexdigest data)), {| fs := fs w; faults := tail (faults w) |},
        [Sys (Open file_path) None]).
Proof.
  split; [apply read_chunks_bounds |]. split.
  - rewrite read_chunks_whole; [reflexivity | lia | lia].
  - eapply calculate_md5_readable; eassumption.
Qed.

Lemma calculate_md5_reads_whole_file_witness :
  FS.stat "/a/src/f.txt" (fs (World (fs Scenario.unreadable) [])) = Some (File "new" 2)
  /\ next_fault (faults (World (fs Scenario.unreadable) [])) = None
  /\ calculate_md5 "/a/src/f.txt" (World (fs Scenario.unreadable) [])
     = (Ok (Some (MD5.hexdigest "new")), World (fs Scenario.unreadable) [],
        [Sys (Open "/a/src/f.txt") None]).
Proof.
  split; [reflexivity |]. split; [reflexivity |].
  exact (proj2 (proj2 (calculate_md5_reads_whole_file "/a/src/f.txt"
                         (World (fs Scenario.unreadable) []) "new" 2 eq_refl eq_refl))).
Defined.

(** X2: on a path without a null byte, [calculate_md5] never raises an
    [OSError] and never changes the file system. It makes one call,
    [open]: when the call succeeds the result is the digest of the bytes
    read; when it fails with an [OSError], for a missing file, a directory
    or any fault, the result is [None] after exactly one error record; a
    [KeyboardInterrupt] is the one exception that leaves it. (On a path
    with a null byte [open] raises [ValueError], which is not caught: the
    model of [open] does not speak for such a path.) *)
Theorem calculate_md5_outcomes (file_path : string) (w : world)
    (Hpath : has_nul file_path = false) :
  let '(r, w', t) := calculate_md5 file_path w in
  fs w' = fs w /\ faults w' = tail (faults w)
  /\ match r with
     | Ok (Some h) =>
         t = [Sys (Open file_path) None]
         /\ exists data, FS.read_bytes file_path (fs w) = inr data /\ h = MD5.hexdigest data
     | Ok None =>
         exists e, t = [Sys (Open file_path) (Some (OSError e));
                        Log ERROR (Md5Unreadable file_path e)]
     | Raised KeyboardInterrupt => t = [Sys (Open file_path) (Some KeyboardInterrupt)]
     | Raised (OSError _) => False
     | OutOfFuel => False
     end.
Proof.
  destruct (calculate_md5_cases file_path w) as [(d & Hr & _ & E) | [(e & E & _) | (E & _)]];
    rewrite E; cbn [fs faults]; eauto 10.
Qed.

Lemma calculate_md5_outcomes_witness :
  has_nul "/a/src/sub/f.txt" = false
  /\ (let '(r, w', t) := calculate_md5 "/a/src/sub/f.txt" Scenario.fresh in
      fs w' = fs Scenario.fresh
      /\ match r with Raised (OSError _) => False | _ => True end).
Proof.
  split; [reflexivity |].
  pose proof (calculate_md5_outcomes "/a/src/sub/f.txt" Scenario.fresh eq_refl) as H.
  destruct (calculate_md5 "/a/src/sub/f.txt" Scenario.fresh) as [[r w'] t].
  destruct H as (H1 & _ & H2). split; [exact H1 |].
  destruct r as [h | [e|] |]; [exact I | exact H2 | exact I | exact I].
Defined.

(** ** The copier *)

Lemma total_sleep_app t1 t2 : total_sleep (t1 ++ t2) = total_sleep t1 + total_sleep t2.
Proof.
  induction t1 as [|e t1 IH]; [reflexivity |]. destruct e; simpl; rewrite IH; lia.
Qed.

Lemma copy_attempts_given_up src dst delay n : forall a w,
  every_attempt_fails src dst w n = true ->
  exists t,
    copy_attempts src dst delay (seq a n) w
    = (Ok false, {| fs := fs w; faults := drop n (faults w) |}, t)
    /\ total_sleep t = n * delay
    /\ (n <> 0 -> exists t0, t = t0 ++ [Sleep delay]).
Proof.
  induction n as [|n IH]; intros a w H.
  - exists []. simpl. unfold ret. rewrite drop_0. destruct w; auto. repeat split. congruence.
  - unfold every_attempt_fails in H. simpl in H. apply andb_true_iff in H as [H0 H].
    destruct (shutil_copy2_fails _ _ _ H0) as (e & E).
    destruct (IH (S a) {| fs := fs w; faults := tail (faults w) |} H) as (t & Et & C1 & C2).
    simpl seq. simpl copy_attempts.
    rewrite bind_unfold. unfold try_except_IOError at 1.
    rewrite bind_unfold, E. simpl.
    rewrite Et. simpl fs; simpl faults.
    rewrite drop_tail. eexists. split; [reflexivity |].
    simpl. rewrite C1. split; [lia |]. intros _.
    destruct n as [|n].
    + simpl in Et. injection Et as <-.
      exists [Sys (Copy2 src dst) (Some (OSError e)); Log WARNING (AttemptFailed a src dst e)].
      reflexivity.
    + destruct C2 as (t0 & ->); [discriminate |].
      exists (Sys (Copy2 src dst) (Some (OSError e))
              :: Log WARNING (AttemptFailed a src dst e) :: Sleep delay :: t0).
      reflexivity.
Qed.

(** X3: when every attempt fails, on paths without a null byte,
    [copy_file_with_retries] sleeps [delay] seconds after each of them, the
    last one too: it returns [False] after [max_retries * delay] seconds
    asleep, the last sleep has no attempt after it, and the error record
    comes after that sleep and ends the trace. With [max_retries = 0] no
    attempt is made and the error is logged at once. What the failed
    attempts leave at the destination is not stated. *)
Theorem copier_sleeps_after_last_attempt (src dst : string) (max_retries delay : nat) (w : world)
    (Hsrc : has_nul src = false) (Hdst : has_nul dst = false)
    (H : every_attempt_fails src dst w max_retries = true) :
  let '(r, _, t') := copy_file_with_retries src dst max_retries delay w in
  r = Ok false
  /\ exists t,
       t' = t ++ [Log ERROR (CopyFailed src dst max_retries)]
       /\ total_sleep t = max_retries * delay
       /\ count is_copy_call t = max_retries
       /\ (max_retries <> 0 -> exists t0, t = t0 ++ [Sleep delay])
       /\ (max_retries = 0 -> t = []).
Proof.
  destruct (copy_attempts_given_up src dst delay max_retries 1 w H) as (t & E & C1 & C2).
  pose proof (copy_file_with_retries_exhausted src dst max_retries delay w H)
    as (t1 & E1 & Hcalls & _).
  assert (copy_file_with_retries src dst max_retries delay w
          = (Ok false, {| fs := fs w; faults := drop max_retries (faults w) |},
             t ++ [Log ERROR (CopyFailed src dst max_retries)])) as E'
    by (unfold copy_file_with_retries; rewrite bind_unfold, E; reflexivity).
  rewrite E' in E1. injection E1 as <-. rewrite E'.
  split; [reflexivity |]. exists t. split; [reflexivity |]. split; [exact C1 |].
  split; [rewrite count_app in Hcalls; simpl in Hcalls; lia |]. split; [exact C2 |].
  intros Hz. subst max_retries. cbn in E. unfold ret in E. now injection E as _ <-.
Qed.

Lemma copier_sleeps_after_last_attempt_witness :
  every_attempt_fails "/a/src/d/f.txt" "/b/rep/d/f.txt" Scenario.blocked 3 = true
  /\ (let '(r, _, t') :=
        copy_file_with_retries "/a/src/d/f.txt" "/b/rep/d/f.txt" 3 2 Scenario.blocked in
      r = Ok false
      /\ exists t,
           t' = t ++ [Log ERROR (CopyFailed "/a/src/d/f.txt" "/b/rep/d/f.txt" 3)]
           /\ total_sleep t = 3 * 2).
Proof.
  split; [reflexivity |].
  pose proof (copier_sleeps_after_last_attempt "/a/src/d/f.txt" "/b/rep/d/f.txt" 3 2
                Scenario.blocked eq_refl eq_refl eq_refl) as H.
  destruct (copy_file_with_retries "/a/src/d/f.txt" "/b/rep/d/f.txt" 3 2 Scenario.blocked)
    as [[r w'] t'].
  destruct H as (Hr & t & E & Hs & _).
  split; [exact Hr |]. exists t. split; [exact E | exact Hs].
Defined.

Lemma shutil_copy2_ok src dst w fs' :
  next_fault (faults w) = None -> FS.copy2 src dst (fs w) = inr fs' ->
  shutil_copy2 src dst w
  = (Ok tt, {| fs := fs'; faults := tail (faults w) |}, [Sys (Copy2 src dst) None]).
Proof.
  unfold next_fault, shutil_copy2, sys, mutate. intros Hf Hc.
  destruct (faults w) as [|[e|] fl]; try discriminate; simpl; now rewrite Hc.
Qed.

Lemma copy_attempts_retry src dst delay fs' k : forall a rest w,
  attempts_fail src dst (fs w) (faults w) k = true ->
  next_fault (drop k (faults w)) = None ->
  FS.copy2 src dst (fs w) = inr fs' ->
  exists t,
    copy_attempts src dst delay (seq a (S k) ++ rest) w
    = (Ok true, {| fs := fs'; faults := drop (S k) (faults w) |},
       t ++ [Sys (Copy2 src dst) None])
    /\ count is_copy_call t = k
    /\ count (is_log WARNING) t = k
    /\ count (is_log ERROR) t = 0
    /\ total_sleep t = k * delay.
Proof.
  induction k as [|k IH]; intros a rest w Hfail Hnext Hcopy.
  - exists []. rewrite drop_0 in Hnext. cbn [seq app copy_attempts].
    rewrite bind_unfold. unfold try_except_IOError at 1.
    rewrite bind_unfold, (shutil_copy2_ok _ _ _ _ Hnext Hcopy). simpl.
    rewrite <- (drop_tail 0 (faults w)), drop_0. auto.
  - cbn [attempts_fail] in Hfail. apply andb_true_iff in Hfail as [H0 Hfail].
    destruct (shutil_copy2_fails _ _ _ H0) as (e & E).
    set (w1 := {| fs := fs w; faults := tail (faults w) |}).
    destruct (IH (S a) rest w1 Hfail) as (t & Et & C1 & C2 & C3 & C4).
    { cbn [faults w1]. now rewrite drop_tail. }
    { exact Hcopy. }
    change (seq a (S (S k)) ++ rest) with (a :: (seq (S a) (S k) ++ rest)).
    cbn [copy_attempts]. rewrite bind_unfold. unfold try_except_IOError at 1.
    rewrite bind_unfold, E. cbn -[seq copy_attempts]. fold w1. rewrite Et.
    cbn [faults w1]. rewrite drop_tail.
    exists (Sys (Copy2 src dst) (Some (OSError e))
            :: Log WARNING (AttemptFailed a src dst e) :: Sleep delay :: t).
    split; [reflexivity |]. simpl. rewrite C1, C2, C3, C4. repeat split; lia.
Qed.

(** X4: when the first [k] attempts fail with an [IOError] and the next one
    succeeds, with [k < max_retries], [copy_file_with_retries] returns
    [True] after [k + 1] attempts, [k] warnings and [k * delay] seconds of
    sleep; it logs no error and makes no attempt after the one that
    succeeded, which is the last event of the call. *)
Theorem copier_succeeds_on_retry (src dst : string) (max_retries delay k : nat)
    (w : world) (fs' : node)
    (Hk : k < max_retries)
    (Hfail : attempts_fail src dst (fs w) (faults w) k = true)
    (Hnext : next_fault (drop k (faults w)) = None)
    (Hcopy : FS.copy2 src dst (fs w) = inr fs') :
  exists t,
    copy_file_with_retries src dst max_retries delay w
    = (Ok true, {| fs := fs'; faults := drop (S k) (faults w) |},
       t ++ [Sys (Copy2 src dst) None])
    /\ count is_copy_call t = k
    /\ count (is_log WARNING) t = k
    /\ count (is_log ERROR) t = 0
    /\ total_sleep t = k * delay.
Proof.
  assert (seq 1 max_retries = seq 1 (S k) ++ seq (S (S k)) (max_retries - S k)) as Hseq.
  { replace max_retries with (S k + (max_retries - S k)) at 1 by lia. apply seq_app. }
  destruct (copy_attempts_retry src dst delay fs' k 1 (seq (S (S k)) (max_retries - S k)) w
              Hfail Hnext Hcopy) as (t & E & C).
  exists t. split; [| exact C].
  unfold copy_file_with_retries. rewrite bind_unfold, Hseq, E. simpl.
  now rewrite app_nil_r.
Qed.

Lemma copier_succeeds_on_retry_witness :
  1 < 3
  /\ attempts_fail "/a/src/sub/f.txt" "/b/rep/f.txt" (fs Scenario.fresh)
       [Some (OSError EIO)] 1 = true
  /\ exists t,
       copy_file_with_retries "/a/src/sub/f.txt" "/b/rep/f.txt" 3 2
         (World (fs Scenario.fresh) [Some (OSError EIO)])
       = (Ok true,
          World (Dir [("a", Dir [("src", Dir [("sub", Dir [("f.txt", File "x" 1)])])]);
                      ("b", Dir [("rep", Dir [("f.txt", File "x" 1)])])]) [],
          t ++ [Sys (Copy2 "/a/src/sub/f.txt" "/b/rep/f.txt") None])
       /\ count (is_log WARNING) t = 1 /\ total_sleep t = 1 * 2.
Proof.
  split; [lia |]. split; [reflexivity |].
  destruct (copier_succeeds_on_retry "/a/src/sub/f.txt" "/b/rep/f.txt" 3 2 1
              (World (fs Scenario.fresh) [Some (OSError EIO)])
              (Dir [("a", Dir [("src", Dir [("sub", Dir [("f.txt", File "x" 1)])])]);
                    ("b", Dir [("rep", Dir [("f.txt", File "x" 1)])])])
              ltac:(lia) eq_refl eq_refl eq_refl) as (t & E & _ & Hw & _ & Hs).
  exists t. split; [exact E |]. split; [exact Hw | exact Hs].
Defined.

(** X5: on paths without a null byte, [copy_file_with_retries] never
    raises an [OSError]. It returns [True] only when an attempt succeeded,
    and the file system is then what [shutil.copy2] makes of the file
    system it started with; it returns [False] only when no attempt
    succeeded, after exactly one record that the copy failed. What failed
    attempts leave at the destination is not stated. *)
Theorem copier_outcomes (src dst : string) (max_retries delay : nat) (w : world)
    (Hsrc : has_nul src = false) (Hdst : has_nul dst = false) :
  let '(r, w', t) := copy_file_with_retries src dst max_retries delay w in
  match r with
  | Ok true => In (Sys (Copy2 src dst) None) t
               /\ FS.copy2 src dst (fs w) = inr (fs w')
               /\ count is_copy_failed t = 0
  | Ok false => ~ In (Sys (Copy2 src dst) None) t
                /\ count is_copy_failed t = 1
  | Raised KeyboardInterrupt => ~ In (Sys (Copy2 src dst) None) t
                                /\ count is_copy_failed t = 0
  | Raised (OSError _) => False
  | OutOfFuel => False
  end.
Proof.
  pose proof (copy_file_with_retries_spec src dst max_retries delay w) as H.
  destruct (copy_file_with_retries src dst max_retries delay w) as [[r w'] t].
  destruct H as (_ & H). destruct r as [[|] | [e|] |]; tauto.
Qed.

Lemma copier_outcomes_witness :
  has_nul "/a/src/sub/f.txt" = false /\ has_nul "/b/rep/f.txt" = false
  /\ (let '(r, _, _) :=
        copy_file_with_retries "/a/src/sub/f.txt" "/b/rep/f.txt" 3 2 Scenario.fresh in
      match r with Raised (OSError _) => False | _ => True end).
Proof.
  split; [reflexivity |]. split; [reflexivity |].
  pose proof (copier_outcomes "/a/src/sub/f.txt" "/b/rep/f.txt" 3 2 Scenario.fresh
                eq_refl eq_refl) as H.
  destruct (copy_file_with_retries "/a/src/sub/f.txt" "/b/rep/f.txt" 3 2 Scenario.fresh)
    as [[r w'] t].
  destruct r as [b | [e|] |]; [exact I | exact H | exact I | exact I].
Defined.

(* ===================================================================== *)
(** * Properties of every trace                                           *)
(* ===================================================================== *)

(** A property of the exception and the trace that holds of the empty run,
    of each event alone, and of a sequence when it holds of its parts,
    holds of every run of the program. *)
Section Traces.
Variable P : option exn -> list event -> Prop.
Hypothesis P_nil : P None [].
Hypothesis P_seq : forall x t1 t2, P None t1 -> P x t2 -> P x (t1 ++ t2).
Hypothesis P_caught : forall e t, P (Some (OSError e)) t -> P None t.
Hypothesis P_sys : forall c f, P f [Sys c f].
Hypothesis P_log : forall lv m, P None [Log lv m].
Hypothesis P_sleep : forall n, P None [Sleep n].

Lemma satisfies_ret {A} (a : A) : satisfies P (ret a).
Proof. intros w. exact P_nil. Qed.

Lemma satisfies_bind {A B} (m : M A) (k : A -> M B) :
  satisfies P m -> (forall a, satisfies P (k a)) -> satisfies P (bind m k).
Proof.
  intros Hm Hk w. rewrite bind_unfold. specialize (Hm w).
  destruct (m w) as [[[a | e |] w1] t1]; try assumption.
  specialize (Hk a w1). destruct (k a w1) as [[r w2] t2]. now apply P_seq.
Qed.

Lemma satisfies_sys {A} c (step : node -> errno + (A * node)) : satisfies P (sys c step).
Proof.
  intros w. destruct (sys_cases c step w) as [(a & fs' & _ & E) | (e & E)]; rewrite E;
    apply P_sys.
Qed.

Lemma satisfies_log lv m : satisfies P (log lv m).
Proof. intros w. apply P_log. Qed.

Lemma satisfies_sleep n : satisfies P (sleep n).
Proof. intros w. apply P_sleep. Qed.

Lemma satisfies_try_except_IOError {A} (body : M A) handler :
  satisfies P body -> (forall e, satisfies P (handler e)) ->
  satisfies P (try_except_IOError body handler).
Proof.
  intros Hb Hh w. unfold try_except_IOError. specialize (Hb w).
  destruct (body w) as [[[a | [e|] |] w1] t1]; try assumption.
  specialize (Hh e w1). destruct (handler e w1) as [[r w2] t2].
  apply P_seq; [eapply P_caught, Hb | exact Hh].
Qed.

Lemma satisfies_calculate_md5 path : satisfies P (calculate_md5 path).
Proof.
  apply satisfies_try_except_IOError.
  - apply satisfies_bind; [apply satisfies_sys | intros; apply satisfies_ret].
  - intros e. apply satisfies_bind; [apply satisfies_log | intros; apply satisfies_ret].
Qed.

Lemma satisfies_copy_attempts src dst delay attempts :
  satisfies P (copy_attempts src dst delay attempts).
Proof.
  induction attempts as [|a attempts IH]; [apply satisfies_ret |].
  cbn [copy_attempts]. apply satisfies_bind.
  - apply satisfies_try_except_IOError.
    + apply satisfies_bind; [apply satisfies_sys | intros; apply satisfies_ret].
    + intros e. apply satisfies_bind; [apply satisfies_log |]. intros _.
      apply satisfies_bind; [apply satisfies_sleep | intros; apply satisfies_ret].
  - intros [b|]; [apply satisfies_ret | exact IH].
Qed.

Lemma satisfies_copy_file_with_retries src dst max_retries delay :
  satisfies P (copy_file_with_retries src dst max_retries delay).
Proof.
  apply satisfies_bind; [apply satisfies_copy_attempts |].
  intros [|]; [apply satisfies_ret |].
  apply satisfies_bind; [apply satisfies_log | intros; apply satisfies_ret].
Qed.



Lemma satisfies_os_path_exists path : satisfies P (os_path_exists path).
Proof. intros w. exact P_nil. Qed.

Lemma satisfies_sync_file src_dir dst_dir file_ l :
  satisfies P (sync_file src_dir dst_dir file_ l).
Proof.
  unfold sync_file. apply satisfies_bind; [apply satisfies_os_path_exists |]. intros present.
  assert (forall m l', satisfies P
            (copied <- copy_file_with_retries (Path.join src_dir file_)
                         (Path.join dst_dir file_) 3 2 ;;
             if copied then log INFO m ;; ret (set_changes l') else ret l')) as Hcopy.
  { intros m l'. apply satisfies_bind; [apply satisfies_copy_file_with_retries |].
    intros [|]; [| apply satisfies_ret].
    apply satisfies_bind; [apply satisfies_log | intros; apply satisfies_ret]. }
  destruct (negb present); [apply Hcopy |].
  apply satisfies_bind; [apply satisfies_calculate_md5 |]. intros src_md5.
  apply satisfies_bind; [apply satisfies_calculate_md5 |]. intros dst_md5.
  destruct (decide _); [apply satisfies_ret | apply Hcopy].
Qed.





End Traces.

Lemma sync_file_stops_at_failure src_dir dst_dir file_ l :
  satisfies stops_at_failure (sync_file src_dir dst_dir file_ l).
Proof.
  apply satisfies_sync_file; unfold stops_at_failure; auto.
  - intros [e|] t1 t2 _; [| auto]. intros (t0 & c & ->). exists (t1 ++ t0), c.
    now rewrite app_assoc.
  - intros c [e|]; [| exact I]. now exists [], c.
Qed.



(** ** The call that ends a run *)

Lemma ends_ret l w : ends_at_directory_call l w (Ok l) w [].
Proof. exact I. Qed.

Lemma ends_seq l w l1 w1 t1 r w2 t2 :
  ends_at_directory_call l w (Ok l1) w1 t1 -> ends_at_directory_call l1 w1 r w2 t2 ->
  ends_at_directory_call l w r w2 (t1 ++ t2).
Proof.
  unfold ends_at_directory_call. intros _. destruct r as [| e |]; auto.
  intros (t0 & c & -> & H). exists (t1 ++ t0), c. now rewrite app_assoc.
Qed.

Lemma ends_fuel l w : ends_at_directory_call l w OutOfFuel w [].
Proof. exact I. Qed.

Lemma sync_file_ends src_dir dst_dir file_ :
  establishes ends_at_directory_call (sync_file src_dir dst_dir file_).
Proof.
  intros l w. pose proof (sync_file_spec src_dir dst_dir file_ l w) as H. cbv zeta in H.
  pose proof (sync_file_stops_at_failure src_dir dst_dir file_ l w) as Hs.
  destruct (sync_file src_dir dst_dir file_ l w) as [[r w'] t].
  destruct r as [l' | [e|] |]; simpl; auto; [contradiction |].
  destruct Hs as (t0 & c & ->). eauto.
Qed.

Lemma sync_source_dir_ends source replica entry :
  establishes ends_at_directory_call (sync_source_dir source replica entry).
Proof.
  destruct entry as [[src_dir dirs] files]. intros l w.
  unfold sync_source_dir. rewrite bind_os_path_exists.
  set (dst_dir := Path.replace_first source replica src_dir).
  pose proof (for_each_establishes ends_at_directory_call ends_ret ends_seq
                (sync_file src_dir dst_dir) files (sync_file_ends src_dir dst_dir)) as Hf.
  destruct (FS.exists_ dst_dir (fs w)); unfold negb; cbv iota.
  - rewrite bind_ret_l. apply Hf.
  - rewrite !bind_unfold.
    destruct (os_makedirs_cases dst_dir w) as [(fs' & _ & _ & E) | (e & E)]; rewrite E; simpl.
    + specialize (Hf l {| fs := fs'; faults := tail (faults w) |}).
      destruct (for_each _ files l _) as [[r w'] t]. simpl.
      unfold ends_at_directory_call in *. destruct r as [| e |]; auto.
      destruct Hf as (t0 & c & -> & Hf).
      exists (Sys (Makedirs dst_dir) None :: Log INFO (DirectoryCreated dst_dir) :: t0), c. auto.
    + exists [], (Makedirs dst_dir). split; [reflexivity |]. destruct e; eauto.
Qed.

Lemma delete_extra_file_ends src_dir dst_dir file_ :
  establishes ends_at_directory_call (delete_extra_file src_dir dst_dir file_).
Proof.
  intros l w. unfold delete_extra_file.
  destruct (decide (Path.join src_dir file_ ∈ source_files l)); [exact I |].
  unfold try_except_IOError. rewrite bind_unfold.
  destruct (os_remove_cases (Path.join dst_dir file_) w) as [(fs' & _ & _ & E) | ([e|] & E)];
    rewrite E; simpl; auto.
  exists [], (Remove (Path.join dst_dir file_)). auto.
Qed.

Lemma clean_replica_dir_ends source replica entry :
  establishes ends_at_directory_call (clean_replica_dir source replica entry).
Proof.
  destruct entry as [[dst_dir dirs] files]. intros l w.
  unfold clean_replica_dir.
  set (src_dir := Path.replace_first replica source dst_dir).
  apply (bind_establishes ends_at_directory_call ends_seq
           (for_each (delete_extra_file src_dir dst_dir) files)).
  - apply for_each_establishes; [exact ends_ret | exact ends_seq |].
    intros f. apply delete_extra_file_ends.
  - clear l w. intros l w. rewrite bind_os_path_exists.
    destruct (FS.exists_ src_dir (fs w)); unfold negb; cbv iota; [exact I |].
    rewrite !bind_unfold.
    destruct (os_rmdir_cases dst_dir w) as [(fs' & _ & _ & E) | (e & E)]; rewrite E; simpl; auto.
    exists [], (Rmdir dst_dir). split; [reflexivity |]. destruct e; eauto.
Qed.

(** X6: an exception that leaves [perform_sync] was raised by the last call
    of the run: nothing is logged between the call that failed and the end
    of the run. For an [OSError] that call is [os.makedirs] or [os.rmdir];
    the [OSError]s of [open], [shutil.copy2] and [os.remove] are caught
    where they are raised and never end a run. *)
Theorem run_ends_at_the_call_that_raised (fuel : nat) (source replica : string) (w : world) :
  let '(r, _, t) := perform_sync fuel source replica w in
  match r with
  | Raised e =>
      exists t0 c,
        t = t0 ++ [Sys c (Some e)]
        /\ match e with
           | OSError _ => exists path, c = Makedirs path \/ c = Rmdir path
           | KeyboardInterrupt => True
           end
  | _ => True
  end.
Proof.
  unfold perform_sync. rewrite bind_unfold.
  set (l0 := {| changes := false; source_files := ∅; replica_files := ∅ |}).
  pose proof (os_walk_establishes ends_at_directory_call ends_ret ends_seq
                ends_fuel fuel true _ (sync_source_dir_ends source replica)
                source l0 w) as H1.
  destruct (os_walk fuel true _ source l0 w) as [[[l1 | e |] w1] t1]; auto.
  rewrite bind_unfold.
  pose proof (os_walk_establishes ends_at_directory_call ends_ret ends_seq
                ends_fuel fuel false _ (clean_replica_dir_ends source replica)
                replica l1 w1) as H2.
  destruct (os_walk fuel false _ replica l1 w1) as [[[l2 | e |] w2] t2]; simpl; auto.
  destruct H2 as (t0 & c & -> & H2). exists (t1 ++ t0), c. now rewrite app_assoc.
Qed.

(** ** What counts as a change *)

Lemma has_effect_app t1 t2 : has_effect (t1 ++ t2) = has_effect t1 || has_effect t2.
Proof. apply existsb_app. Qed.

Lemma effects_ret l w : effects_logged l w (Ok l) w [].
Proof. reflexivity. Qed.

Lemma effects_seq l w l1 w1 t1 r w2 t2 :
  effects_logged l w (Ok l1) w1 t1 -> effects_logged l1 w1 r w2 t2 ->
  effects_logged l w r w2 (t1 ++ t2).
Proof.
  unfold effects_logged. intros H1 H2. now rewrite has_change_app, has_effect_app, H1, H2.
Qed.

Lemma effects_fuel l w : effects_logged l w OutOfFuel w [].
Proof. reflexivity. Qed.

Lemma copy_attempts_effect src dst delay attempts : forall w,
  let '(r, _, t) := copy_attempts src dst delay attempts w in
  has_change t = false
  /\ has_effect t = match r with Ok true => true | _ => false end.
Proof.
  induction attempts as [|a attempts IH]; intros w; [simpl; auto |].
  simpl copy_attempts. rewrite bind_unfold. unfold try_except_IOError at 1.
  rewrite bind_unfold.
  destruct (shutil_copy2_cases src dst w) as [(fs' & Hc & E) | ([e|] & E)]; rewrite E; simpl;
    auto.
  specialize (IH {| fs := fs w; faults := tail (faults w) |}).
  destruct (copy_attempts src dst delay attempts _) as [[r w'] t]. simpl. exact IH.
Qed.

Lemma copy_and_report_effect src_file dst_file m l w :
  is_change (Log INFO m) = true ->
  let '(_, _, t) := copy_and_report src_file dst_file m l w in
  has_change t = has_effect t.
Proof.
  intros Hm. unfold copy_and_report, copy_file_with_retries. rewrite !bind_unfold.
  pose proof (copy_attempts_effect src_file dst_file 2 (seq 1 3) w) as H.
  destruct (copy_attempts src_file dst_file 2 (seq 1 3) w) as [[r w1] t1].
  destruct H as (Hc & He).
  destruct r as [[|] | e |]; simpl; rewrite ?app_nil_r, ?has_change_app, ?has_effect_app, ?Hc, ?He;
    try reflexivity.
  destruct m; try discriminate Hm; reflexivity.
Qed.

Lemma calculate_md5_effect file_path w :
  let '(_, _, t) := calculate_md5 file_path w in
  has_change t = false /\ has_effect t = false.
Proof.
  destruct (calculate_md5_cases file_path w) as [(d & _ & _ & E) | [(e & E & _) | (E & _)]];
    rewrite E; auto.
Qed.

Lemma sync_file_effects src_dir dst_dir file_ :
  establishes effects_logged (sync_file src_dir dst_dir file_).
Proof.
  intros l w. rewrite sync_file_unfold. cbv zeta. rewrite bind_os_path_exists.
  set (src_file := Path.join src_dir file_). set (dst_file := Path.join dst_dir file_).
  set (l1 := add_files src_file dst_file l).
  destruct (FS.exists_ dst_file (fs w)); unfold negb; cbv iota.
  - rewrite bind_unfold.
    pose proof (calculate_md5_effect src_file w) as H1.
    destruct (calculate_md5 src_file w) as [[r1 w1] t1]. destruct H1 as [C1 E1].
    destruct r1 as [h1 | e |]; [| unfold effects_logged; congruence ..].
    rewrite bind_unfold.
    pose proof (calculate_md5_effect dst_file w1) as H2.
    destruct (calculate_md5 dst_file w1) as [[r2 w2] t2]. destruct H2 as [C2 E2].
    destruct r2 as [h2 | e |];
      [| unfold effects_logged; rewrite has_change_app, has_effect_app; congruence ..].
    destruct (decide (h1 = h2)).
    + simpl. unfold effects_logged.
      rewrite !has_change_app, !has_effect_app, C1, C2, E1, E2. reflexivity.
    + pose proof (copy_and_report_effect src_file dst_file (FileUpdated dst_file) l1 w2 eq_refl)
        as H.
      destruct (copy_and_report _ _ _ _ w2) as [[r w3] t3]. unfold effects_logged.
      rewrite !has_change_app, !has_effect_app, C1, C2, E1, E2, H. reflexivity.
  - pose proof (copy_and_report_effect src_file dst_file (FileCreated dst_file) l1 w eq_refl)
      as H.
    destruct (copy_and_report _ _ _ _ w) as [[r w3] t3]. exact H.
Qed.

Lemma sync_source_dir_effects source replica entry :
  establishes effects_logged (sync_source_dir source replica entry).
Proof.
  destruct entry as [[src_dir dirs] files]. intros l w.
  unfold sync_source_dir. rewrite bind_os_path_exists.
  set (dst_dir := Path.replace_first source replica src_dir).
  pose proof (for_each_establishes effects_logged effects_ret effects_seq
                (sync_file src_dir dst_dir) files (sync_file_effects src_dir dst_dir)) as Hf.
  destruct (FS.exists_ dst_dir (fs w)); unfold negb; cbv iota.
  - rewrite bind_ret_l. apply Hf.
  - rewrite !bind_unfold.
    destruct (os_makedirs_cases dst_dir w) as [(fs' & _ & _ & E) | (e & E)]; rewrite E; simpl.
    + specialize (Hf l {| fs := fs'; faults := tail (faults w) |}).
      destruct (for_each _ files l _) as [[r w'] t]. exact Hf.
    + reflexivity.
Qed.

Lemma delete_extra_file_effects src_dir dst_dir file_ :
  establishes effects_logged (delete_extra_file src_dir dst_dir file_).
Proof.
  intros l w. unfold delete_extra_file.
  destruct (decide (Path.join src_dir file_ ∈ source_files l)); [reflexivity |].
  unfold try_except_IOError. rewrite bind_unfold.
  destruct (os_remove_cases (Path.join dst_dir file_) w) as [(fs' & _ & _ & E) | ([e|] & E)];
    rewrite E; reflexivity.
Qed.

Lemma clean_replica_dir_effects source replica entry :
  establishes effects_logged (clean_replica_dir source replica entry).
Proof.
  destruct entry as [[dst_dir dirs] files]. intros l w.
  unfold clean_replica_dir.
  set (src_dir := Path.replace_first replica source dst_dir).
  apply (bind_establishes effects_logged effects_seq
           (for_each (delete_extra_file src_dir dst_dir) files)).
  - apply for_each_establishes; [exact effects_ret | exact effects_seq |].
    intros f. apply delete_extra_file_effects.
  - clear l w. intros l w. rewrite bind_os_path_exists.
    destruct (FS.exists_ src_dir (fs w)); unfold negb; cbv iota; [reflexivity |].
    rewrite !bind_unfold.
    destruct (os_rmdir_cases dst_dir w) as [(fs' & _ & _ & E) | (e & E)]; rewrite E; reflexivity.
Qed.

(** X7: [perform_sync] returns [True] exactly when one of its calls of
    [shutil.copy2], [os.remove] or [os.rmdir] succeeded, and each of these
    is logged as a change. A directory that [os.makedirs] created is not
    counted: a run that only created directories returns [False]. *)
Theorem changed_iff_a_call_took_effect (fuel : nat) (source replica : string) (w : world) :
  let '(r, _, t) := perform_sync fuel source replica w in
  has_change t = has_effect t
  /\ match r with
     | Ok changed => changed = true <-> exists e, In e t /\ is_effect e = true
     | _ => True
     end.
Proof.
  pose proof (perform_sync_flag fuel source replica w) as Hflag.
  assert (let '(_, _, t) := perform_sync fuel source replica w in
          has_change t = has_effect t) as Heff.
  { unfold perform_sync. rewrite bind_unfold.
    set (l0 := {| changes := false; source_files := ∅; replica_files := ∅ |}).
    pose proof (os_walk_establishes effects_logged effects_ret effects_seq
                  effects_fuel fuel true _ (sync_source_dir_effects source replica)
                  source l0 w) as H1.
    destruct (os_walk fuel true _ source l0 w) as [[[l1 | e |] w1] t1]; auto.
    rewrite bind_unfold.
    pose proof (os_walk_establishes effects_logged effects_ret effects_seq
                  effects_fuel fuel false _ (clean_replica_dir_effects source replica)
                  replica l1 w1) as H2.
    destruct (os_walk fuel false _ replica l1 w1) as [[[l2 | e |] w2] t2];
      unfold effects_logged in *; simpl;
      rewrite ?app_nil_r, has_change_app, has_effect_app, H1, H2; reflexivity. }
  destruct (perform_sync fuel source replica w) as [[r w'] t].
  split; [exact Heff |]. destruct r as [b | |]; auto. subst b. rewrite Heff.
  unfold has_effect. apply existsb_exists.
Qed.

(** A source that holds one empty directory: the run creates it in the
    replica and reports no change. *)
Example directory_created_without_change :
  perform_sync 5 "/a/src" "/b/rep"
    (World (Dir [("a", Dir [("src", Dir [("d", Dir [])])]); ("b", Dir [("rep", Dir [])])]) [])
  = (Ok false,
     World (Dir [("a", Dir [("src", Dir [("d", Dir [])])]);
                 ("b", Dir [("rep", Dir [("d", Dir [])])])]) [],
     [Sys (Makedirs "/b/rep/d") None; Log INFO (DirectoryCreated "/b/rep/d")]).
Proof. reflexivity. Qed.

(* ===================================================================== *)
(** * The shape of a run of [sync_loop]                                   *)
(* ===================================================================== *)






(* ===================================================================== *)
(** * One file of the replica, one file of the source                     *)
(* ===================================================================== *)

Lemma remove_ok path fs0 fs' :
  FS.remove path fs0 = inr fs' ->
  (exists d m, FS.stat path fs0 = Some (File d m))
  /\ FS.put (Path.components path) None fs0 = Some fs'.
Proof.
  unfold FS.remove. destruct (FS.stat path fs0) as [[d m|]|]; try discriminate.
  intros H. apply put_or_error_frame in H. eauto.
Qed.

(** X13: what [perform_sync] does with one file of the replica, lines
    134-142. A file whose source path is in [source_files] is left alone
    and no call is made. Otherwise [os.remove] is called once: when it
    succeeds the path named a regular file, the file is gone, what is
    elsewhere is as it was, and the deletion is logged and counted as a
    change; when it fails with an [OSError] the error is logged, nothing
    changes, the flag is left as it was and the run goes on. Only a
    [KeyboardInterrupt] leaves the step. *)
Theorem delete_extra_file_outcomes (src_dir dst_dir file_ : string) (l : locals) (w : world) :
  let src_file := Path.join src_dir file_ in
  let dst_file := Path.join dst_dir file_ in
  let '(r, w', t) := delete_extra_file src_dir dst_dir file_ l w in
  (src_file ∈ source_files l -> r = Ok l /\ w' = w /\ t = [])
  /\ (src_file ∉ source_files l ->
      match r with
      | Ok l' =>
          (t = [Sys (Remove dst_file) None; Log INFO (FileDeleted dst_file)]
           /\ l' = set_changes l
           /\ (exists d m, FS.stat dst_file (fs w) = Some (File d m))
           /\ FS.put (Path.components dst_file) None (fs w) = Some (fs w')
           /\ (forall q, diverge (Path.components dst_file) q = true ->
                         FS.lookup q (fs w') = FS.lookup q (fs w)))
          \/ (exists e, t = [Sys (Remove dst_file) (Some (OSError e));
                             Log ERROR (DeleteFailed dst_file e)]
                        /\ l' = l /\ fs w' = fs w)
      | Raised KeyboardInterrupt =>
          t = [Sys (Remove dst_file) (Some KeyboardInterrupt)] /\ fs w' = fs w
      | Raised (OSError _) => False
      | OutOfFuel => False
      end).
Proof.
  intros src_file dst_file. unfold delete_extra_file. fold src_file dst_file.
  destruct (decide (src_file ∈ source_files l)) as [Hin | Hout].
  - split; [auto | contradiction].
  - unfold try_except_IOError. rewrite bind_unfold.
    destruct (os_remove_cases dst_file w) as [(fs' & Hrm & _ & E) | ([e|] & E)];
      rewrite E; cbn -[Path.components]; (split; [contradiction |]); intros _; auto.
    + left. apply remove_ok in Hrm as [Hfile Hput]. repeat split; auto.
      apply put_frame in Hput as [_ Hput]. exact Hput.
    + right. eauto.
Qed.

(** ** A file that the replica does not have *)

Lemma copy2_creates src dst fs0 fs' :
  FS.exists_ dst fs0 = false -> FS.copy2 src dst fs0 = inr fs' ->
  exists data mtime,
    FS.stat src fs0 = Some (File data mtime)
    /\ FS.stat dst fs' = Some (File data mtime)
    /\ FS.put (Path.components dst) (Some (File data mtime)) fs0 = Some fs'.
Proof.
  unfold FS.exists_, FS.copy2, FS.copy_target.
  destruct (FS.stat dst fs0) eqn:Hd; [discriminate |]. intros _.
  destruct (FS.stat src fs0) as [[data mtime|]|]; try discriminate.
  destruct (Path.ends_with_sep dst) eqn:Hsep; [discriminate |].
  destruct (decide _); [discriminate |].
  intros H.
  assert (FS.put (Path.components dst) (Some (File data mtime)) fs0 = Some fs') as Hput.
  { apply put_or_error_frame. destruct (FS.lookup _ fs0) as [[|]|]; congruence. }
  exists data, mtime. split; [reflexivity |]. split; [| exact Hput].
  unfold FS.stat. destruct dst as [|c dst].
  - simpl in Hput. destruct fs0; discriminate.
  - now rewrite (lookup_put _ _ _ _ Hput), Hsep.
Qed.

Lemma copy_attempts_no_open src dst delay attempts : forall w,
  let '(_, _, t) := copy_attempts src dst delay attempts w in count is_open_call t = 0.
Proof.
  induction attempts as [|a attempts IH]; intros w; [reflexivity |].
  simpl copy_attempts. rewrite bind_unfold. unfold try_except_IOError at 1.
  rewrite bind_unfold.
  destruct (shutil_copy2_cases src dst w) as [(fs' & Hc & E) | ([e|] & E)]; rewrite E; simpl;
    auto.
  specialize (IH {| fs := fs w; faults := tail (faults w) |}).
  destruct (copy_attempts src dst delay attempts _) as [[r w'] t]. simpl. exact IH.
Qed.

Lemma copy_and_report_no_open src_file dst_file m l w :
  let '(_, _, t) := copy_and_report src_file dst_file m l w in count is_open_call t = 0.
Proof.
  unfold copy_and_report, copy_file_with_retries. rewrite !bind_unfold.
  pose proof (copy_attempts_no_open src_file dst_file 2 (seq 1 3) w) as H.
  destruct (copy_attempts src_file dst_file 2 (seq 1 3) w) as [[r w1] t1].
  destruct r as [[|] | e |]; simpl; rewrite ?app_nil_r, ?count_app, ?H; reflexivity.
Qed.

(** Once the engine has decided to copy, the first call is the copy, from
    the source file onto the replica file. *)
Lemma copy_and_report_starts src_file dst_file m l w :
  let '(_, _, t) := copy_and_report src_file dst_file m l w in
  exists o rest, t = Sys (Copy2 src_file dst_file) o :: rest.
Proof.
  unfold copy_and_report, copy_file_with_retries. rewrite !bind_unfold.
  change (seq 1 3) with [1; 2; 3]. simpl copy_attempts. rewrite bind_unfold.
  unfold try_except_IOError at 1. rewrite bind_unfold.
  destruct (shutil_copy2_cases src_file dst_file w) as [(fs' & _ & E) | ([e|] & E)];
    rewrite E; simpl; eauto.
  destruct (bind _ _ _) as [[[[|] | e' |] w1] t1]; simpl; eauto.
Qed.

(** A copy that is not made to fail, and that [shutil.copy2] can do, is
    done at the first attempt. *)
Lemma copy_and_report_succeeds src_file dst_file m l w fs' :
  next_fault (faults w) = None ->
  FS.copy2 src_file dst_file (fs w) = inr fs' ->
  copy_and_report src_file dst_file m l w
  = (Ok (set_changes l), {| fs := fs'; faults := tail (faults w) |},
     [Sys (Copy2 src_file dst_file) None; Log INFO m]).
Proof.
  intros Hf Hc. unfold copy_and_report, copy_file_with_retries. rewrite !bind_unfold.
  change (seq 1 3) with [1; 2; 3]. simpl copy_attempts. rewrite bind_unfold.
  unfold try_except_IOError at 1. rewrite bind_unfold.
  rewrite (shutil_copy2_ok _ _ _ _ Hf Hc). reflexivity.
Qed.

(** X14: a file that the replica does not have is copied without either
    file being read: no digest is computed, and the first call of the step
    is [shutil.copy2] from the source file to the path that is missing.
    When the source is a regular file, the missing path is in normal form
    below an existing directory and the call is not made to fail, that one
    call is the whole step: the replica then has at that path a regular
    file with the bytes and the modification time of the source file, the
    creation is logged and counted as a change, and nothing else has
    changed. Whenever a copy succeeds, at the first attempt or a later
    one, the same holds of the file, the record and the flag. *)
Theorem missing_file_is_copied_unread (src_dir dst_dir file_ : string) (l : locals) (w : world)
    (Hmissing : FS.exists_ (Path.join dst_dir file_) (fs w) = false) :
  let src_file := Path.join src_dir file_ in
  let dst_file := Path.join dst_dir file_ in
  let '(r, w', t) := sync_file src_dir dst_dir file_ l w in
  count is_open_call t = 0
  /\ (exists o rest, t = Sys (Copy2 src_file dst_file) o :: rest)
  /\ (forall data mtime,
        next_fault (faults w) = None ->
        FS.stat src_file (fs w) = Some (File data mtime) ->
        normal_root dst_file = true ->
        has_parent (Path.components dst_file) (fs w) ->
        r = Ok (set_changes (add_files src_file dst_file l))
        /\ t = [Sys (Copy2 src_file dst_file) None; Log INFO (FileCreated dst_file)]
        /\ FS.stat dst_file (fs w') = Some (File data mtime)
        /\ (forall q, diverge (Path.components dst_file) q = true ->
                      FS.lookup q (fs w') = FS.lookup q (fs w)))
  /\ (In (Sys (Copy2 src_file dst_file) None) t ->
      r = Ok (set_changes (add_files src_file dst_file l))
      /\ In (Log INFO (FileCreated dst_file)) t
      /\ exists data mtime,
           FS.stat src_file (fs w) = Some (File data mtime)
           /\ FS.stat dst_file (fs w') = Some (File data mtime)).
Proof.
  intros src_file dst_file. rewrite sync_file_unfold. cbv zeta. fold src_file dst_file.
  rewrite bind_os_path_exists. fold dst_file in Hmissing. rewrite Hmissing.
  unfold negb. cbv iota.
  set (l1 := add_files src_file dst_file l).
  pose proof (copy_and_report_no_open src_file dst_file (FileCreated dst_file) l1 w) as Ho.
  pose proof (copy_and_report_starts src_file dst_file (FileCreated dst_file) l1 w) as Ha.
  pose proof (copy_and_report_spec src_file dst_file (FileCreated dst_file) l1 w eq_refl) as Hs.
  pose proof (copy_and_report_logs src_file dst_file (FileCreated dst_file) l1 w) as Hl.
  pose proof (copy_and_report_succeeds src_file dst_file (FileCreated dst_file) l1 w) as Hok.
  destruct (copy_and_report _ _ _ l1 w) as [[r w'] t].
  split; [exact Ho |]. split; [exact Ha |]. split.
  - intros data mtime Hfault Hsrc Hnorm Hpar.
    assert (FS.lookup (Path.components dst_file) (fs w) = None) as Hnone.
    { unfold FS.exists_ in Hmissing. rewrite (stat_normal _ _ Hnorm) in Hmissing.
      destruct (FS.lookup _ (fs w)); [discriminate | reflexivity]. }
    specialize (Hok _ Hfault (copy2_new _ _ _ _ _ Hsrc Hnorm Hnone Hpar)).
    injection Hok as -> -> ->. cbn [fs].
    split; [reflexivity |]. split; [reflexivity |]. split.
    + now rewrite (stat_normal _ _ Hnorm), lookup_place.
    + intros q Hq. now apply lookup_place_diverge.
  - intros Hin.
    destruct r as [l' | [e|] |]; try contradiction; [| tauto].
    destruct Hs as (-> & Hiff & Hcp & _). specialize (Hl Hin).
    apply Hiff in Hin. rewrite Hin. specialize (Hcp Hin).
    split; [reflexivity |]. split; [exact Hl |].
    destruct (copy2_creates _ _ _ _ Hmissing Hcp) as (data & mtime & H1 & H2 & _). eauto.
Qed.

Lemma missing_file_is_copied_unread_witness :
  FS.exists_ (Path.join "/a/b" "f.txt") (fs Scenario.siblings) = false
  /\ (let '(r, w', t) :=
        sync_file "/a/bc/c" "/a/b" "f.txt" (Locals false ∅ ∅) Scenario.siblings in
      count is_open_call t = 0
      /\ t = [Sys (Copy2 "/a/bc/c/f.txt" "/a/b/f.txt") None; Log INFO (FileCreated "/a/b/f.txt")]
      /\ FS.stat "/a/b/f.txt" (fs w') = Some (File "x" 1)).
Proof.
  split; [reflexivity |].
  pose proof (missing_file_is_copied_unread "/a/bc/c" "/a/b" "f.txt" (Locals false ∅ ∅)
                Scenario.siblings eq_refl) as H.
  cbv zeta in H.
  destruct (sync_file "/a/bc/c" "/a/b" "f.txt" (Locals false ∅ ∅) Scenario.siblings)
    as [[r w'] t].
  destruct H as (H1 & _ & H2 & _). split; [exact H1 |].
  destruct (H2 "x" 1%Z eq_refl eq_refl eq_refl) as (_ & Ht & Hs & _).
  - exists []. reflexivity.
  - split; [exact Ht | exact Hs].
Defined.

(* ===================================================================== *)
(** * A source that is not there                                          *)
(* ===================================================================== *)

Lemma set_entry_None_absent k es :
  ~ In k (map fst es) -> FS.set_entry k None es = es.
Proof.
  induction es as [|[c v] es IH]; [reflexivity |]. simpl. intros H.
  destruct (String.eqb_spec k c) as [-> | _]; [tauto |]. rewrite IH; tauto.
Qed.

Lemma set_entry_None_Some c n es :
  FS.set_entry c None (FS.set_entry c (Some n) es) = FS.set_entry c None es.
Proof.
  induction es as [|[k old] es IH]; simpl.
  - now rewrite String.eqb_refl.
  - destruct (String.eqb c k) eqn:E; simpl; rewrite E; [reflexivity | now rewrite IH].
Qed.

Lemma without_cons_notin names : forall k v es,
  ~ In k names -> without names ((k, v) :: es) = (k, v) :: without names es.
Proof.
  induction names as [|c names IH]; intros k v es H; [reflexivity |].
  unfold without in *. cbn [fold_left]. simpl FS.set_entry.
  destruct (String.eqb_spec c k) as [-> | _]; [simpl in H; tauto |].
  apply IH. simpl in H. tauto.
Qed.

(** Removing the names of the sub-directories leaves the files, and
    removing every name leaves nothing. *)
Lemma without_dirs es :
  NoDup (map fst es) -> without (map fst (dir_entries es)) es = file_entries es.
Proof.
  unfold dir_entries, file_entries. induction es as [|[k m] es IH]; intros Hnd; [reflexivity |].
  simpl in Hnd. apply NoDup_cons in Hnd as [Hk Hnd]. destruct m as [d t|sub].
  - rewrite (filter_cons_False (fun e => FS.is_dir (snd e) = true)) by (simpl; discriminate).
    rewrite filter_cons_True by reflexivity.
    rewrite without_cons_notin; [now rewrite IH |].
    intros Hin. apply Hk. apply list_elem_of_In. apply in_map_iff in Hin as (e & <- & He).
    apply in_map_iff. exists e. split; [reflexivity |].
    apply list_elem_of_In, list_elem_of_filter in He as [_ He]. now apply list_elem_of_In.
  - rewrite filter_cons_True by reflexivity.
    rewrite (filter_cons_False (fun e => FS.is_dir (snd e) = false)) by (simpl; discriminate).
    unfold without. cbn [map fst fold_left]. simpl FS.set_entry. rewrite String.eqb_refl.
    now apply IH.
Qed.

Lemma without_all es : NoDup (map fst es) -> without (map fst es) es = [].
Proof.
  induction es as [|[k m] es IH]; intros Hnd; [reflexivity |].
  simpl in Hnd. apply NoDup_cons in Hnd as [Hk Hnd].
  unfold without. cbn [map fst fold_left]. simpl FS.set_entry. rewrite String.eqb_refl.
  now apply IH.
Qed.

Lemma NoDup_file_entries es : NoDup (map fst es) -> NoDup (map fst (file_entries es)).
Proof.
  intros H. apply NoDup_partition in H. rewrite map_app in H.
  now apply NoDup_app in H as [H _].
Qed.

Lemma NoDup_dir_entries es : NoDup (map fst es) -> NoDup (map fst (dir_entries es)).
Proof.
  intros H. apply NoDup_partition in H. rewrite map_app in H.
  now apply NoDup_app in H as (_ & _ & H).
Qed.

(** A change below a place is a change of what is at that place. *)
Lemma put_below p : forall fs m m' q v,
  FS.lookup p fs = Some m -> FS.put q v m = Some m' ->
  FS.put (p ++ q) v fs = Some (place p m' fs).
Proof.
  induction p as [|c p IH]; intros fs m m' q v Hl Hq.
  - simpl in Hl. injection Hl as ->. exact Hq.
  - destruct fs as [d t|es]; [discriminate |]. rewrite lookup_cons in Hl.
    destruct (FS.assoc c es) as [n|] eqn:Ha; [| discriminate].
    pose proof (IH n m m' q v Hl Hq) as H.
    destruct (p ++ q) as [|c' pq] eqn:Epq.
    { destruct n; destruct p; discriminate. }
    cbn [app]. rewrite Epq, put_cons, Ha, H.
    destruct p as [|c'' p]; [reflexivity |]. now rewrite place_cons, Ha.
Qed.

Lemma put_None_place p n : forall fs,
  has_parent p fs -> FS.put p None (place p n fs) = FS.put p None fs.
Proof.
  induction p as [|c p IH]; intros fs Hp; [destruct fs, n; reflexivity |].
  destruct fs as [d t|es].
  - destruct Hp as [E H]. destruct p; simpl in H; discriminate.
  - destruct p as [|c' p].
    + rewrite place_single, !put_single, set_entry_None_Some. reflexivity.
    + rewrite place_cons. destruct (has_parent_inv _ _ _ _ Hp) as [m Ha]. rewrite Ha.
      rewrite !put_cons, assoc_set_entry_eq, Ha, IH
        by now apply (has_parent_cons c c' p es m Ha).
      destruct (FS.put (c' :: p) None m); [| reflexivity].
      now rewrite set_entry_twice.
Qed.

Lemma put_total p v : forall fs, p <> [] -> has_parent p fs -> exists fs', FS.put p v fs = Some fs'.
Proof.
  induction p as [|c p IH]; intros fs Hne Hp; [congruence |].
  destruct fs as [d t|es].
  - destruct Hp as [E H]. destruct p; simpl in H; discriminate.
  - destruct p as [|c' p]; [rewrite put_single; eauto |].
    destruct (has_parent_inv _ _ _ _ Hp) as [m Ha]. rewrite put_cons, Ha.
    destruct (IH m) as [m' ->]; [discriminate | now apply (has_parent_cons c c' p es m Ha) |].
    eauto.
Qed.

Section Wiping.
Variables source replica : string.

Lemma wipe_dirs fuel ps pr top dtop fs0 :
  wipe_spec source replica fuel ->
  paired source replica ps pr top dtop ->
  FS.lookup ps fs0 = None ->
  has_parent pr fs0 ->
  forall de E l,
    NoDup (map fst de) ->
    Forall (fun e => Path.valid_name (fst e) = true /\ FS.is_dir (snd e) = true
                     /\ height (snd e) <= fuel /\ well_formed (snd e)
                     /\ FS.assoc (fst e) E = Some (snd e)) de ->
    source_files l = ∅ ->
    exists t l',
      for_each (fun dirname a =>
                  os_walk fuel false (clean_replica_dir source replica)
                    (Path.join dtop dirname) a)
               (map fst de) l {| fs := place pr (Dir E) fs0; faults := [] |}
      = (Ok l', {| fs := place pr (Dir (without (map fst de) E)) fs0; faults := [] |}, t)
      /\ set_changes l' = set_changes l
      /\ source_files l' = ∅
      /\ count is_failure t = 0.
Proof.
  intros IHfuel Hp Hsrc Hpar.
  assert (diverge pr ps = true) as Hdiv
    by (destruct Hp as (_ & _ & _ & _ & _ & Hd & _); now rewrite diverge_sym).
  induction de as [|[name m] de IH]; intros E l Hnd Hall Hl.
  - exists [], l. auto.
  - apply Forall_cons_iff in Hall as [(Hn & Hm & Hh & Hw & Ha) Hall]. cbn [fst snd] in *.
    simpl in Hnd. apply NoDup_cons in Hnd as [Hfresh Hnd].
    destruct m as [|sub]; [discriminate |].
    set (fs1 := place pr (Dir E) fs0).
    destruct (IHfuel sub (ps ++ [name]) (pr ++ [name]) (Path.join top name)
                (Path.join dtop name) fs1 l Hh Hw) as (t1 & fs2 & E1 & Hput & F1).
    { now apply paired_child. }
    { unfold fs1. now rewrite lookup_app, lookup_place_diverge, Hsrc. }
    { unfold fs1. rewrite lookup_place_below by exact Hpar. now rewrite lookup_cons, Ha. }
    { exact Hl. }
    assert (fs2 = place pr (Dir (FS.set_entry name None E)) fs0) as ->.
    { unfold fs1 in Hput.
      rewrite (put_below pr _ (Dir E) (Dir (FS.set_entry name None E)) [name] None) in Hput.
      - injection Hput as <-. now rewrite place_twice.
      - now apply lookup_place.
      - reflexivity. }
    destruct (IH (FS.set_entry name None E) (set_changes l) Hnd) as (t2 & l' & E2 & Hc & Hs & F2).
    { apply List.Forall_forall. intros e He. rewrite List.Forall_forall in Hall.
      destruct (Hall e He) as (H1 & H2 & H3 & H4 & H5). repeat split; auto.
      rewrite assoc_set_entry_ne; [exact H5 |]. intros ->. apply Hfresh.
      apply list_elem_of_In, in_map_iff. eauto. }
    { exact Hl. }
    exists (t1 ++ t2), l'. cbn [map fst for_each]. rewrite bind_unfold. fold fs1. rewrite E1, E2.
    split; [reflexivity |]. split; [exact Hc |]. split; [exact Hs |].
    rewrite count_app. lia.
Qed.

Lemma wipe_files ps pr top dtop fs0 :
  paired source replica ps pr top dtop ->
  has_parent pr fs0 ->
  forall fe E l,
    NoDup (map fst fe) ->
    Forall (fun e => Path.valid_name (fst e) = true /\ FS.is_dir (snd e) = false
                     /\ FS.assoc (fst e) E = Some (snd e)) fe ->
    source_files l = ∅ ->
    exists t l',
      for_each (delete_extra_file top dtop) (map fst fe) l
        {| fs := place pr (Dir E) fs0; faults := [] |}
      = (Ok l', {| fs := place pr (Dir (without (map fst fe) E)) fs0; faults := [] |}, t)
      /\ set_changes l' = set_changes l
      /\ source_files l' = ∅
      /\ count is_failure t = 0.
Proof.
  intros Hp Hpar. induction fe as [|[name m] fe IH]; intros E l Hnd Hall Hl.
  - exists [], l. auto.
  - apply Forall_cons_iff in Hall as [(Hn & Hm & Ha) Hall]. cbn [fst snd] in *.
    simpl in Hnd. apply NoDup_cons in Hnd as [Hfresh Hnd].
    destruct m as [data mtime|]; [| discriminate].
    pose proof (paired_child _ _ _ _ _ _ name Hn Hp) as Hc.
    destruct Hc as (_ & _ & Hnorm & _ & Hcomp & _).
    set (fs1 := place pr (Dir E) fs0).
    assert (FS.remove (Path.join dtop name) fs1
            = inr (place pr (Dir (FS.set_entry name None E)) fs0)) as Hrm.
    { unfold FS.remove. rewrite (stat_normal _ _ Hnorm), Hcomp. unfold fs1.
      rewrite lookup_place_below by exact Hpar. rewrite lookup_cons, Ha. cbn [FS.lookup].
      unfold FS.put_or_error.
      rewrite (put_below pr _ (Dir E) (Dir (FS.set_entry name None E)) [name] None).
      - now rewrite place_twice.
      - now apply lookup_place.
      - reflexivity. }
    destruct (IH (FS.set_entry name None E) (set_changes l) Hnd) as (t2 & l' & E2 & Hc & Hs & F2).
    { apply List.Forall_forall. intros e He. rewrite List.Forall_forall in Hall.
      destruct (Hall e He) as (H1 & H2 & H3). repeat split; auto.
      rewrite assoc_set_entry_ne; [exact H3 |]. intros ->. apply Hfresh.
      apply list_elem_of_In, in_map_iff. eauto. }
    { exact Hl. }
    eexists _, l'. cbn [map fst for_each]. rewrite bind_unfold. unfold delete_extra_file at 1.
    rewrite decide_False by (rewrite Hl; apply not_elem_of_empty).
    unfold try_except_IOError. rewrite bind_unfold. unfold os_remove.
    rewrite (sys_ok _ _ _ tt (place pr (Dir (FS.set_entry name None E)) fs0))
      by (unfold mutate; fold fs1; now rewrite Hrm).
    unfold log. rewrite bind_emit. unfold ret at 1. rewrite E2.
    split; [reflexivity |]. split; [exact Hc |]. split; [exact Hs |].
    simpl. exact F2.
Qed.

Lemma backward_wipes fuel : wipe_spec source replica fuel.
Proof.
  induction fuel as [|fuel IHfuel]; intros es ps pr top dtop fs0 l Hh Hwf Hp Hsrc Hrep Hl.
  - rewrite height_Dir in Hh. lia.
  - assert (pr <> []) as Hne.
    { destruct Hp as (_ & _ & _ & _ & _ & Hd & _). now destruct (diverge_nonempty _ _ Hd). }
    pose proof (lookup_has_parent _ _ _ Hne Hrep) as Hpar.
    pose proof (proj1 (well_formed_Dir es) Hwf) as [Hnd _].
    assert (FS.stat dtop fs0 = Some (Dir es)) as Hstat.
    { destruct Hp as (_ & _ & Hd & _ & Hcd & _). now rewrite (stat_normal _ _ Hd), Hcd. }
    assert (fs0 = place pr (Dir es) fs0) as Hfs by (symmetry; now apply place_same).
    cbn [os_walk]. rewrite bind_os_scandir. cbn [fs]. rewrite (scandir_Dir _ _ _ Hstat).
    rewrite bind_unfold.
    destruct (wipe_dirs fuel ps pr top dtop fs0 IHfuel Hp Hsrc Hpar (dir_entries es) es l)
      as (t1 & l1 & E1 & Hc1 & Hs1 & F1).
    { now apply NoDup_dir_entries. }
    { pose proof (dir_entries_ready pr fs0 es fuel Hwf Hrep Hh) as Hready.
      apply List.Forall_forall. intros e He. rewrite List.Forall_forall in Hready.
      destruct (Hready e He) as (H1 & H2 & H3 & H4 & H5). repeat split; auto.
      now rewrite <- (lookup_child pr fs0 es). }
    { exact Hl. }
    rewrite <- Hfs in E1. rewrite E1. rewrite (without_dirs es Hnd).
    unfold clean_replica_dir. rewrite (proj2 (paired_replace _ _ _ _ _ _ Hp)).
    rewrite bind_unfold.
    destruct (wipe_files ps pr top dtop fs0 Hp Hpar (file_entries es) (file_entries es) l1)
      as (t2 & l2 & E2 & Hc2 & Hs2 & F2).
    { now apply NoDup_file_entries. }
    { pose proof (file_entries_ready pr fs0 es Hwf Hrep) as Hready.
      apply List.Forall_forall. intros e He. rewrite List.Forall_forall in Hready.
      destruct (Hready e He) as (H1 & H2 & H3). repeat split; auto.
      apply assoc_In; [now apply NoDup_file_entries | now destruct e]. }
    { exact Hs1. }
    rewrite E2. rewrite (without_all _ (NoDup_file_entries es Hnd)).
    rewrite bind_os_path_exists. cbn [fs]. unfold FS.exists_.
    destruct Hp as (_ & Ht & Hd & Hcs & Hcd & Hdiv & _).
    rewrite (stat_normal _ _ Ht), Hcs.
    rewrite lookup_place_diverge by now rewrite diverge_sym.
    rewrite Hsrc. unfold negb. cbv iota.
    destruct (put_total pr None fs0 Hne Hpar) as [fs1 Hput].
    assert (FS.rmdir dtop (place pr (Dir []) fs0) = inr fs1) as Hrm.
    { unfold FS.rmdir. rewrite (stat_normal _ _ Hd), Hcd, (lookup_place _ _ _ Hpar).
      unfold FS.put_or_error. now rewrite put_None_place, Hput. }
    rewrite bind_unfold. unfold os_rmdir.
    rewrite (sys_ok _ _ _ tt fs1) by (unfold mutate; now rewrite Hrm).
    unfold log. rewrite bind_emit. unfold ret.
    eexists _, fs1. split; [| split; [exact Hput |]].
    + rewrite Hc2, Hc1. reflexivity.
    + rewrite !count_app, F1, F2. reflexivity.
Qed.

End Wiping.

Lemma well_formed_assoc es c m :
  well_formed (Dir es) -> FS.assoc c es = Some m -> well_formed m.
Proof.
  rewrite well_formed_Dir, List.Forall_forall. intros [_ H] Ha.
  apply assoc_Some_In in Ha. apply (H _ Ha).
Qed.

Lemma well_formed_lookup p : forall fs m,
  well_formed fs -> FS.lookup p fs = Some m -> well_formed m.
Proof.
  induction p as [|c p IH]; intros fs m Hv H; [simpl in H; congruence |].
  destruct fs as [|es]; [discriminate |]. rewrite lookup_cons in H.
  destruct (FS.assoc c es) as [n|] eqn:Ha; [| discriminate].
  eapply IH; [| exact H]. eapply well_formed_assoc; eassumption.
Qed.

Lemma assoc_set_entry_None c es :
  NoDup (map fst es) -> FS.assoc c (FS.set_entry c None es) = None.
Proof.
  induction es as [|[k v] es IH]; intros Hnd; [reflexivity |].
  simpl in Hnd. apply NoDup_cons in Hnd as [Hk Hnd]. simpl.
  destruct (String.eqb_spec c k) as [-> | Hne].
  - apply assoc_None. intros Hin. apply Hk. now apply list_elem_of_In.
  - simpl. destruct (String.eqb_spec c k); [congruence | now apply IH].
Qed.

(** What is removed is not there any more. *)
Lemma lookup_put_None p : forall fs fs',
  well_formed fs -> FS.put p None fs = Some fs' -> FS.lookup p fs' = None.
Proof.
  induction p as [|c p IH]; intros fs fs' Hwf H; [destruct fs; discriminate |].
  destruct fs as [|es]; [destruct p; discriminate |].
  pose proof (proj1 (well_formed_Dir es) Hwf) as [Hnd _].
  destruct p as [|c' p].
  - rewrite put_single in H. injection H as <-.
    rewrite lookup_cons, assoc_set_entry_None by exact Hnd. reflexivity.
  - rewrite put_cons in H. destruct (FS.assoc c es) as [m|] eqn:Ha; [| discriminate].
    destruct (FS.put (c' :: p) None m) as [m'|] eqn:E; [| discriminate].
    injection H as <-. rewrite lookup_cons, assoc_set_entry_eq.
    eapply IH; [| exact E]. eapply well_formed_assoc; eassumption.
Qed.

(** X12: when the source root, a plain path, names nothing in a tree of
    real names, a run with no fault deletes
    every file and every directory of the replica and then the replica
    root itself, and returns [True]; nothing outside the replica changes.
    [os.walk] yields nothing for a source that is not there, so no file is
    recorded in [source_files], and [os.path.exists] is false for every
    path mapped into the source. *)
Theorem missing_source_empties_replica (source replica : string) (fs0 : node)
    (es : list (string * node)) (fuel : nat)
    (Hsource : normal_root source = true)
    (Hreplica : normal_root replica = true)
    (Hplain_source : plain source = true)
    (Hplain_replica : plain replica = true)
    (Hdisjoint : diverge (Path.components source) (Path.components replica) = true)
    (Hwf : well_formed fs0)
    (Hreal : real_names fs0)
    (Hmissing : FS.lookup (Path.components source) fs0 = None)
    (Htree : FS.lookup (Path.components replica) fs0 = Some (Dir es))
    (Hfuel : height (Dir es) <= fuel) :
  exists fs1 t,
    perform_sync fuel source replica {| fs := fs0; faults := [] |}
    = (Ok true, {| fs := fs1; faults := [] |}, t)
    /\ count is_failure t = 0
    /\ FS.exists_ replica fs1 = false
    /\ (forall q, diverge (Path.components replica) q = true ->
                  FS.lookup q fs1 = FS.lookup q fs0).
Proof.
  pose proof (paired_root _ _ Hsource Hreplica Hdisjoint) as Hp.
  set (l0 := {| changes := false; source_files := ∅; replica_files := ∅ |}).
  assert (0 < fuel) as Hpos by (rewrite height_Dir in Hfuel; lia).
  destruct (backward_wipes source replica fuel es _ _ source replica fs0 l0 Hfuel
              (well_formed_lookup _ _ _ Hwf Htree) Hp Hmissing Htree eq_refl)
    as (t & fs1 & E & Hput & Hf).
  exists fs1, t. split; [| split; [exact Hf | split]].
  - unfold perform_sync. fold l0. rewrite bind_unfold.
    assert (os_walk fuel true (sync_source_dir source replica) source l0
              {| fs := fs0; faults := [] |} = (Ok l0, {| fs := fs0; faults := [] |}, [])) as ->.
    { destruct fuel as [|fuel']; [lia |]. cbn [os_walk]. rewrite bind_os_scandir. cbn [fs].
      unfold FS.scandir. now rewrite (stat_normal _ _ Hsource), Hmissing. }
    rewrite bind_unfold, E. unfold ret. cbn. now rewrite app_nil_r.
  - unfold FS.exists_. rewrite (stat_normal _ _ Hreplica).
    now rewrite (lookup_put_None _ _ _ Hwf Hput).
  - intros q Hq. apply put_frame in Hput as [_ Hput]. now apply Hput.
Qed.

Lemma gone_world_well_formed :
  well_formed (Dir [("b", Dir [("rep", Dir [("junk", Dir [("g.txt", File "g" 0)]);
                                            ("old.txt", File "o" 0)])])]).
Proof.
  cbn [well_formed map fst].
  repeat split; try reflexivity; repeat (apply NoDup_cons_2; [set_solver |]); apply NoDup_nil_2.
Qed.

Lemma missing_source_empties_replica_witness :
  FS.lookup (Path.components "/a/src")
    (Dir [("b", Dir [("rep", Dir [("junk", Dir [("g.txt", File "g" 0)]);
                                  ("old.txt", File "o" 0)])])]) = None
  /\ exists fs1 t,
       perform_sync 5 "/a/src" "/b/rep"
         (World (Dir [("b", Dir [("rep", Dir [("junk", Dir [("g.txt", File "g" 0)]);
                                              ("old.txt", File "o" 0)])])]) [])
       = (Ok true, {| fs := fs1; faults := [] |}, t)
       /\ count is_failure t = 0
       /\ FS.exists_ "/b/rep" fs1 = false.
Proof.
  split; [reflexivity |].
  destruct (missing_source_empties_replica "/a/src" "/b/rep"
              (Dir [("b", Dir [("rep", Dir [("junk", Dir [("g.txt", File "g" 0)]);
                                            ("old.txt", File "o" 0)])])])
              [("junk", Dir [("g.txt", File "g" 0)]); ("old.txt", File "o" 0)] 5
              eq_refl eq_refl eq_refl eq_refl eq_refl gone_world_well_formed
              ltac:(vm_compute; tauto) eq_refl eq_refl
              ltac:(vm_compute; lia)) as (fs1 & t & E & Hf & He & _).
  exists fs1, t. auto.
Defined.

(** The same world run: the two files and the two directories go. *)
Example missing_source_run :
  perform_sync 5 "/a/src" "/b/rep"
    (World (Dir [("b", Dir [("rep", Dir [("junk", Dir [("g.txt", File "g" 0)]);
                                         ("old.txt", File "o" 0)])])]) [])
  = (Ok true, World (Dir [("b", Dir [])]) [],
     [Sys (Remove "/b/rep/junk/g.txt") None; Log INFO (FileDeleted "/b/rep/junk/g.txt");
      Sys (Rmdir "/b/rep/junk") None; Log INFO (DirectoryDeleted "/b/rep/junk");
      Sys (Remove "/b/rep/old.txt") None; Log INFO (FileDeleted "/b/rep/old.txt");
      Sys (Rmdir "/b/rep") None; Log INFO (DirectoryDeleted "/b/rep")]).
Proof. reflexivity. Qed.

(* ===================================================================== *)
(** * The prompts                                                         *)
(* ===================================================================== *)

Lemma lower_char_q c : lower_char c = "q"%char <-> c = "q"%char \/ c = "Q"%char.
Proof.
  destruct c as [[] [] [] [] [] [] [] []]; vm_compute;
    (split; [intros H; first [discriminate H | now left | now right]
            | intros [H | H]; first [discriminate H | reflexivity]]).
Qed.

(** [path.lower() == 'q'] holds of the two strings [q] and [Q] only. *)
Lemma lower_q s : lower s = "q"%string <-> s = "q"%string \/ s = "Q"%string.
Proof.
  destruct s as [|c [|c' s']]; simpl.
  - split; [discriminate | intros [H | H]; discriminate].
  - split.
    + intros [= H]. apply lower_char_q in H as [-> | ->]; auto.
    + intros [[= ->] | [= ->]]; reflexivity.
  - split; [discriminate | intros [H | H]; discriminate].
Qed.

Lemma lower_eqb s : String.eqb (lower s) "q" = false <-> s <> "q"%string /\ s <> "Q"%string.
Proof.
  rewrite String.eqb_neq, lower_q. tauto.
Qed.

Lemma validate_path_dir path fs : validate_path path "dir" fs = os_path_isdir path fs.
Proof. unfold validate_path. simpl. now destruct (os_path_isdir path fs). Qed.

Lemma validate_path_file path fs : validate_path path "file" fs = os_path_isfile path fs.
Proof. unfold validate_path. simpl. now destruct (os_path_isfile path fs). Qed.

Lemma get_input_cons_dir prompt now path rest w :
  get_input prompt "dir" now (path :: rest) w =
  if String.eqb (lower path) "q" then
    (Stopped_by (SystemExit 0), rest, w, [Prompt prompt; Say Exiting])
  else if os_path_isdir path (fs w) then (Returned path, rest, w, [Prompt prompt])
  else let '(r, rest', w', t) := get_input prompt "dir" now rest w in
       (r, rest', w', Prompt prompt :: Say BadPath :: t).
Proof. cbn [get_input]. rewrite validate_path_dir. reflexivity. Qed.

(** X15: [get_input(prompt, "dir")] reads lines up to the first that is [q]
    or [Q], on which it exits with status 0, or names an existing
    directory, which it returns; each line before that is answered with
    the complaint and a new prompt, and the file system is not touched.
    So a directory cannot be chosen by the name [q], and at the end of the
    input the [EOFError] of [input] leaves the function. *)
Theorem get_input_dir (prompt : string) (now : Z) (lines : list string) (w : world) :
  let '(r, rest, w', t) := get_input prompt "dir" now lines w in
  w' = w
  /\ exists bad,
       Forall (fun s => os_path_isdir s (fs w) = false /\ s <> "q"%string /\ s <> "Q"%string) bad
       /\ match r with
          | Returned p =>
              lines = bad ++ p :: rest
              /\ os_path_isdir p (fs w) = true /\ p <> "q"%string /\ p <> "Q"%string
              /\ t = flat_map (fun _ => [Prompt prompt; Say BadPath]) bad ++ [Prompt prompt]
          | Stopped_by (SystemExit code) =>
              code = 0%Z
              /\ exists s, lines = bad ++ s :: rest /\ (s = "q"%string \/ s = "Q"%string)
          | Stopped_by EOFError => lines = bad /\ rest = []
          | Stopped_by _ => False
          end.
Proof.
  induction lines as [|path lines IH].
  - simpl. split; [reflexivity |]. exists []. auto.
  - rewrite get_input_cons_dir.
    destruct (String.eqb (lower path) "q") eqn:Eq.
    + split; [reflexivity |]. exists []. split; [constructor |]. split; [reflexivity |].
      exists path. split; [reflexivity |]. apply lower_q. now apply String.eqb_eq.
    + apply lower_eqb in Eq as [Hq HQ].
      destruct (os_path_isdir path (fs w)) eqn:Ed.
      * split; [reflexivity |]. exists []. split; [constructor |]. auto.
      * destruct (get_input prompt "dir" now lines w) as [[[r rest] w'] t].
        destruct IH as (-> & bad & Hbad & IH). split; [reflexivity |].
        exists (path :: bad). split; [constructor; auto |].
        destruct r as [p | [code | | |]]; try contradiction.
        -- destruct IH as (-> & Hd & H1 & H2 & ->). auto.
        -- destruct IH as (-> & s & -> & Hs). split; [reflexivity |]. exists s. auto.
        -- destruct IH as (-> & ->). auto.
Qed.

(** ** [open(path, "a")] *)

Lemma stat_not_empty path fs n : FS.stat path fs = Some n -> path <> ""%string.
Proof. intros H ->. discriminate. Qed.

Lemma stat_created path now fs fs' :
  path <> ""%string -> Path.ends_with_sep path = false ->
  FS.put (Path.components path) (Some (File "" now)) fs = Some fs' ->
  FS.stat path fs' = Some (File "" now).
Proof.
  intros Hne Hsep Hput. unfold FS.stat. destruct path as [|c path]; [congruence |].
  rewrite (lookup_put _ _ _ _ Hput), Hsep. reflexivity.
Qed.

(** What [open(path, "a")] leaves when it succeeds: a regular file at
    [path]; the file system as it was when the file was there; else a new
    empty file and nothing else changed. *)
Lemma open_append_ok path now fs fs' :
  open_append path now fs = inr fs' ->
  (exists d m, FS.stat path fs' = Some (File d m))
  /\ (forall d m, FS.stat path fs = Some (File d m) -> fs' = fs)
  /\ (FS.stat path fs = None -> FS.stat path fs' = Some (File "" now))
  /\ (forall q, diverge (Path.components path) q = true -> FS.lookup q fs' = FS.lookup q fs).
Proof.
  unfold open_append. destruct (FS.stat path fs) as [[d m|es]|] eqn:Hs.
  - intros [= <-]. rewrite Hs. repeat split; eauto; discriminate.
  - discriminate.
  - assert (path <> ""%string -> Path.ends_with_sep path = false ->
            FS.put_or_error (Path.components path) (Some (File "" now)) fs = inr fs' ->
            (exists d m, FS.stat path fs' = Some (File d m))
            /\ (forall d m, @None node = Some (File d m) -> fs' = fs)
            /\ (@None node = None -> FS.stat path fs' = Some (File "" now))
            /\ (forall q, diverge (Path.components path) q = true ->
                          FS.lookup q fs' = FS.lookup q fs)) as Hmake; cycle 1.
    { destruct path as [|c path']; [discriminate |].
      destruct (Path.ends_with_sep (String c path')) eqn:Hsep; [discriminate |].
      intros H. apply Hmake; [discriminate | reflexivity | exact H]. }
    intros Hne Hsep H. apply put_or_error_frame in H.
    pose proof (stat_created _ _ _ _ Hne Hsep H) as Hnew.
    split; [eauto |]. split; [discriminate |]. split; [auto |].
    apply put_frame in H as [_ H]. exact H.
Qed.

(** X16: when the lines typed are plain paths, [get_input(prompt, "file")]
    returns a path only after [open(path, "a")] succeeded on it: the path
    then names a regular file;
    a file that was there keeps the file system as it was, a file that was
    not is created empty and nothing else changes. A line that is refused
    creates nothing, and neither does leaving by [q], by the end of the
    input or by an exception. *)
Theorem get_input_file (prompt : string) (now : Z) (lines : list string) (w : world)
    (Hlines : Forall (fun path => plain path = true) lines) :
  let '(r, rest, w', t) := get_input prompt "file" now lines w in
  match r with
  | Returned p =>
      os_path_isfile p (fs w') = true /\ p <> "q"%string /\ p <> "Q"%string
      /\ (forall d m, FS.stat p (fs w) = Some (File d m) -> fs w' = fs w)
      /\ (FS.stat p (fs w) = None -> FS.stat p (fs w') = Some (File "" now))
      /\ (forall q, diverge (Path.components p) q = true ->
                    FS.lookup q (fs w') = FS.lookup q (fs w))
  | Stopped_by _ => fs w' = fs w
  end.
Proof.
  clear Hlines. revert w. induction lines as [|path lines IH]; intros w; [reflexivity |].
  cbn [get_input]. destruct (String.eqb (lower path) "q") eqn:Eq; [reflexivity |].
  apply lower_eqb in Eq as [Hq HQ]. simpl String.eqb.
  destruct (has_nul path) eqn:Hnul; [reflexivity |].
  set (w1 := {| fs := fs w; faults := tail (faults w) |}).
  pose proof (IH w1) as Hagain.
  destruct (get_input prompt "file" now lines w1) as [[[r rest'] w'] t].
  assert (forall fs', open_append path now (fs w) = inr fs' ->
            os_path_isfile path fs' = true /\ path <> "q"%string /\ path <> "Q"%string
            /\ (forall d m, FS.stat path (fs w) = Some (File d m) -> fs' = fs w)
            /\ (FS.stat path (fs w) = None -> FS.stat path fs' = Some (File "" now))
            /\ (forall q, diverge (Path.components path) q = true ->
                          FS.lookup q fs' = FS.lookup q (fs w))) as Hok.
  { intros fs' H. apply open_append_ok in H as ((d & m & H0) & H1 & H2 & H3).
    split; [unfold os_path_isfile; rewrite Hnul, H0; reflexivity | auto]. }
  destruct (head (faults w)) as [[[e|]|]|];
    destruct (open_append path now (fs w)) as [e'|fs'] eqn:Eo;
    first [exact Hagain | reflexivity | cbn [fs]; apply Hok; reflexivity].
Qed.

Lemma get_input_file_witness :
  Forall (fun path => plain path = true) ["/a/src/sub/new.txt"; "/b/rep"]
  /\ (let '(r, rest, w', t) :=
        get_input "Insert log file path: " "file" 7 ["/a/src/sub/new.txt"; "/b/rep"]
                  Scenario.fresh in
      match r with
      | Returned p => os_path_isfile p (fs w') = true
      | Stopped_by _ => fs w' = fs Scenario.fresh
      end).
Proof.
  assert (Forall (fun path => plain path = true) ["/a/src/sub/new.txt"; "/b/rep"]) as Hl
    by (repeat constructor).
  split; [exact Hl |].
  pose proof (get_input_file "Insert log file path: " 7 ["/a/src/sub/new.txt"; "/b/rep"]
                Scenario.fresh Hl) as H.
  destruct (get_input "Insert log file path: " "file" 7 ["/a/src/sub/new.txt"; "/b/rep"]
              Scenario.fresh) as [[[r rest] w'] t].
  destruct r as [p | s]; [exact (proj1 H) | exact H].
Defined.

(** ** A directory typed with a trailing separator *)

Lemma has_nul_append a b : has_nul (a +:+ b) = has_nul a || has_nul b.
Proof.
  induction a as [|c a IH]; [reflexivity |]. rewrite append_cons. simpl.
  now rewrite IH, orb_assoc.
Qed.

Lemma components_trailing_sep p : Path.components (p +:+ "/") = Path.components p.
Proof.
  rewrite <- (append_empty_r (p +:+ "/")), append_assoc.
  unfold Path.components. rewrite split_append, filter_app. simpl.
  now rewrite app_nil_r.
Qed.

Lemma ends_with_sep_trailing p : Path.ends_with_sep (p +:+ "/") = true.
Proof.
  induction p as [|c p IH]; [reflexivity |]. rewrite append_cons.
  destruct (p +:+ "/")%string eqn:E; [destruct p; discriminate |].
  simpl in *. exact IH.
Qed.

Lemma isdir_trailing_sep p fs :
  p <> ""%string -> os_path_isdir (p +:+ "/") fs = os_path_isdir p fs.
Proof.
  intros Hne. unfold os_path_isdir. rewrite has_nul_append. simpl. rewrite orb_false_r.
  f_equal. unfold FS.stat. rewrite components_trailing_sep, ends_with_sep_trailing.
  destruct p as [|c p]; [congruence |]. rewrite append_cons.
  destruct (FS.lookup _ fs) as [[d m|es]|]; try reflexivity.
  now destruct (Path.ends_with_sep (String c p)).
Qed.

(** X17: a directory is accepted as well when it is typed with a trailing
    separator: [validate_path] gives the same answer for [p] and for [p/],
    and [get_input] returns the line as typed, separator included; it is
    the string that [main] passes on to [perform_sync]. *)
Theorem get_input_keeps_trailing_separator (prompt p : string) (now : Z)
    (rest : list string) (w : world)
    (Hp : p <> ""%string)
    (Hdir : os_path_isdir p (fs w) = true) :
  validate_path (p +:+ "/") "dir" (fs w) = validate_path p "dir" (fs w)
  /\ get_input prompt "dir" now ((p +:+ "/") :: rest)%string w
     = (Returned (p +:+ "/"), rest, w, [Prompt prompt]).
Proof.
  split; [now rewrite !validate_path_dir, isdir_trailing_sep |].
  rewrite get_input_cons_dir, isdir_trailing_sep, Hdir by exact Hp.
  assert (String.eqb (lower (p +:+ "/")) "q" = false) as ->; [| reflexivity].
  apply lower_eqb. destruct p as [|c [|c' p]]; [congruence | |]; split; discriminate.
Qed.

Lemma get_input_keeps_trailing_separator_witness :
  "/a/src"%string <> ""%string
  /\ os_path_isdir "/a/src" (fs Scenario.fresh) = true
  /\ get_input "Insert source folder path: " "dir" 0 ["/a/src/"; "/b/rep"]%string Scenario.fresh
     = (Returned "/a/src/", ["/b/rep"%string], Scenario.fresh,
        [Prompt "Insert source folder path: "]).
Proof.
  split; [discriminate |]. split; [reflexivity |].
  exact (proj2 (get_input_keeps_trailing_separator "Insert source folder path: " "/a/src" 0
                  ["/b/rep"%string] Scenario.fresh ltac:(discriminate) eq_refl)).
Defined.

(* ===================================================================== *)
(** * Places and changes                                                  *)
(* ===================================================================== *)














(* ===================================================================== *)
(** * Calls that do not fail                                              *)
(* ===================================================================== *)






(* ===================================================================== *)
(** * The forward pass on any replica                                     *)
(* ===================================================================== *)




Section Forward.
Variables source replica : string.


End Forward.





Section ForwardAny.
Variables source replica : string.


End ForwardAny.




Section ForwardWalk.
Variables source replica : string.



End ForwardWalk.






Section ForwardStep.
Variables source replica : string.



End ForwardStep.




Section BackwardFiles.
Variables source replica : string.


End BackwardFiles.




Section BackwardWalk.
Variables source replica : string.


End BackwardWalk.


Section BackwardStep.
Variables source replica : string.



End BackwardStep.



(** ** The backward pass copies nothing *)






Section AnyReplica.
Variables (source replica : string) (fuel : nat).
Hypothesis Hsource : normal_root source = true.
Hypothesis Hreplica : normal_root replica = true.
Hypothesis Hdisjoint : diverge (Path.components source) (Path.components replica) = true.









End AnyReplica.

(** ** An instance: a replica with a stale file and with extra entries *)








(* ===================================================================== *)
(** * The digests decide what is copied                                   *)
(* ===================================================================== *)




